(** * Instrument Analyzer GUI: a shallow embedding of the streaming
      pitch/volume analysis core

    The embedding follows [instrument_analyzer_gui_clean.pyw] (module
    [Clean], the running variant), the parts of
    [instrument_analyzer_gui_backup.pyw] that differ from it (module
    [Backup]) and the first, PyAudio based version (module [Legacy]).

    Conventions.
    - A Python [float] is an exact rational ([Q]); rounding is not
      modelled, with one exception: the product that [int()] truncates
      to the volume is rounded to a [float32] first, as NumPy computes
      the product of a [float32] and a Python [int] ([Np.float32]).
      [nan] is kept where the source tests for it ([npfloat]), and
      [float('inf')] where the source starts a minimum search with it
      ([pyinf]).
    - [librosa.pyin], [librosa.hz_to_note] and [np.sqrt] are library
      calls: they are parameters of the functions that call them.
    - A [collections.deque] is the list of its elements, oldest first.
    - [try: ... except Exception] is an error monad over the object's
      state: what was assigned before the exception stays assigned.
    - Logging, widgets and time stamps are left out. *)

From Stdlib Require Import String List Arith ZArith QArith Qabs Qround Qminmax.
From Stdlib Require Import Bool Lia Lqa Permutation Sorted.
From Stdlib Require Import Ascii DecimalString DecimalNat Qpower.
Import ListNotations.

Local Open Scope Q_scope.

(** ** Python and NumPy numerics *)

Module Py.

(** [x < y] and [x <= y] on floats. *)
Definition ltb (x y : Q) : bool := (Qnum x * QDen y <? Qnum y * QDen x)%Z.
Definition leb (x y : Q) : bool := Qle_bool x y.

(** [max(a, b)]: the first argument unless the second is greater. *)
Definition max (a b : Q) : Q := if ltb a b then b else a.

(** [min(a, b)]: the first argument unless the second is smaller. *)
Definition min (a b : Q) : Q := if ltb b a then b else a.

(** [int(x)]: truncation towards zero. *)
Definition int (x : Q) : Z := Z.quot (Qnum x) (Zpos (Qden x)).

(** [float('inf')] as the start value of a minimum search. *)
Inductive pyinf : Type :=
| Inf : pyinf
| Fin : Q -> pyinf.

(** [x < m] where [m] may be [inf]. *)
Definition lt_inf (x : Q) (m : pyinf) : bool :=
  match m with
  | Inf => true
  | Fin y => ltb x y
  end.

(** Exceptions that the modelled code can meet. *)
Inductive exn : Type :=
| LibraryError   (* raised inside a library call (pyin, stream.read) *)
| IndexError     (* boolean index of the wrong length *)
| ValueError     (* int(nan) *)
| ZeroDivisionError
| OverflowError. (* int(inf) *)

Inductive result (A : Type) : Type :=
| Ok : A -> result A
| Raise : exn -> result A.
Arguments Ok {A} _.
Arguments Raise {A} _.

(** [a / b] on floats. *)
Definition div (a b : Q) : result Q :=
  if Qeq_bool b 0 then Raise ZeroDivisionError else Ok (a / b).

(** Computations over the state [S] of an object that may raise. *)
Definition M (S A : Type) : Type := S -> result A * S.

Definition ret {S A} (a : A) : M S A := fun s => (Ok a, s).

Definition bind {S A B} (m : M S A) (k : A -> M S B) : M S B :=
  fun s =>
    match m s with
    | (Ok a, s') => k a s'
    | (Raise e, s') => (Raise e, s')
    end.

Definition lift {S A} (r : result A) : M S A := fun s => (r, s).

Definition modify {S} (f : S -> S) : M S unit := fun s => (Ok tt, f s).

Definition gets {S A} (f : S -> A) : M S A := fun s => (Ok (f s), s).

(** [try: body  except Exception: handler]. *)
Definition try_except {S A} (body : M S A) (handler : exn -> M S A) : M S A :=
  fun s =>
    match body s with
    | (Ok a, s') => (Ok a, s')
    | (Raise e, s') => handler e s'
    end.

End Py.

Notation "x <- m ;; k" := (Py.bind m (fun x => k))
  (at level 61, m at next level, right associativity).
Notation "m ;;; k" := (Py.bind m (fun _ => k))
  (at level 61, right associativity).

Module Np.

(** An array element: a number or [nan]. *)
Inductive npfloat : Type :=
| Num : Q -> npfloat
| NaN : npfloat.

Definition isnan (x : npfloat) : bool :=
  match x with
  | Num _ => false
  | NaN => true
  end.

(** [a * g] and [a ** 2], element by element. *)
Definition scale (g : Q) (a : list npfloat) : list npfloat :=
  map (fun x => match x with Num q => Num (q * g) | NaN => NaN end) a.

Definition square (a : list npfloat) : list npfloat :=
  map (fun x => match x with Num q => Num (q * q) | NaN => NaN end) a.

(** [a[~np.isnan(a)]]: the numbers of [a], in order. *)
Fixpoint valid (a : list npfloat) : list Q :=
  match a with
  | [] => []
  | Num q :: t => q :: valid t
  | NaN :: t => valid t
  end.

(** [probs > 0.5]; a comparison with [nan] is false. *)
Definition gt_half (probs : list npfloat) : list bool :=
  map (fun p => match p with Num q => Py.ltb (1 # 2) q | NaN => false end) probs.

(** [a[mask]] for a boolean mask of the same length. *)
Fixpoint select {A} (a : list A) (mask : list bool) : list A :=
  match a, mask with
  | x :: a', b :: mask' => if b then x :: select a' mask' else select a' mask'
  | _, _ => []
  end.

(** [a[mask]]: NumPy refuses a mask of another length. *)
Definition index_mask {A} (a : list A) (mask : list bool) : Py.result (list A) :=
  if Nat.eqb (length a) (length mask) then Py.Ok (select a mask)
  else Py.Raise Py.IndexError.

Definition sum (l : list Q) : Q := fold_left Qplus l 0.

(** [np.mean] of numbers. *)
Definition mean (l : list Q) : Q := sum l / inject_Z (Z.of_nat (length l)).

(** [np.mean] of an array: [nan] for an empty array or one holding [nan]. *)
Definition mean_arr (a : list npfloat) : npfloat :=
  match a with
  | [] => NaN
  | _ => if existsb isnan a then NaN else Num (mean (valid a))
  end.

(** Sorting, for the median. *)
Fixpoint insert (x : Q) (l : list Q) : list Q :=
  match l with
  | [] => [x]
  | y :: t => if Py.leb x y then x :: l else y :: insert x t
  end.

Definition sort (l : list Q) : list Q := fold_right insert [] l.

(** [np.median] of a non-empty array of numbers: the middle element of
    the sorted array, or the mean of the two middle elements. *)
Definition median (l : list Q) : Q :=
  let s := sort l in
  let n := length s in
  if Nat.even n
  then (nth (n / 2 - 1) s 0 + nth (n / 2) s 0) / 2
  else nth (n / 2) s 0.

(** *** float32 products

    The root mean square is a [numpy.float32], and so is its product
    with a Python [int]: the exact product is rounded to the nearest
    number with 24 significant bits, halves to the even neighbour, with
    exponents from -149 (subnormal numbers) to 104; from [2^128 - 2^103]
    on it becomes [inf]. *)

(** The nearest integer, halves to the even neighbour. *)
Definition nearest_even (x : Q) : Z :=
  let f := Qfloor x in
  match Qcompare (x - inject_Z f) (1 # 2) with
  | Lt => f
  | Gt => (f + 1)%Z
  | Eq => if Z.even f then f else (f + 1)%Z
  end.

(** A float32 result: a number, or [inf] ([true]) and [-inf] ([false]). *)
Inductive rounded : Type :=
| Finite : Q -> rounded
| Overflow : bool -> rounded.

(** [floor(log2(x))] for [x > 0]. *)
Definition ilog2 (x : Q) : Z :=
  let c := (Z.log2 (Qnum x) - Z.log2 (Zpos (Qden x)))%Z in
  if Qle_bool (2 ^ c) x then c else (c - 1)%Z.

(** Rounding of [x > 0]; [None] is [inf]. *)
Definition float32_pos (x : Q) : option Q :=
  let e := Z.max (ilog2 x - 23) (-149) in
  let y := inject_Z (nearest_even (x / 2 ^ e)) * 2 ^ e in
  if Qle_bool (2 ^ 128) y then None else Some y.

(** The float32 nearest to [x]. *)
Definition float32 (x : Q) : rounded :=
  let x := Qred x in
  match Qnum x with
  | Z0 => Finite 0
  | Zpos _ =>
      match float32_pos x with
      | Some y => Finite (Qred y)
      | None => Overflow true
      end
  | Zneg _ =>
      match float32_pos (- x) with
      | Some y => Finite (Qred (- y))
      | None => Overflow false
      end
  end.

End Np.

(** ** collections.deque(maxlen=...) *)

Module Deque.
Section Bounded.

Context {A : Type}.
Variable maxlen : nat.

(** [d.append(x)]: the new element goes to the right; a deque that is
    over its bound afterwards loses its leftmost element. *)
Definition append (d : list A) (x : A) : list A :=
  let d' := d ++ [x] in
  if (maxlen <? length d')%nat then tl d' else d'.

(** [d.extend(xs)]: append the elements one after the other. *)
Definition extend (d : list A) (xs : list A) : list A :=
  fold_left append xs d.

End Bounded.

(** [if d: d.popleft()]. *)
Definition popleft_if {A} (d : list A) : list A :=
  match d with
  | [] => []
  | _ :: t => t
  end.

(** [for _ in range(n): if d: d.popleft()]. *)
Fixpoint popleft_n {A} (n : nat) (d : list A) : list A :=
  match n with
  | O => d
  | S n' => popleft_n n' (popleft_if d)
  end.

(** The [n] newest elements of a sequence. *)
Definition lastn {A} (n : nat) (l : list A) : list A :=
  skipn (length l - n) l.

End Deque.

(** ** Notes *)

Module Notes.

Local Open Scope string_scope.

(** One entry of ["note_frequencies"]. *)
Record note_info : Type := {
  frequency : Q;
  western : string;
  japanese : string
}.

(** A [dict] in iteration (insertion) order. *)
Definition note_table : Type := list (string * note_info).

(** The JSON document. *)
Record note_data : Type := {
  note_frequencies : note_table
}.

Definition NA : string := "N/A".

(** The body of the [for] loop of [frequency_to_note]; the accumulator
    is [(min_diff, (closest_note, closest_japanese, closest_freq))]. *)
Definition scan (f : Q) (acc : Py.pyinf * (string * string * Q))
    (item : string * note_info) : Py.pyinf * (string * string * Q) :=
  let note_info := snd item in
  let diff := Qabs (frequency note_info - f) in
  if Py.lt_inf diff (fst acc)
  then (Py.Fin diff, (western note_info, japanese note_info, frequency note_info))
  else acc.

(** [frequency_to_note(frequency, note_data)], the same in both GUI
    variants. *)
Definition frequency_to_note (f : Q) (nd : note_data) : string * string * Q :=
  if Py.leb f 0 then (NA, NA, 0)
  else snd (fold_left (scan f) (note_frequencies nd) (Py.Inf, (NA, NA, 0))).

(** What the scan compares: [abs(note_info["frequency"] - frequency)]. *)
Definition dist (f : Q) (e : note_info) : Q := Qabs (frequency e - f).

(** What the scan returns for an entry. *)
Definition answer (e : note_info) : string * string * Q :=
  (western e, japanese e, frequency e).

(** Entry [i] of the table is the first one at the least distance from [f]. *)
Definition first_nearest (f : Q) (t : note_table) (i : nat) (e : note_info)
    : Prop :=
  (exists key, nth_error t i = Some (key, e))
  /\ (forall key' e', In (key', e') t -> dist f e <= dist f e')
  /\ (forall j key' e', (j < i)%nat -> nth_error t j = Some (key', e') ->
        dist f e < dist f e').

(** The table embedded in [load_note_frequencies] of the clean variant. *)
Definition default_table : note_table :=
  [ ("C4", {| frequency := 261.63; western := "C4"; japanese := "ド" |});
    ("D4", {| frequency := 293.66; western := "D4"; japanese := "レ" |});
    ("E4", {| frequency := 329.63; western := "E4"; japanese := "ミ" |});
    ("F4", {| frequency := 349.23; western := "F4"; japanese := "ファ" |});
    ("G4", {| frequency := 392.00; western := "G4"; japanese := "ソ" |});
    ("A4", {| frequency := 440.00; western := "A4"; japanese := "ラ" |});
    ("B4", {| frequency := 493.88; western := "B4"; japanese := "シ" |}) ].

End Notes.

(** ** The analyzer object *)

Module Gui.

Import Notes.

(** The fields of [InstrumentAnalyzerGUI] that the audio path reads or
    writes. *)
Record state : Type := {
  is_running : bool;
  stop_event : bool;                  (* [self._stop_event.is_set()] *)
  current_f0 : Q;
  current_note : string;
  current_japanese_note : string;
  current_volume : Z;
  note_confidence : Q;
  note_data : Notes.note_data;
  audio_buffer : list Np.npfloat;     (* [deque(maxlen=CHUNK * 10)] *)
  volume_data : list Z;               (* graph history *)
  frequency_data : list Np.npfloat    (* graph history *)
}.

Definition set_current_f0 (v : Q) (s : state) : state :=
  {| is_running := is_running s; stop_event := stop_event s;
     current_f0 := v; current_note := current_note s;
     current_japanese_note := current_japanese_note s;
     current_volume := current_volume s; note_confidence := note_confidence s;
     note_data := note_data s; audio_buffer := audio_buffer s;
     volume_data := volume_data s; frequency_data := frequency_data s |}.

Definition set_current_note (v : string) (s : state) : state :=
  {| is_running := is_running s; stop_event := stop_event s;
     current_f0 := current_f0 s; current_note := v;
     current_japanese_note := current_japanese_note s;
     current_volume := current_volume s; note_confidence := note_confidence s;
     note_data := note_data s; audio_buffer := audio_buffer s;
     volume_data := volume_data s; frequency_data := frequency_data s |}.

Definition set_current_japanese_note (v : string) (s : state) : state :=
  {| is_running := is_running s; stop_event := stop_event s;
     current_f0 := current_f0 s; current_note := current_note s;
     current_japanese_note := v;
     current_volume := current_volume s; note_confidence := note_confidence s;
     note_data := note_data s; audio_buffer := audio_buffer s;
     volume_data := volume_data s; frequency_data := frequency_data s |}.

Definition set_current_volume (v : Z) (s : state) : state :=
  {| is_running := is_running s; stop_event := stop_event s;
     current_f0 := current_f0 s; current_note := current_note s;
     current_japanese_note := current_japanese_note s;
     current_volume := v; note_confidence := note_confidence s;
     note_data := note_data s; audio_buffer := audio_buffer s;
     volume_data := volume_data s; frequency_data := frequency_data s |}.

Definition set_note_confidence (v : Q) (s : state) : state :=
  {| is_running := is_running s; stop_event := stop_event s;
     current_f0 := current_f0 s; current_note := current_note s;
     current_japanese_note := current_japanese_note s;
     current_volume := current_volume s; note_confidence := v;
     note_data := note_data s; audio_buffer := audio_buffer s;
     volume_data := volume_data s; frequency_data := frequency_data s |}.

Definition set_audio_buffer (v : list Np.npfloat) (s : state) : state :=
  {| is_running := is_running s; stop_event := stop_event s;
     current_f0 := current_f0 s; current_note := current_note s;
     current_japanese_note := current_japanese_note s;
     current_volume := current_volume s; note_confidence := note_confidence s;
     note_data := note_data s; audio_buffer := v;
     volume_data := volume_data s; frequency_data := frequency_data s |}.

Definition set_volume_data (v : list Z) (s : state) : state :=
  {| is_running := is_running s; stop_event := stop_event s;
     current_f0 := current_f0 s; current_note := current_note s;
     current_japanese_note := current_japanese_note s;
     current_volume := current_volume s; note_confidence := note_confidence s;
     note_data := note_data s; audio_buffer := audio_buffer s;
     volume_data := v; frequency_data := frequency_data s |}.

Definition set_frequency_data (v : list Np.npfloat) (s : state) : state :=
  {| is_running := is_running s; stop_event := stop_event s;
     current_f0 := current_f0 s; current_note := current_note s;
     current_japanese_note := current_japanese_note s;
     current_volume := current_volume s; note_confidence := note_confidence s;
     note_data := note_data s; audio_buffer := audio_buffer s;
     volume_data := volume_data s; frequency_data := v |}.

(** What [librosa.pyin] returns: [(f0, voiced_flag, voiced_probs)]. *)
Definition pyin_out : Type := list Np.npfloat * list bool * list Np.npfloat.

(** The four assignments that every "nothing detected" branch and every
    [except] clause of [_analyze_audio_segment] makes. *)
Definition unvoiced : Py.M state unit :=
  Py.modify (set_current_f0 0) ;;;
  Py.modify (set_current_note NA) ;;;
  Py.modify (set_current_japanese_note NA) ;;;
  Py.modify (set_note_confidence 0).

(** The state after assigning the four pitch fields, in the order of the
    source. *)
Definition with_pitch (f0 : Q) (note jnote : string) (conf : Q) (s : state)
    : state :=
  set_note_confidence conf
    (set_current_japanese_note jnote (set_current_note note (set_current_f0 f0 s))).

(** The estimates that pass [voiced_probs > 0.5] and are not [nan]. *)
Definition survivors (f0 voiced_probs : list Np.npfloat) : list Q :=
  Np.valid (Np.select f0 (Np.gt_half voiced_probs)).

(** [75 <= f <= 1200]. *)
Definition in_band (f : Q) : bool := Py.leb 75 f && Py.leb f 1200.

(** [__init__] with the table that [load_note_frequencies] returned. *)
Definition init (nd : Notes.note_data) : state :=
  {| is_running := false; stop_event := false;
     current_f0 := 0; current_note := NA; current_japanese_note := NA;
     current_volume := 0%Z; note_confidence := 0;
     note_data := nd; audio_buffer := [];
     volume_data := []; frequency_data := [] |}.

End Gui.

(** ** instrument_analyzer_gui_clean.pyw *)

Module Clean.

Import Notes Gui.

Definition CHUNK : nat := 1024.
Definition FRAME_LENGTH : nat := CHUNK * 2.
Definition HOP_LENGTH : nat := CHUNK.
Definition GAIN_MULTIPLIER : Q := 10.
Definition BUFFER_MAXLEN : nat := CHUNK * 10.
(** [int(GRAPH_HISTORY_SECONDS * RATE / CHUNK)] = int(30 * 44100 / 1024). *)
Definition GRAPH_MAXLEN : nat := 1291.

(** [open] and [json.load] either give the document or raise. *)
Definition load_note_frequencies (file : Py.result Notes.note_data)
    : Notes.note_data :=
  match file with
  | Py.Ok d => d
  | Py.Raise _ => {| note_frequencies := default_table |}
  end.

(** [start_analysis] when a device is selected and the stream opens. *)
Definition start_analysis (s : state) : state :=
  if is_running s then s
  else
    {| is_running := true; stop_event := false;
       current_f0 := current_f0 s; current_note := current_note s;
       current_japanese_note := current_japanese_note s;
       current_volume := current_volume s;
       note_confidence := note_confidence s;
       note_data := note_data s; audio_buffer := [];
       volume_data := []; frequency_data := [] |}.

(** [stop_analysis]. *)
Definition stop_analysis (s : state) : state :=
  if negb (is_running s) then s
  else
    {| is_running := false; stop_event := true;
       current_f0 := current_f0 s; current_note := current_note s;
       current_japanese_note := current_japanese_note s;
       current_volume := current_volume s;
       note_confidence := note_confidence s;
       note_data := note_data s; audio_buffer := audio_buffer s;
       volume_data := volume_data s; frequency_data := frequency_data s |}.

Section Libraries.

Variable pyin : list Np.npfloat -> Py.result pyin_out.
Variable np_sqrt : Q -> Q.

(** [np.sqrt(np.mean(audio_data ** 2))]. *)
Definition rms (audio_data : list Np.npfloat) : Np.npfloat :=
  match Np.mean_arr (Np.square audio_data) with
  | Np.Num m => Np.Num (np_sqrt m)
  | Np.NaN => Np.NaN
  end.

(** [int(volume * 100)]: the float32 product, truncated; [int] refuses
    [nan] and [inf]. *)
Definition int_percent (volume : Np.npfloat) : Py.result Z :=
  match volume with
  | Np.Num v =>
      match Np.float32 (v * 100) with
      | Np.Finite p => Py.Ok (Py.int p)
      | Np.Overflow _ => Py.Raise Py.OverflowError
      end
  | Np.NaN => Py.Raise Py.ValueError
  end.

(** [audio_callback(indata, ...)] for one block of mono samples. *)
Definition audio_callback (indata : list Np.npfloat) : Py.M state unit :=
  Py.try_except
    (let audio_data := Np.scale GAIN_MULTIPLIER indata in
     Py.modify (fun s =>
       set_audio_buffer (Deque.extend BUFFER_MAXLEN (audio_buffer s) audio_data) s) ;;;
     let volume := rms audio_data in
     i <- Py.lift (int_percent volume) ;;
     Py.modify (set_current_volume (if (i <? 100)%Z then i else 100%Z)))
    (fun _ => Py.ret tt).

(** The [try] block of [_analyze_audio_segment]. *)
Definition analyze_try (segment : list Np.npfloat) : Py.M state unit :=
  out <- Py.lift (pyin segment) ;;
  let '(f0, voiced_flag, voiced_probs) := out in
  let valid_f0 := Np.valid f0 in
  if (0 <? length valid_f0)%nat then
    let confidence_mask := Np.gt_half voiced_probs in
    confident_f0 <- Py.lift (Np.index_mask f0 confidence_mask) ;;
    let confident_valid := Np.valid confident_f0 in
    if (0 <? length confident_valid)%nat then
      let detected_f0 := Np.median confident_valid in
      if Py.leb 75 detected_f0 && Py.leb detected_f0 1200 then
        Py.modify (set_current_f0 detected_f0) ;;;
        nd <- Py.gets note_data ;;
        let '(western_note, japanese_note, closest_freq) :=
          frequency_to_note detected_f0 nd in
        Py.modify (set_current_note western_note) ;;;
        Py.modify (set_current_japanese_note japanese_note) ;;;
        if Py.ltb 0 closest_freq then
          let freq_diff := Qabs (detected_f0 - closest_freq) in
          ratio <- Py.lift (Py.div freq_diff closest_freq) ;;
          let confidence := Py.max 0 (100 - (ratio * 100 * 10)) in
          Py.modify (set_note_confidence (Py.min 100 confidence))
        else
          Py.modify (set_note_confidence 0)
      else unvoiced
    else unvoiced
  else unvoiced.

Definition _analyze_audio_segment (segment : list Np.npfloat) : Py.M state unit :=
  Py.try_except (analyze_try segment) (fun _ => unvoiced).

(** The [for] loop that advances the buffer:
    [for _ in range(min(len(self.audio_buffer), CHUNK))]. *)
Definition advance (s : state) : state :=
  set_audio_buffer
    (Deque.popleft_n (Nat.min (length (audio_buffer s)) CHUNK)
       (audio_buffer s)) s.

(** The graph history update that ends an iteration. *)
Definition record_history (s : state) : state :=
  let s1 :=
    set_volume_data
      (Deque.append GRAPH_MAXLEN (volume_data s) (current_volume s)) s in
  set_frequency_data
    (Deque.append GRAPH_MAXLEN (frequency_data s1)
       (if Py.ltb 0 (current_f0 s1) then Np.Num (current_f0 s1)
        else Np.NaN)) s1.

(** The body of the [while] loop of [_audio_loop] ([time.sleep] left
    out). *)
Definition audio_loop_body : Py.M state unit :=
  Py.try_except
    (buf <- Py.gets audio_buffer ;;
     if (FRAME_LENGTH <=? length buf)%nat then
       let segment := firstn FRAME_LENGTH buf in
       Py.modify advance ;;;
       _analyze_audio_segment segment ;;;
       Py.modify record_history
     else Py.ret tt)
    (fun _ => Py.ret tt).

(** The loop condition, [self.is_running and not self._stop_event.is_set()]. *)
Definition loop_guard (s : state) : bool :=
  is_running s && negb (stop_event s).

(** The window that an iteration hands to [_analyze_audio_segment]. *)
Definition window_of (s : state) : option (list Np.npfloat) :=
  if (FRAME_LENGTH <=? length (audio_buffer s))%nat
  then Some (firstn FRAME_LENGTH (audio_buffer s))
  else None.

(** The producer delivers some blocks, one call of [audio_callback] per
    block. *)
Definition produce (blocks : list (list Np.npfloat)) (s : state) : state :=
  fold_left (fun st b => snd (audio_callback b st)) blocks s.

(** The samples that these calls hand to the buffer. *)
Definition pushed (blocks : list (list Np.npfloat)) : list Np.npfloat :=
  concat (map (Np.scale GAIN_MULTIPLIER) blocks).

(** [_audio_loop] against a producer: [schedule] lists, for each
    iteration of the loop, the blocks that [audio_callback] received
    since the iteration before.  The result is the list of windows
    analysed and the last state. *)
Fixpoint _audio_loop (schedule : list (list (list Np.npfloat))) (s : state)
    : list (list Np.npfloat) * state :=
  match schedule with
  | [] => ([], s)
  | blocks :: rest =>
      let s1 := produce blocks s in
      if loop_guard s1 then
        let s2 := snd (audio_loop_body s1) in
        let (ws, s3) := _audio_loop rest s2 in
        (match window_of s1 with Some w => w :: ws | None => ws end, s3)
      else ([], s1)
  end.

(** No push of the schedule finds the buffer too full to take the block
    whole. *)
Fixpoint no_eviction (schedule : list (list (list Np.npfloat))) (s : state)
    : bool :=
  match schedule with
  | [] => true
  | blocks :: rest =>
      (length (audio_buffer s) + length (pushed blocks) <=? BUFFER_MAXLEN)%nat
      && no_eviction rest (snd (audio_loop_body (produce blocks s)))
  end.

(** The states of a session: the producer thread and the analysis
    thread take turns, each turn one whole call. *)
Inductive reachable (nd : Notes.note_data) : state -> Prop :=
| reach_init : reachable nd (init nd)
| reach_start : forall s, reachable nd s -> reachable nd (start_analysis s)
| reach_stop : forall s, reachable nd s -> reachable nd (stop_analysis s)
| reach_callback : forall s indata,
    reachable nd s -> reachable nd (snd (audio_callback indata s))
| reach_loop : forall s,
    reachable nd s -> loop_guard s = true ->
    reachable nd (snd (audio_loop_body s)).

End Libraries.

End Clean.

(** ** instrument_analyzer_gui_backup.pyw *)

Module Backup.

Import Notes Gui.

Definition CHUNK : nat := 1024.
Definition FRAME_LENGTH : nat := CHUNK * 2.
Definition HOP_LENGTH : nat := CHUNK.
Definition GAIN_MULTIPLIER : Q := 2000.
Definition BUFFER_MAXLEN : nat := CHUNK * 10.

(** The backup falls back to an empty table (["note_mapping"], unused by
    the audio path, is left out). *)
Definition load_note_frequencies (file : Py.result Notes.note_data)
    : Notes.note_data :=
  match file with
  | Py.Ok d => d
  | Py.Raise _ => {| note_frequencies := [] |}
  end.

Section Libraries.

Variable pyin : list Np.npfloat -> Py.result pyin_out.

(** [audio_callback]: gain and buffer (the graph history of this variant
    is left out). *)
Definition audio_callback (indata : list Np.npfloat) : Py.M state unit :=
  Py.try_except
    (let chunk := Np.scale GAIN_MULTIPLIER indata in
     Py.modify (fun s =>
       set_audio_buffer (Deque.extend BUFFER_MAXLEN (audio_buffer s) chunk) s))
    (fun _ => Py.ret tt).

(** The aggregate of this variant: the mean of all valid estimates,
    replaced by the mean of the confident ones when there are any. *)
Definition aggregate (f0 voiced_probs : list Np.npfloat) (valid : list Q)
    : Py.M state Q :=
  let avg := Np.mean valid in
  if (0 <? length voiced_probs)%nat then
    let confidence_mask := Np.gt_half voiced_probs in
    confident_f0 <- Py.lift (Np.index_mask f0 confidence_mask) ;;
    if (0 <? length confident_f0)%nat then
      let confident_valid := Np.valid confident_f0 in
      if (0 <? length confident_valid)%nat
      then Py.ret (Np.mean confident_valid)
      else Py.ret avg
    else Py.ret avg
  else Py.ret avg.

(** The [try] block of [_analyze_audio_segment]. *)
Definition analyze_try (segment : list Np.npfloat) : Py.M state unit :=
  out <- Py.lift (pyin segment) ;;
  let '(f0, voiced_flag, voiced_probs) := out in
  let valid := Np.valid f0 in
  if (0 <? length valid)%nat then
    avg <- aggregate f0 voiced_probs valid ;;
    if Py.leb 75 avg && Py.leb avg 1200 then
      Py.modify (set_current_f0 avg) ;;;
      nd <- Py.gets note_data ;;
      let '(western_note, japanese_note, closest_freq) :=
        frequency_to_note avg nd in
      Py.modify (set_current_note western_note) ;;;
      Py.modify (set_current_japanese_note japanese_note) ;;;
      if Py.ltb 0 closest_freq then
        let freq_diff := Qabs (avg - closest_freq) in
        ratio <- Py.lift (Py.div freq_diff closest_freq) ;;
        let confidence := Py.max 0 (100 - (ratio * 100 * 16.7)) in
        Py.modify (set_note_confidence (Py.min 100 confidence))
      else
        Py.modify (set_note_confidence 0)
    else unvoiced
  else unvoiced.

Definition _analyze_audio_segment (segment : list Np.npfloat) : Py.M state unit :=
  Py.try_except (analyze_try segment) (fun _ => unvoiced).

(** The body of the [while] loop of [_audio_loop]. *)
Definition audio_loop_body : Py.M state unit :=
  let target_buffer_size := (CHUNK * 2)%nat in
  Py.try_except
    (buf <- Py.gets audio_buffer ;;
     if (target_buffer_size <=? length buf)%nat then
       let segment := firstn target_buffer_size buf in
       Py.modify (fun s =>
         set_audio_buffer
           (Deque.popleft_n target_buffer_size (audio_buffer s)) s) ;;;
       if (0 <? length segment)%nat
       then _analyze_audio_segment segment
       else Py.ret tt
     else Py.ret tt)
    (fun _ => Py.ret tt).

End Libraries.

End Backup.

(** ** The first version (PyAudio, no ring buffer) *)

Module Legacy.

Local Open Scope string_scope.

Record state : Type := {
  is_running : bool;
  stream_open : bool;
  current_f0 : Q;
  current_note : string;
  current_volume : Z
}.

Definition CHUNK : nat := 1024.

(** [np.iinfo(np.int16).max]. *)
Definition INT16_MAX : Q := 32767.

Section Libraries.

Variable pyin : list Np.npfloat -> Py.result Gui.pyin_out.
Variable hz_to_note : Q -> string.
Variable np_sqrt : Q -> Q.

(** [np.sqrt(np.mean(audio_data**2))]. *)
Definition rms (audio_data : list Np.npfloat) : Np.npfloat :=
  match Np.mean_arr (Np.square audio_data) with
  | Np.Num m => Np.Num (np_sqrt m)
  | Np.NaN => Np.NaN
  end.

(** [int(min(rms * 200, 100))]: the float32 product; [min] keeps a
    [nan] and a [-inf], which [int] refuses, and replaces [inf] by 100. *)
Definition volume_percent (rms : Np.npfloat) : Py.result Z :=
  match rms with
  | Np.Num r =>
      match Np.float32 (r * 200) with
      | Np.Finite p => Py.Ok (Py.int (Py.min p 100))
      | Np.Overflow true => Py.Ok 100%Z
      | Np.Overflow false => Py.Raise Py.OverflowError
      end
  | Np.NaN => Py.Raise Py.ValueError
  end.

(** The handler of the loop: reset, close the stream, stop. *)
Definition on_error (s : state) : state :=
  {| is_running := false; stream_open := false;
     current_f0 := 0; current_note := "N/A"; current_volume := 0%Z |}.

(** One pass of [_audio_loop] while [is_running]; [read] is what
    opening the stream and [self.stream.read(CHUNK)] give, 16-bit samples
    or an error. *)
Definition audio_loop_body (read : Py.result (list Z)) : Py.M state unit :=
  Py.try_except
    (Py.modify (fun s =>
       {| is_running := is_running s; stream_open := true;
          current_f0 := current_f0 s; current_note := current_note s;
          current_volume := current_volume s |}) ;;;
     in_data <- Py.lift read ;;
     let audio_data :=
       map (fun z => Np.Num (inject_Z z / INT16_MAX)) in_data in
     v <- Py.lift (volume_percent (rms audio_data)) ;;
     Py.modify (fun s =>
       {| is_running := is_running s; stream_open := stream_open s;
          current_f0 := current_f0 s; current_note := current_note s;
          current_volume := v |}) ;;;
     out <- Py.lift (pyin audio_data) ;;
     let '(f0, _, _) := out in
     let valid_f0 := Np.valid f0 in
     if (0 <? length valid_f0)%nat then
       let average_f0 := Np.mean valid_f0 in
       Py.modify (fun s =>
         {| is_running := is_running s; stream_open := stream_open s;
            current_f0 := average_f0; current_note := hz_to_note average_f0;
            current_volume := current_volume s |})
     else
       Py.modify (fun s =>
         {| is_running := is_running s; stream_open := stream_open s;
            current_f0 := 0; current_note := "N/A";
            current_volume := current_volume s |}))
    (fun _ => Py.modify on_error).

End Libraries.

End Legacy.

(** ** The spec's formulas, for comparison with the code *)

Module Spec.

(** Round to the nearest integer, halves to the even neighbour. *)
Definition round (x : Q) : Z :=
  let f := Qfloor x in
  let r := x - inject_Z f in
  if Py.ltb r (1 # 2) then f
  else if Py.ltb (1 # 2) r then (f + 1)%Z
  else if Z.even f then f else (f + 1)%Z.

(** A median of [l]: at least half of the elements are not above [m],
    and at least half are not below it. *)
Definition is_median (m : Q) (l : list Q) : Prop :=
  (length l <= 2 * length (filter (fun x => Py.leb x m) l))%nat
  /\ (length l <= 2 * length (filter (fun x => Py.leb m x) l))%nat.

(** [min(100, round(rms * SCALE))]. *)
Definition volume (SCALE rms : Q) : Z := Z.min 100 (round (rms * SCALE)).


(** The estimates that survive the voicing filter: the numbers of [f0]
    whose voicing probability is a number greater than 1/2. *)
Fixpoint surviving (f0 voiced_probs : list Np.npfloat) : list Q :=
  match f0, voiced_probs with
  | Np.Num x :: f0', Np.Num p :: probs' =>
      if Qlt_le_dec (1 # 2) p then x :: surviving f0' probs'
      else surviving f0' probs'
  | _ :: f0', _ :: probs' => surviving f0' probs'
  | _, _ => []
  end.

(** [max(0, 100 - (|f0 - closest_freq| / closest_freq) * 100 * K)],
    clamped to [0, 100]. *)
Definition confidence (K f0 closest_freq : Q) : Q :=
  Qmin 100 (Qmax 0 (100 - (Qabs (f0 - closest_freq) / closest_freq) * 100 * K)).

End Spec.

(** ** What a clean session keeps true *)

Module Inv.

Import Notes Gui.

(** The four pitch fields agree: nothing is published, or an in-band
    frequency with the answer of [frequency_to_note] for it and a
    confidence that is a percentage. *)
Definition published_ok (s : state) : Prop :=
  (current_f0 s = 0 /\ current_note s = NA
   /\ current_japanese_note s = NA /\ note_confidence s = 0)
  \/ (in_band (current_f0 s) = true
      /\ (exists c,
            frequency_to_note (current_f0 s) (note_data s)
            = (current_note s, current_japanese_note s, c))
      /\ 0 <= note_confidence s <= 100).

(** A point of the frequency history: a gap, or an in-band frequency. *)
Definition frequency_point_ok (p : Np.npfloat) : Prop :=
  match p with
  | Np.NaN => True
  | Np.Num f => in_band f = true
  end.

(** The two histories of the graph run in step and stay bounded. *)
Definition history_ok (s : state) : Prop :=
  length (volume_data s) = length (frequency_data s)
  /\ (length (volume_data s) <= Clean.GRAPH_MAXLEN)%nat
  /\ Forall frequency_point_ok (frequency_data s).

(** The volume and its history are percentages. *)
Definition volume_ok (s : state) : Prop :=
  (0 <= current_volume s <= 100)%Z
  /\ Forall (fun v => (0 <= v <= 100)%Z) (volume_data s).

End Inv.

(** ** _update_gui_elements *)

Module View.

Local Open Scope string_scope.

(** The colour of the confidence label. *)
Definition confidence_color (note_confidence : Q) : string :=
  if Py.ltb 70 note_confidence then "green"
  else if Py.ltb 40 note_confidence then "orange"
  else "red".

(** The width of the volume bar,
    [winfo_width() * (self.current_volume / 100.0)]. *)
Definition bar_width (winfo_width : Z) (current_volume : Z) : Q :=
  (inject_Z winfo_width * (inject_Z current_volume / 100))%Q.

End View.

(** ** Draining a backlog *)

Module Drain.

(** The windows that fit into [n] buffered samples when each window
    advances by [HOP_LENGTH]. *)
Definition windows_left (n : nat) : nat :=
  if (n <? Clean.FRAME_LENGTH)%nat then 0%nat
  else ((n - Clean.FRAME_LENGTH) / Clean.HOP_LENGTH + 1)%nat.

End Drain.

(** ** Python strings and dicts *)

Module Text.

Local Open Scope string_scope.

(** [str(n)] for an index. *)
Definition str (n : nat) : string := NilEmpty.string_of_uint (Nat.to_uint n).

(** [c in s] for one character. *)
Fixpoint occurs (c : ascii) (s : string) : bool :=
  match s with
  | EmptyString => false
  | String a t => if Ascii.eqb a c then true else occurs c t
  end.

(** [kw in s]: [kw] is a substring of [s]. *)
Fixpoint contains (kw s : string) : bool :=
  if String.prefix kw s then true
  else match s with
       | EmptyString => false
       | String _ t => contains kw t
       end.

(** [any(kw in s for kw in kws)]. *)
Definition any_in (kws : list string) (s : string) : bool :=
  existsb (fun kw => contains kw s) kws.

End Text.

Module Dict.

(** A [dict] with string keys: its items in insertion order. *)
Definition dict (V : Type) : Type := list (string * V).

(** [d.get(k)]. *)
Fixpoint get {V} (d : dict V) (k : string) : option V :=
  match d with
  | [] => None
  | (k', v) :: t => if String.eqb k' k then Some v else get t k
  end.

(** [d[k] = v]: a known key keeps its place. *)
Fixpoint set {V} (d : dict V) (k : string) (v : V) : dict V :=
  match d with
  | [] => [(k, v)]
  | (k', v') :: t =>
      if String.eqb k' k then (k', v) :: t else (k', v') :: set t k v
  end.

(** [del d[k]] for a key that is there. *)
Definition del {V} (d : dict V) (k : string) : dict V :=
  filter (fun kv => negb (String.eqb (fst kv) k)) d.

End Dict.

(** ** Device selection (clean variant) *)

Module Devices.

Local Open Scope string_scope.

(** An entry of [sd.query_devices()]. *)
Record device_info : Type := {
  name : string;
  max_input_channels : Z
}.

(** ["device_settings"] of [device_config.json]. *)
Record device_config : Type := {
  last_used_device_index : option nat;
  last_used_device_name : string;
  auto_select_last_device : bool
}.

(** The file: [None] when it is missing or does not parse. *)
Definition config_file : Type := option device_config.

Definition load_device_config (file : config_file) : device_config :=
  match file with
  | Some c => c
  | None =>
      {| last_used_device_index := None;
         last_used_device_name := "";
         auto_select_last_device := true |}
  end.

(** How writing the file went: written, not opened, or opened (and so
    emptied) but not written to the end. *)
Inductive write_outcome : Type :=
| Written
| OpenFailed
| DumpFailed.

Definition save_device_config (io : write_outcome) (config : device_config)
    (file : config_file) : config_file :=
  match io with
  | Written => Some config
  | OpenFailed => file
  | DumpFailed => None
  end.

(** The device fields of [InstrumentAnalyzerGUI]. *)
Record state : Type := {
  device_index : option nat;
  device_map : Dict.dict nat;
  combobox_values : list string;
  device_var : string;
  connection_label : string * string;     (* text, foreground *)
  device_config_of : device_config
}.

(** [f"{device_name} (Index: {idx})"]. *)
Definition display_name (device_name : string) (idx : nat) : string :=
  device_name ++ " (Index: " ++ Text.str idx ++ ")".

(** [enumerate(devices_info)]. *)
Definition enumerate {A} (l : list A) : list (nat * A) :=
  combine (seq 0 (length l)) l.

(** One turn of the scan of [_populate_devices]. *)
Definition scan_step (acc : list string * Dict.dict nat)
    (item : nat * device_info) : list string * Dict.dict nat :=
  let '(devices, device_map) := acc in
  let '(idx, dev) := item in
  if (0 <? max_input_channels dev)%Z then
    let display_name := display_name (name dev) idx in
    ((devices ++ [display_name])%list, Dict.set device_map display_name idx)
  else acc.

(** The scan: the display names, in order, and the map from display
    name to index. *)
Definition scan (devices_info : list device_info)
    : list string * Dict.dict nat :=
  fold_left scan_step (enumerate devices_info) ([], []).

(** The search for the device used last:
    [for display_name, idx in device_map.items(): if idx == last: ...]. *)
Definition find_last (device_map : Dict.dict nat) (last : nat)
    : option string :=
  option_map fst (find (fun item => Nat.eqb (snd item) last) device_map).

(** [_populate_devices]; [query] is what [sd.query_devices()] gives. *)
Definition _populate_devices (query : Py.result (list device_info))
    (s : state) : state :=
  match query with
  | Py.Raise _ =>
      {| device_index := device_index s; device_map := device_map s;
         combobox_values := combobox_values s; device_var := device_var s;
         connection_label := ("Device scan failed", "red");
         device_config_of := device_config_of s |}
  | Py.Ok devices_info =>
      let '(devices, device_map) := scan devices_info in
      match devices with
      | [] =>
          {| device_index := device_index s; device_map := device_map;
             combobox_values := devices; device_var := device_var s;
             connection_label := ("No input devices found", "red");
             device_config_of := device_config_of s |}
      | first :: _ =>
          let last_device_idx :=
            last_used_device_index (device_config_of s) in
          let selected_device :=
            match last_device_idx with
            | Some last =>
                match find_last device_map last with
                | Some display_name => display_name
                | None => first
                end
            | None => first
            end in
          match Dict.get device_map selected_device with
          | Some idx =>
              {| device_index := Some idx; device_map := device_map;
                 combobox_values := devices; device_var := selected_device;
                 connection_label := connection_label s;
                 device_config_of := device_config_of s |}
          | None =>     (* KeyError, caught by the handler *)
              {| device_index := device_index s; device_map := device_map;
                 combobox_values := devices; device_var := selected_device;
                 connection_label := ("Device scan failed", "red");
                 device_config_of := device_config_of s |}
          end
      end
  end.

(** [_on_device_selected] after the combobox has set [device_var]. *)
Definition _on_device_selected (io : write_outcome)
    (s : state) (file : config_file) : state * config_file :=
  let device_name := device_var s in
  match Dict.get (device_map s) device_name with
  | Some idx =>
      let config :=
        {| last_used_device_index := Some idx;
           last_used_device_name := device_name;
           auto_select_last_device :=
             auto_select_last_device (device_config_of s) |} in
      ({| device_index := Some idx; device_map := device_map s;
          combobox_values := combobox_values s; device_var := device_var s;
          connection_label := ("Ready", "blue");
          device_config_of := config |},
       save_device_config io config file)
  | None =>
      ({| device_index := None; device_map := device_map s;
          combobox_values := combobox_values s; device_var := device_var s;
          connection_label := ("Invalid device", "red");
          device_config_of := device_config_of s |},
       file)
  end.

(** The user picks an entry of the combobox. *)
Definition choose (entry : string) (s : state) : state :=
  {| device_index := device_index s; device_map := device_map s;
     combobox_values := combobox_values s; device_var := entry;
     connection_label := connection_label s;
     device_config_of := device_config_of s |}.

(** The part of [_on_closing] that saves the configuration. *)
Definition _on_closing (io : write_outcome) (s : state) (file : config_file)
    : state * config_file :=
  match device_index s with
  | Some idx =>
      let config :=
        {| last_used_device_index := Some idx;
           last_used_device_name :=
             last_used_device_name (device_config_of s);
           auto_select_last_device :=
             auto_select_last_device (device_config_of s) |} in
      ({| device_index := device_index s; device_map := device_map s;
          combobox_values := combobox_values s; device_var := device_var s;
          connection_label := connection_label s;
          device_config_of := config |},
       save_device_config io config file)
  | None => (s, file)
  end.

(** [__init__] up to [_populate_devices]: the device of the caller, if
    any, an empty combobox, the configuration read from the file
    ([device_map], which does not exist before the first scan, is
    empty). *)
Definition init (device_index : option nat) (file : config_file) : state :=
  {| device_index := device_index; device_map := [];
     combobox_values := []; device_var := "";
     connection_label := ("Ready", "blue");
     device_config_of := load_device_config file |}.

(** The device states of a run started as [__main__] starts it: the
    scan of [__init__] with no device given, then picks in the
    combobox, which offers its entries only. *)
Inductive session (query : Py.result (list device_info))
    (file : config_file) : state -> Prop :=
| session_scan :
    session query file (_populate_devices query (init None file))
| session_pick : forall s entry io f,
    session query file s -> In entry (combobox_values s) ->
    session query file (fst (_on_device_selected io (choose entry s) f)).

End Devices.

(** What the device list is compared with: the input devices of a query
    with their indices, and the combobox entry of each. *)
Module Listing.

Import Devices.

Definition is_input (item : nat * device_info) : bool :=
  (0 <? max_input_channels (snd item))%Z.

Definition inputs (devices_info : list device_info)
    : list (nat * device_info) :=
  filter is_input (enumerate devices_info).

Definition entries (items : list (nat * device_info)) : Dict.dict nat :=
  map (fun item => (display_name (name (snd item)) (fst item), fst item))
      items.

End Listing.

(** * Properties *)

(** ** Comparisons *)

Lemma ltb_lt (x y : Q) : Py.ltb x y = true <-> x < y.
Proof. unfold Py.ltb, Qlt. apply Z.ltb_lt. Qed.

Lemma ltb_ge (x y : Q) : Py.ltb x y = false <-> y <= x.
Proof. unfold Py.ltb, Qle. apply Z.ltb_ge. Qed.

Lemma leb_le (x y : Q) : Py.leb x y = true <-> x <= y.
Proof. apply Qle_bool_iff. Qed.

Lemma leb_gt (x y : Q) : Py.leb x y = false <-> y < x.
Proof.
  unfold Py.leb. split; intro H.
  - apply Qnot_le_lt. intro Hle. apply Qle_bool_iff in Hle. congruence.
  - destruct (Qle_bool x y) eqn:E; [|reflexivity].
    apply Qle_bool_iff in E. exfalso. apply (Qlt_not_le _ _ H E).
Qed.

Lemma py_max_Qmax (a b : Q) : Py.max a b == Qmax a b.
Proof.
  unfold Py.max. destruct (Py.ltb a b) eqn:E.
  - apply ltb_lt in E. symmetry. apply Q.max_r. apply Qlt_le_weak, E.
  - apply ltb_ge in E. symmetry. apply Q.max_l, E.
Qed.

Lemma py_min_Qmin (a b : Q) : Py.min a b == Qmin a b.
Proof.
  unfold Py.min. destruct (Py.ltb b a) eqn:E.
  - apply ltb_lt in E. symmetry. apply Q.min_r. apply Qlt_le_weak, E.
  - apply ltb_ge in E. symmetry. apply Q.min_l, E.
Qed.

(** Under the guard [0 < b] the division does not raise. *)
Lemma div_guarded (a b : Q) : Py.ltb 0 b = true -> Py.div a b = Py.Ok (a / b).
Proof.
  intro H. apply ltb_lt in H. unfold Py.div.
  destruct (Qeq_bool b 0) eqn:E; [|reflexivity].
  apply Qeq_bool_eq in E. rewrite E in H. discriminate H.
Qed.

(** [int] is the floor on non-negative numbers. *)
Lemma py_int_floor (x : Q) : 0 <= x -> Py.int x = Qfloor x.
Proof.
  destruct x as [n d]. unfold Py.int, Qfloor, Qle. simpl. intro H.
  apply Z.quot_div_nonneg; lia.
Qed.

(** ** The bounded deque *)

Section DequeFacts.

Context {A : Type}.
Variable maxlen : nat.

Lemma popleft_n_skipn (n : nat) (d : list A) :
  Deque.popleft_n n d = skipn n d.
Proof.
  revert d. induction n as [|n IH]; intro d; simpl.
  - reflexivity.
  - rewrite IH. destruct d; simpl; [apply skipn_nil | reflexivity].
Qed.

Lemma lastn_all (n : nat) (l : list A) :
  (length l <= n)%nat -> Deque.lastn n l = l.
Proof.
  intro H. unfold Deque.lastn.
  replace (length l - n)%nat with 0%nat by lia. reflexivity.
Qed.

Lemma lastn_length (n : nat) (l : list A) :
  length (Deque.lastn n l) = Nat.min n (length l).
Proof. unfold Deque.lastn. rewrite length_skipn. lia. Qed.

Lemma lastn_snoc_full (l : list A) (x : A) :
  length l = maxlen -> Deque.lastn maxlen (l ++ [x]) = tl (l ++ [x]).
Proof.
  intro H. unfold Deque.lastn. rewrite length_app. simpl.
  replace (length l + 1 - maxlen)%nat with 1%nat by lia.
  destruct (l ++ [x]); reflexivity.
Qed.

(** One [append] keeps the newest [maxlen] elements. *)
Lemma append_lastn (d : list A) (x : A) :
  (length d <= maxlen)%nat ->
  Deque.append maxlen d x = Deque.lastn maxlen (d ++ [x]).
Proof.
  intro H. unfold Deque.append. cbv zeta.
  destruct (Nat.ltb_spec maxlen (length (d ++ [x]))) as [Hlt|Hge].
  - rewrite length_app in Hlt. simpl in Hlt.
    symmetry. apply lastn_snoc_full. lia.
  - symmetry. apply lastn_all. exact Hge.
Qed.

Lemma lastn_lastn_app (l xs : list A) :
  Deque.lastn maxlen (Deque.lastn maxlen l ++ xs)
  = Deque.lastn maxlen (l ++ xs).
Proof.
  unfold Deque.lastn.
  rewrite !length_app, length_skipn.
  rewrite !skipn_app, length_skipn, skipn_skipn.
  f_equal.
  - f_equal. lia.
  - f_equal. lia.
Qed.

(** [extend] keeps the newest [maxlen] elements, in their order. *)
Lemma extend_lastn (xs d : list A) :
  (length d <= maxlen)%nat ->
  Deque.extend maxlen d xs = Deque.lastn maxlen (d ++ xs).
Proof.
  revert d. induction xs as [|x xs IH]; intros d H.
  - simpl. rewrite app_nil_r. symmetry. apply lastn_all, H.
  - unfold Deque.extend in *. simpl.
    rewrite IH.
    + rewrite append_lastn by exact H.
      rewrite lastn_lastn_app, <- app_assoc. reflexivity.
    + rewrite append_lastn by exact H. rewrite lastn_length. lia.
Qed.

Lemma extend_length (xs d : list A) :
  (length d <= maxlen)%nat ->
  (length (Deque.extend maxlen d xs) <= maxlen)%nat.
Proof.
  intro H. rewrite extend_lastn by exact H. rewrite lastn_length. lia.
Qed.

End DequeFacts.

(** ** Per-window analysis (clean variant) *)

Section CleanAnalysis.

Import Notes Gui.

Variable pyin : list Np.npfloat -> Py.result pyin_out.

Ltac run :=
  unfold Clean._analyze_audio_segment, Clean.analyze_try, Py.try_except,
    Py.bind, Py.lift, Py.modify, Py.gets, Py.ret; simpl.

(** The analysis always returns, and touches the pitch fields only. *)
Lemma analyze_frame (segment : list Np.npfloat) (s : state) :
  exists f n j c,
    Clean._analyze_audio_segment pyin segment s
    = (Py.Ok tt, with_pitch f n j c s).
Proof.
  run. destruct (pyin segment) as [[[f0 fl] probs]|e]; simpl.
  2:{ do 4 eexists. reflexivity. }
  destruct (0 <? length (Np.valid f0))%nat; simpl.
  2:{ do 4 eexists. reflexivity. }
  destruct (Np.index_mask f0 (Np.gt_half probs)) as [cf|e]; simpl.
  2:{ do 4 eexists. reflexivity. }
  destruct (0 <? length (Np.valid cf))%nat; simpl.
  2:{ do 4 eexists. reflexivity. }
  destruct (Py.leb 75 (Np.median (Np.valid cf)) && Py.leb (Np.median (Np.valid cf)) 1200); simpl.
  2:{ do 4 eexists. reflexivity. }
  destruct (frequency_to_note (Np.median (Np.valid cf)) (note_data s)) as [[w j] c]; simpl.
  destruct (Py.ltb 0 c) eqn:Ec; simpl.
  - rewrite (div_guarded _ c Ec). do 4 eexists. reflexivity.
  - do 4 eexists. reflexivity.
Qed.

(** A library error ends in the [except] clause. *)
Lemma analyze_raise (segment : list Np.npfloat) (s : state) (e : Py.exn) :
  pyin segment = Py.Raise e ->
  Clean._analyze_audio_segment pyin segment s
  = (Py.Ok tt, with_pitch 0 NA NA 0 s).
Proof. intro H. run. rewrite H. reflexivity. Qed.

Lemma valid_select_nonempty (f0 : list Np.npfloat) (mask : list bool) :
  Np.valid (Np.select f0 mask) <> [] -> Np.valid f0 <> [].
Proof.
  revert mask. induction f0 as [|x f0 IH]; intros mask H.
  - destruct mask; exact H.
  - destruct mask as [|b mask]; [exfalso; apply H; reflexivity|].
    destruct x as [q|]; simpl; [discriminate|].
    simpl in H. destruct b; simpl in H; apply (IH mask), H.
Qed.

Lemma length_pos_nonempty {A} (l : list A) :
  (0 <? length l)%nat = true <-> l <> [].
Proof.
  destruct l; unfold Nat.ltb; simpl; split; intro H; congruence.
Qed.

(** No survivor, or a survivor median outside the band: unvoiced. *)
Lemma analyze_unvoiced (segment : list Np.npfloat) (s : state)
    (f0 : list Np.npfloat) (fl : list bool) (probs : list Np.npfloat) :
  pyin segment = Py.Ok (f0, fl, probs) ->
  survivors f0 probs = [] \/ in_band (Np.median (survivors f0 probs)) = false ->
  Clean._analyze_audio_segment pyin segment s
  = (Py.Ok tt, with_pitch 0 NA NA 0 s).
Proof.
  intros Hp Hs. run. rewrite Hp. simpl.
  destruct (0 <? length (Np.valid f0))%nat; simpl; [|reflexivity].
  unfold Np.index_mask.
  destruct (Nat.eqb (length f0) (length (Np.gt_half probs))); simpl;
    [|reflexivity].
  fold (survivors f0 probs).
  destruct (0 <? length (survivors f0 probs))%nat eqn:El; simpl;
    [|reflexivity].
  destruct Hs as [Hs|Hs].
  - rewrite Hs in El. discriminate.
  - unfold in_band in Hs. rewrite Hs. reflexivity.
Qed.

(** Probabilities of another length than the estimates: the boolean
    index raises, unvoiced. *)
Lemma analyze_mismatch (segment : list Np.npfloat) (s : state)
    (f0 : list Np.npfloat) (fl : list bool) (probs : list Np.npfloat) :
  pyin segment = Py.Ok (f0, fl, probs) ->
  length f0 <> length probs ->
  Clean._analyze_audio_segment pyin segment s
  = (Py.Ok tt, with_pitch 0 NA NA 0 s).
Proof.
  intros Hp Hlen. run. rewrite Hp. simpl.
  destruct (0 <? length (Np.valid f0))%nat; simpl; [|reflexivity].
  unfold Np.index_mask, Np.gt_half. rewrite length_map.
  apply Nat.eqb_neq in Hlen. rewrite Hlen. reflexivity.
Qed.

(** The mask of the source keeps the estimates of the spec: the numbers
    whose probability is a number above 1/2. *)
Lemma survivors_surviving (f0 probs : list Np.npfloat) :
  length f0 = length probs ->
  survivors f0 probs = Spec.surviving f0 probs.
Proof.
  unfold survivors. revert probs.
  induction f0 as [|x f0 IH]; intros [|p probs] Hlen;
    try discriminate Hlen; [reflexivity|].
  injection Hlen as Hlen. specialize (IH probs Hlen).
  destruct p as [q|]; destruct x as [v|]; cbn [Np.gt_half map Np.select
    Spec.surviving]; fold (Np.gt_half probs).
  - destruct (Qlt_le_dec (1 # 2) q) as [H|H].
    + apply ltb_lt in H. rewrite H. cbn [Np.valid]. rewrite IH. reflexivity.
    + apply ltb_ge in H. rewrite H. exact IH.
  - destruct (Py.ltb (1 # 2) q); cbn [Np.valid]; exact IH.
  - exact IH.
  - exact IH.
Qed.

(** No estimate with a probability above 1/2: nothing survives. *)
Lemma surviving_none (f0 probs : list Np.npfloat) :
  (forall i x p, nth_error f0 i = Some (Np.Num x) ->
                 nth_error probs i = Some (Np.Num p) -> p <= 1 # 2) ->
  Spec.surviving f0 probs = [].
Proof.
  revert probs. induction f0 as [|x f0 IH]; intros [|p probs] H;
    try reflexivity.
  - destruct x; reflexivity.
  - assert (IH' : Spec.surviving f0 probs = []).
    { apply IH. intros i v q Hx Hq. exact (H (S i) v q Hx Hq). }
    destruct x as [v|]; destruct p as [q|]; cbn [Spec.surviving];
      try exact IH'.
    destruct (Qlt_le_dec (1 # 2) q) as [Hq|Hq]; [|exact IH'].
    exfalso. apply (Qlt_not_le _ _ Hq). exact (H 0%nat v q eq_refl eq_refl).
Qed.

(** Survivors with a median inside the band: the median is published,
    with the nearest note and its confidence. *)
Lemma analyze_voiced (segment : list Np.npfloat) (s : state)
    (f0 : list Np.npfloat) (fl : list bool) (probs : list Np.npfloat) :
  pyin segment = Py.Ok (f0, fl, probs) ->
  length f0 = length probs ->
  survivors f0 probs <> [] ->
  in_band (Np.median (survivors f0 probs)) = true ->
  let d := Np.median (survivors f0 probs) in
  let '(w, j, c) := frequency_to_note d (note_data s) in
  Clean._analyze_audio_segment pyin segment s
  = (Py.Ok tt,
     with_pitch d w j
       (if Py.ltb 0 c
        then Py.min 100 (Py.max 0 (100 - (Qabs (d - c) / c * 100 * 10)))
        else 0) s).
Proof.
  intros Hp Hlen Hs Hb. cbv zeta.
  destruct (frequency_to_note _ _) as [[w j] c] eqn:Ef.
  run. rewrite Hp. simpl.
  assert (Hv : (0 <? length (Np.valid f0))%nat = true).
  { apply length_pos_nonempty. eapply valid_select_nonempty. exact Hs. }
  rewrite Hv. simpl.
  unfold Np.index_mask. unfold Np.gt_half at 1. rewrite length_map, Hlen, Nat.eqb_refl.
  simpl. fold (survivors f0 probs).
  apply length_pos_nonempty in Hs. rewrite Hs. simpl.
  unfold in_band in Hb. rewrite Hb. simpl.
  rewrite Ef. simpl.
  destruct (Py.ltb 0 c) eqn:Ec; simpl.
  - rewrite (div_guarded _ c Ec). reflexivity.
  - reflexivity.
Qed.

End CleanAnalysis.

(** ** The nearest note *)

Section NearestNote.

Import Notes.

Variable f : Q.

Lemma scan_snoc (l : note_table) (x : string * note_info)
    (acc : Py.pyinf * (string * string * Q)) :
  fold_left (scan f) (l ++ [x]) acc = scan f (fold_left (scan f) l acc) x.
Proof. rewrite fold_left_app. reflexivity. Qed.

Lemma scan_first (t : string * string * Q) (key : string) (x : note_info) :
  scan f (Py.Inf, t) (key, x) = (Py.Fin (dist f x), answer x).
Proof. reflexivity. Qed.

Lemma scan_next (m : Q) (t : string * string * Q) (key : string)
    (x : note_info) :
  scan f (Py.Fin m, t) (key, x)
  = if Py.ltb (dist f x) m then (Py.Fin (dist f x), answer x)
    else (Py.Fin m, t).
Proof. reflexivity. Qed.

(** The loop invariant: after the entries [l] the accumulator holds the
    first nearest entry of [l], or the start values when [l] is empty. *)
Lemma scan_invariant (l : note_table) :
  match fold_left (scan f) l (Py.Inf, (NA, NA, 0)) with
  | (Py.Inf, t) => l = [] /\ t = (NA, NA, 0)
  | (Py.Fin m, t) =>
      exists i e, first_nearest f l i e /\ m = dist f e /\ t = answer e
  end.
Proof.
  induction l as [|[key x] l IH] using rev_ind.
  - simpl. split; reflexivity.
  - rewrite scan_snoc.
    destruct (fold_left (scan f) l (Py.Inf, (NA, NA, 0))) as [[|m] t].
    + destruct IH as [-> ->]. rewrite scan_first.
      exists 0%nat, x. split; [|split; reflexivity].
      split; [exists key; reflexivity|]. split.
      * intros k' e' Hin. simpl in Hin. destruct Hin as [H|[]].
        inversion H. apply Qle_refl.
      * intros j k' e' Hj. inversion Hj.
    + destruct IH as (i & e & (Hi & Hmin & Hfirst) & -> & ->).
      destruct Hi as [ki Hi].
      assert (Hil : (i < length l)%nat).
      { apply nth_error_Some. rewrite Hi. discriminate. }
      rewrite scan_next.
      destruct (Py.ltb (dist f x) (dist f e)) eqn:E.
      * apply ltb_lt in E.
        exists (length l), x. split; [|split; reflexivity].
        split; [|split].
        -- exists key. rewrite nth_error_app2 by lia.
           rewrite Nat.sub_diag. reflexivity.
        -- intros k' e' Hin. apply in_app_or in Hin.
           destruct Hin as [Hin|[Hin|[]]].
           ++ apply Qlt_le_weak. eapply Qlt_le_trans; [exact E|].
              eapply Hmin, Hin.
           ++ inversion Hin. apply Qle_refl.
        -- intros j k' e' Hj Hn. rewrite nth_error_app1 in Hn by exact Hj.
           eapply Qlt_le_trans; [exact E|].
           eapply Hmin. eapply nth_error_In, Hn.
      * apply ltb_ge in E.
        exists i, e. split; [|split; reflexivity].
        split; [|split].
        -- exists ki. rewrite nth_error_app1 by exact Hil. exact Hi.
        -- intros k' e' Hin. apply in_app_or in Hin.
           destruct Hin as [Hin|[Hin|[]]].
           ++ eapply Hmin, Hin.
           ++ inversion Hin. subst. exact E.
        -- intros j k' e' Hj Hn.
           rewrite nth_error_app1 in Hn by lia.
           eapply Hfirst; eassumption.
Qed.

(** The first nearest entry is unique. *)
Lemma first_nearest_unique (t : note_table) (i i' : nat) (e e' : note_info) :
  first_nearest f t i e -> first_nearest f t i' e' -> i = i' /\ e = e'.
Proof.
  intros ([k Hi] & Hmin & Hfirst) ([k' Hi'] & Hmin' & Hfirst').
  assert (Heq : i = i').
  { destruct (Nat.lt_trichotomy i i') as [Hlt|[Heq|Hgt]].
    - exfalso. specialize (Hfirst' _ _ _ Hlt Hi).
      specialize (Hmin _ _ (nth_error_In _ _ Hi')).
      apply (Qlt_not_le _ _ Hfirst' Hmin).
    - exact Heq.
    - exfalso. specialize (Hfirst _ _ _ Hgt Hi').
      specialize (Hmin' _ _ (nth_error_In _ _ Hi)).
      apply (Qlt_not_le _ _ Hfirst Hmin'). }
  split; [exact Heq|]. subst i'. congruence.
Qed.

End NearestNote.

(** C6.  For a frequency [f > 0] and a non-empty table,
    [frequency_to_note] returns the western name, the Japanese name and
    the frequency of the table entry at the least distance
    [|table_freq - f|]; among entries at that least distance it is the
    first in the iteration order of the table, every earlier entry being
    strictly farther; this entry is the only one with the two
    properties, so the answer is fixed by the order of the table. *)
Theorem frequency_to_note_first_nearest (f : Q) (nd : Notes.note_data) :
  0 < f ->
  Notes.note_frequencies nd <> [] ->
  exists i e,
    Notes.first_nearest f (Notes.note_frequencies nd) i e
    /\ Notes.frequency_to_note f nd = Notes.answer e
    /\ (forall i' e', Notes.first_nearest f (Notes.note_frequencies nd) i' e' ->
          i' = i /\ e' = e).
Proof.
  intros Hf Hne. unfold Notes.frequency_to_note.
  assert (E : Py.leb f 0 = false) by (apply leb_gt; exact Hf).
  rewrite E.
  pose proof (scan_invariant f (Notes.note_frequencies nd)) as Inv.
  destruct (fold_left _ _ _) as [[|m] t].
  - destruct Inv as [Hnil _]. contradiction.
  - destruct Inv as (i & e & Hfn & _ & ->).
    exists i, e. split; [exact Hfn|]. split; [reflexivity|].
    intros i' e' H'. eapply first_nearest_unique; eassumption.
Qed.

(** The fallback table at 440 Hz: a witness for C6. *)
Lemma frequency_to_note_first_nearest_witness :
  exists i e,
    Notes.first_nearest 440 Notes.default_table i e
    /\ Notes.frequency_to_note 440 {| Notes.note_frequencies := Notes.default_table |}
       = Notes.answer e
    /\ (forall i' e', Notes.first_nearest 440 Notes.default_table i' e' ->
          i' = i /\ e' = e).
Proof.
  apply (frequency_to_note_first_nearest 440
           {| Notes.note_frequencies := Notes.default_table |}).
  - reflexivity.
  - discriminate.
Defined.

(** ** The note confidence *)

Section Confidence.

Variable K : Q.
Hypothesis K_pos : 0 < K.

(** The deviation term [d / c * 100 * K] grows with [d]. *)
Lemma penalty_le (c d1 d2 : Q) :
  0 < c -> d1 <= d2 -> d1 / c * 100 * K <= d2 / c * 100 * K.
Proof.
  intros Hc Hd.
  apply Qmult_le_compat_r; [|apply Qlt_le_weak, K_pos].
  apply Qmult_le_compat_r; [|discriminate].
  apply Qmult_le_compat_r; [exact Hd|].
  apply Qlt_le_weak, Qinv_lt_0_compat, Hc.
Qed.

Lemma penalty_lt (c d1 d2 : Q) :
  0 < c -> d1 < d2 -> d1 / c * 100 * K < d2 / c * 100 * K.
Proof.
  intros Hc Hd.
  apply Qmult_lt_compat_r; [exact K_pos|].
  apply Qmult_lt_compat_r; [reflexivity|].
  apply Qmult_lt_compat_r; [|exact Hd].
  apply Qinv_lt_0_compat, Hc.
Qed.

Lemma penalty_zero (c d : Q) : d == 0 -> d / c * 100 * K == 0.
Proof. intro H. rewrite H. unfold Qdiv. rewrite !Qmult_0_l. reflexivity. Qed.

Lemma spec_confidence_bounds (f0 c : Q) :
  0 <= Spec.confidence K f0 c <= 100.
Proof.
  unfold Spec.confidence. split.
  - apply Q.min_glb; [discriminate|apply Q.le_max_l].
  - apply Q.le_min_l.
Qed.

Lemma spec_confidence_exact (f0 c : Q) :
  f0 == c -> Spec.confidence K f0 c == 100.
Proof.
  intro H. unfold Spec.confidence.
  assert (E : Qabs (f0 - c) / c * 100 * K == 0).
  { apply penalty_zero. rewrite H.
    setoid_replace (c - c) with 0 by ring. reflexivity. }
  set (p := Qabs (f0 - c) / c * 100 * K) in *.
  destruct (Q.max_spec 0 (100 - p)) as [[H1 E1]|[H1 E1]]; rewrite E1.
  - destruct (Q.min_spec 100 (100 - p)) as [[H2 E2]|[H2 E2]];
      rewrite E2; lra.
  - lra.
Qed.

(** The farther from the table frequency, the lower the confidence. *)
Lemma spec_confidence_monotone (c f1 f2 : Q) :
  0 < c -> Qabs (f1 - c) <= Qabs (f2 - c) ->
  Spec.confidence K f2 c <= Spec.confidence K f1 c.
Proof.
  intros Hc Hd. unfold Spec.confidence.
  pose proof (penalty_le c _ _ Hc Hd) as Hp.
  apply Q.min_le_compat_l. apply Q.max_le_compat_l.
  lra.
Qed.

(** Strictly lower, as long as the nearer one is not yet clamped at 0. *)
Lemma spec_confidence_strict (c f1 f2 : Q) :
  0 < c -> Qabs (f1 - c) < Qabs (f2 - c) ->
  0 < Spec.confidence K f1 c ->
  Spec.confidence K f2 c < Spec.confidence K f1 c.
Proof.
  intros Hc Hd. unfold Spec.confidence.
  pose proof (penalty_lt c _ _ Hc Hd) as Hp.
  pose proof (Qabs_nonneg (f1 - c)) as Hn.
  pose proof (penalty_le c 0 _ Hc Hn) as Hn'.
  rewrite (penalty_zero c 0) in Hn' by reflexivity.
  set (p1 := Qabs (f1 - c) / c * 100 * K) in *.
  set (p2 := Qabs (f2 - c) / c * 100 * K) in *.
  intro Hpos.
  destruct (Q.max_spec 0 (100 - p1)) as [[H1 E1]|[H1 E1]];
    destruct (Q.max_spec 0 (100 - p2)) as [[H2 E2]|[H2 E2]];
    rewrite E1, E2 in *.
  - destruct (Q.min_spec 100 (100 - p1)) as [[H3 E3]|[H3 E3]];
      destruct (Q.min_spec 100 (100 - p2)) as [[H4 E4]|[H4 E4]];
      rewrite E3, E4 in *; lra.
  - destruct (Q.min_spec 100 (100 - p1)) as [[H3 E3]|[H3 E3]];
      destruct (Q.min_spec 100 0) as [[H4 E4]|[H4 E4]];
      rewrite E3, E4 in *; lra.
  - destruct (Q.min_spec 100 0) as [[H3 E3]|[H3 E3]];
      rewrite E3 in *; lra.
  - destruct (Q.min_spec 100 0) as [[H3 E3]|[H3 E3]];
      rewrite E3 in *; lra.
Qed.

(** The expression of the source is the formula of the spec. *)
Lemma code_confidence_spec (f0 c : Q) :
  Py.min 100 (Py.max 0 (100 - (Qabs (f0 - c) / c * 100 * K)))
  == Spec.confidence K f0 c.
Proof.
  unfold Spec.confidence.
  rewrite py_min_Qmin. rewrite py_max_Qmax. reflexivity.
Qed.

End Confidence.

(** ** The analysis loop (clean variant) *)

Section CleanLoop.

Import Notes Gui.

Variable pyin : list Np.npfloat -> Py.result pyin_out.

Lemma advance_buffer (s : state) :
  (Clean.CHUNK <= length (audio_buffer s))%nat ->
  audio_buffer (Clean.advance s) = skipn Clean.HOP_LENGTH (audio_buffer s).
Proof.
  intro H. unfold Clean.advance, Clean.HOP_LENGTH. simpl.
  rewrite popleft_n_skipn. rewrite Nat.min_r by exact H. reflexivity.
Qed.

(** An iteration without enough samples does nothing. *)
Lemma loop_body_idle (s : state) :
  (length (audio_buffer s) < Clean.FRAME_LENGTH)%nat ->
  Clean.audio_loop_body pyin s = (Py.Ok tt, s).
Proof.
  intro H. unfold Clean.audio_loop_body, Py.try_except, Py.bind, Py.gets.
  apply Nat.leb_gt in H. rewrite H. reflexivity.
Qed.

(** An iteration with enough samples: advance, analyse the window taken
    before the advance, record. *)
Lemma loop_body_window (s : state) :
  (Clean.FRAME_LENGTH <= length (audio_buffer s))%nat ->
  Clean.audio_loop_body pyin s
  = (Py.Ok tt,
     Clean.record_history
       (snd (Clean._analyze_audio_segment pyin
               (firstn Clean.FRAME_LENGTH (audio_buffer s))
               (Clean.advance s)))).
Proof.
  intro H. unfold Clean.audio_loop_body, Py.try_except, Py.bind, Py.gets.
  apply Nat.leb_le in H. rewrite H.
  unfold Py.modify at 1.
  destruct (analyze_frame pyin (firstn Clean.FRAME_LENGTH (audio_buffer s))
              (Clean.advance s)) as (f & n & j & c & E).
  rewrite E. reflexivity.
Qed.

Lemma loop_body_ok (s : state) :
  fst (Clean.audio_loop_body pyin s) = Py.Ok tt.
Proof.
  destruct (Nat.lt_ge_cases (length (audio_buffer s)) Clean.FRAME_LENGTH).
  - rewrite loop_body_idle by assumption. reflexivity.
  - rewrite loop_body_window by assumption. reflexivity.
Qed.

(** What an iteration leaves alone. *)
Lemma loop_body_frame (s : state) :
  let s' := snd (Clean.audio_loop_body pyin s) in
  is_running s' = is_running s
  /\ stop_event s' = stop_event s
  /\ current_volume s' = current_volume s
  /\ note_data s' = note_data s.
Proof.
  cbv zeta.
  destruct (Nat.lt_ge_cases (length (audio_buffer s)) Clean.FRAME_LENGTH).
  - rewrite loop_body_idle by assumption. repeat split.
  - rewrite loop_body_window by assumption.
    destruct (analyze_frame pyin (firstn Clean.FRAME_LENGTH (audio_buffer s))
                (Clean.advance s)) as (f & n & j & c & E).
    rewrite E. repeat split.
Qed.

Lemma loop_body_buffer (s : state) :
  (Clean.FRAME_LENGTH <= length (audio_buffer s))%nat ->
  audio_buffer (snd (Clean.audio_loop_body pyin s))
  = skipn Clean.HOP_LENGTH (audio_buffer s).
Proof.
  intro H. rewrite loop_body_window by exact H.
  destruct (analyze_frame pyin (firstn Clean.FRAME_LENGTH (audio_buffer s))
              (Clean.advance s)) as (f & n & j & c & E).
  rewrite E. simpl.
  change (audio_buffer (Clean.advance s)
          = skipn Clean.HOP_LENGTH (audio_buffer s)).
  apply advance_buffer.
  unfold Clean.FRAME_LENGTH in H. lia.
Qed.

End CleanLoop.

(** ** The producer (clean variant) *)

Section CleanProducer.

Import Notes Gui.

Variable pyin : list Np.npfloat -> Py.result pyin_out.
Variable np_sqrt : Q -> Q.

Lemma callback_ok (indata : list Np.npfloat) (s : state) :
  fst (Clean.audio_callback np_sqrt indata s) = Py.Ok tt.
Proof.
  unfold Clean.audio_callback, Py.try_except, Py.bind, Py.lift, Py.modify.
  destruct (Clean.int_percent _); reflexivity.
Qed.

(** The buffer is extended before anything can fail. *)
Lemma callback_buffer (indata : list Np.npfloat) (s : state) :
  audio_buffer (snd (Clean.audio_callback np_sqrt indata s))
  = Deque.extend Clean.BUFFER_MAXLEN (audio_buffer s)
      (Np.scale Clean.GAIN_MULTIPLIER indata).
Proof.
  unfold Clean.audio_callback, Py.try_except, Py.bind, Py.lift, Py.modify.
  destruct (Clean.int_percent _); reflexivity.
Qed.

Lemma callback_frame (indata : list Np.npfloat) (s : state) :
  let s' := snd (Clean.audio_callback np_sqrt indata s) in
  is_running s' = is_running s /\ stop_event s' = stop_event s
  /\ note_data s' = note_data s.
Proof.
  unfold Clean.audio_callback, Py.try_except, Py.bind, Py.lift, Py.modify.
  destruct (Clean.int_percent _); repeat split.
Qed.

(** After any blocks the buffer holds the newest samples, oldest first. *)
Lemma callbacks_buffer (blocks : list (list Np.npfloat)) (s : state) :
  (length (audio_buffer s) <= Clean.BUFFER_MAXLEN)%nat ->
  audio_buffer (Clean.produce np_sqrt blocks s)
  = Deque.lastn Clean.BUFFER_MAXLEN (audio_buffer s ++ Clean.pushed blocks).
Proof.
  unfold Clean.produce.
  revert s. induction blocks as [|b blocks IH]; intros s H.
  - simpl. unfold Clean.pushed. simpl. rewrite app_nil_r.
    symmetry. apply lastn_all, H.
  - simpl. rewrite IH.
    + rewrite callback_buffer, extend_lastn by exact H.
      rewrite lastn_lastn_app. unfold Clean.pushed. simpl.
      rewrite <- app_assoc. reflexivity.
    + rewrite callback_buffer. apply extend_length, H.
Qed.

(** Blocks that fit are appended whole. *)
Lemma callbacks_fit (blocks : list (list Np.npfloat)) (s : state) :
  (length (audio_buffer s) + length (Clean.pushed blocks)
   <= Clean.BUFFER_MAXLEN)%nat ->
  audio_buffer (Clean.produce np_sqrt blocks s)
  = audio_buffer s ++ Clean.pushed blocks.
Proof.
  intro H. rewrite callbacks_buffer by lia.
  apply lastn_all. rewrite length_app. exact H.
Qed.

Lemma callbacks_frame (blocks : list (list Np.npfloat)) (s : state) :
  let s' := Clean.produce np_sqrt blocks s in
  is_running s' = is_running s /\ stop_event s' = stop_event s
  /\ note_data s' = note_data s.
Proof.
  unfold Clean.produce. revert s.
  induction blocks as [|b blocks IH]; intro s; simpl.
  - repeat split.
  - destruct (IH (snd (Clean.audio_callback np_sqrt b s))) as (H1 & H2 & H3).
    destruct (callback_frame b s) as (H4 & H5 & H6).
    cbv zeta in *. rewrite H1, H2, H3. repeat split; assumption.
Qed.

(** The bound holds in every state of a session. *)
Lemma reachable_bounded (nd : Notes.note_data) (s : state) :
  Clean.reachable pyin np_sqrt nd s ->
  (length (audio_buffer s) <= Clean.BUFFER_MAXLEN)%nat.
Proof.
  induction 1 as [|s _ IH|s _ IH|s indata _ IH|s _ IH Hg].
  - simpl. apply Nat.le_0_l.
  - unfold Clean.start_analysis. destruct (is_running s); simpl.
    + exact IH.
    + apply Nat.le_0_l.
  - unfold Clean.stop_analysis. destruct (negb (is_running s)); exact IH.
  - rewrite callback_buffer. apply extend_length, IH.
  - destruct (Nat.lt_ge_cases (length (audio_buffer s)) Clean.FRAME_LENGTH)
      as [Hlt|Hge].
    + rewrite loop_body_idle by exact Hlt. exact IH.
    + rewrite loop_body_buffer by exact Hge. rewrite length_skipn. lia.
Qed.

End CleanProducer.

(** C3.  In every state that a session can reach (pushes by the callback
    and iterations of the analysis loop in any order) the audio buffer
    holds at most [CHUNK * 10] samples; and from such a state, after any
    sequence of pushed blocks, the buffer holds at most [CHUNK * 10]
    samples and they are the newest [CHUNK * 10] samples of the old
    content followed by the pushed samples, in their order: what
    overflows is dropped from the oldest end. *)
Theorem ring_buffer_bounded_fifo
    (pyin : list Np.npfloat -> Py.result Gui.pyin_out) (np_sqrt : Q -> Q)
    (nd : Notes.note_data) (s : Gui.state) (blocks : list (list Np.npfloat)) :
  Clean.reachable pyin np_sqrt nd s ->
  let s' := Clean.produce np_sqrt blocks s in
  let stream := Gui.audio_buffer s ++ Clean.pushed blocks in
  Clean.BUFFER_MAXLEN = (Clean.CHUNK * 10)%nat
  /\ (length (Gui.audio_buffer s) <= Clean.BUFFER_MAXLEN)%nat
  /\ (length (Gui.audio_buffer s') <= Clean.BUFFER_MAXLEN)%nat
  /\ Gui.audio_buffer s'
     = skipn (length stream - Clean.BUFFER_MAXLEN) stream
  /\ Clean.reachable pyin np_sqrt nd s'.
Proof.
  intros Hr s' stream.
  pose proof (reachable_bounded pyin np_sqrt nd s Hr) as Hb.
  assert (E : Gui.audio_buffer s' = Deque.lastn Clean.BUFFER_MAXLEN stream).
  { apply callbacks_buffer, Hb. }
  split; [reflexivity|]. split; [exact Hb|]. split; [|split].
  - rewrite E, lastn_length. lia.
  - exact E.
  - subst s'. clear E stream Hb. unfold Clean.produce. revert s Hr.
    induction blocks as [|b blocks IH]; intros s Hr; simpl.
    + exact Hr.
    + apply IH. apply Clean.reach_callback, Hr.
Qed.

(** A session that has just been created, and eleven blocks of [CHUNK]
    numbered samples: a witness for C3. *)
Lemma ring_buffer_bounded_fifo_witness :
  let nd := {| Notes.note_frequencies := Notes.default_table |} in
  let block (k : nat) :=
    map (fun i => Np.Num (inject_Z (Z.of_nat (k * Clean.CHUNK + i))))
      (seq 0 Clean.CHUNK) in
  let blocks := map block (seq 0 11) in
  let s' := Clean.produce (fun x => x) blocks (Gui.init nd) in
  (length (Gui.audio_buffer s') <= Clean.BUFFER_MAXLEN)%nat.
Proof.
  intros nd block blocks s'.
  destruct (ring_buffer_bounded_fifo (fun _ => Py.Raise Py.LibraryError)
              (fun x => x) nd (Gui.init nd) blocks
              (Clean.reach_init _ _ nd)) as (_ & _ & H & _).
  exact H.
Defined.

(** ** Windows along a run of the loop *)

Section CleanTrace.

Import Gui.

Variable pyin : list Np.npfloat -> Py.result pyin_out.
Variable np_sqrt : Q -> Q.

Lemma pushed_app (b1 b2 : list (list Np.npfloat)) :
  Clean.pushed (b1 ++ b2) = Clean.pushed b1 ++ Clean.pushed b2.
Proof. unfold Clean.pushed. rewrite map_app, concat_app. reflexivity. Qed.

Lemma window_of_some (s : state) :
  (Clean.FRAME_LENGTH <= length (audio_buffer s))%nat ->
  Clean.window_of s = Some (firstn Clean.FRAME_LENGTH (audio_buffer s)).
Proof.
  intro H. unfold Clean.window_of. apply Nat.leb_le in H. rewrite H.
  reflexivity.
Qed.

Lemma window_of_none (s : state) :
  (length (audio_buffer s) < Clean.FRAME_LENGTH)%nat ->
  Clean.window_of s = None.
Proof.
  intro H. unfold Clean.window_of. apply Nat.leb_gt in H. rewrite H.
  reflexivity.
Qed.

Lemma hop_le_frame : (Clean.HOP_LENGTH <= Clean.FRAME_LENGTH)%nat.
Proof. unfold Clean.FRAME_LENGTH, Clean.HOP_LENGTH. lia. Qed.

(** A window cut from a long enough prefix does not see what follows. *)
Lemma firstn_app_long {A} (n : nat) (l r : list A) :
  (n <= length l)%nat -> firstn n (l ++ r) = firstn n l.
Proof.
  intro H. rewrite firstn_app.
  replace (n - length l)%nat with 0%nat by lia.
  simpl. apply app_nil_r.
Qed.

Lemma skipn_app_long {A} (n : nat) (l r : list A) :
  (n <= length l)%nat -> skipn n (l ++ r) = skipn n l ++ r.
Proof.
  intro H. rewrite skipn_app.
  replace (n - length l)%nat with 0%nat by lia.
  reflexivity.
Qed.

(** Without eviction, window number [k] of a run is the frame that
    starts [k * HOP_LENGTH] samples into the stream. *)
Lemma audio_loop_trace (schedule : list (list (list Np.npfloat))) :
  forall s : state,
    Clean.loop_guard s = true ->
    Clean.no_eviction pyin np_sqrt schedule s = true ->
    forall k w,
      nth_error (fst (Clean._audio_loop pyin np_sqrt schedule s)) k = Some w ->
      w = firstn Clean.FRAME_LENGTH
            (skipn (k * Clean.HOP_LENGTH)
               (audio_buffer s ++ Clean.pushed (concat schedule)))
      /\ length w = Clean.FRAME_LENGTH.
Proof.
  induction schedule as [|blocks rest IH]; intros s Hg Hfit k w Hk.
  - destruct k; discriminate Hk.
  - cbn [Clean.no_eviction] in Hfit.
    apply andb_prop in Hfit. destruct Hfit as [Hfit Hrest].
    apply Nat.leb_le in Hfit.
    cbn [Clean._audio_loop] in Hk. cbn [concat].
    rewrite pushed_app, app_assoc.
    rewrite <- (callbacks_fit np_sqrt blocks s Hfit).
    set (s1 := Clean.produce np_sqrt blocks s) in *.
    assert (Hg1 : Clean.loop_guard s1 = true).
    { destruct (callbacks_frame np_sqrt blocks s) as (H1 & H2 & _).
      fold s1 in H1, H2. unfold Clean.loop_guard. rewrite H1, H2. exact Hg. }
    rewrite Hg1 in Hk.
    set (s2 := snd (Clean.audio_loop_body pyin s1)) in *.
    assert (Hg2 : Clean.loop_guard s2 = true).
    { destruct (loop_body_frame pyin s1) as (H1 & H2 & _).
      fold s2 in H1, H2. unfold Clean.loop_guard. rewrite H1, H2. exact Hg1. }
    specialize (IH s2 Hg2 Hrest).
    destruct (Clean._audio_loop pyin np_sqrt rest s2) as [ws s3].
    cbn [fst] in IH, Hk.
    destruct (Nat.lt_ge_cases (length (audio_buffer s1)) Clean.FRAME_LENGTH)
      as [Hlt|Hge].
    + rewrite (window_of_none s1 Hlt) in Hk.
      assert (E : s2 = s1).
      { unfold s2. rewrite loop_body_idle by exact Hlt. reflexivity. }
      rewrite E in IH. apply IH, Hk.
    + rewrite (window_of_some s1 Hge) in Hk.
      assert (E : audio_buffer s2 = skipn Clean.HOP_LENGTH (audio_buffer s1)).
      { apply loop_body_buffer, Hge. }
      pose proof hop_le_frame as Hhop.
      destruct k as [|k].
      * cbn [nth_error] in Hk.
        assert (Ew : firstn Clean.FRAME_LENGTH (audio_buffer s1) = w)
          by congruence.
        subst w. cbn [Nat.mul skipn].
        rewrite firstn_app_long by exact Hge.
        split; [reflexivity|]. rewrite length_firstn. lia.
      * cbn [nth_error] in Hk. destruct (IH k w Hk) as [Hw Hl].
        split; [|exact Hl].
        rewrite Hw, E. rewrite <- skipn_app_long by lia.
        rewrite skipn_skipn.
        replace (S k * Clean.HOP_LENGTH)%nat
          with (k * Clean.HOP_LENGTH + Clean.HOP_LENGTH)%nat by lia.
        reflexivity.
Qed.

Lemma firstn_skipn_shift {A} (f h : nat) (l : list A) :
  (h <= f)%nat -> firstn (f - h) (skipn h l) = skipn h (firstn f l).
Proof.
  revert f l. induction h as [|h IH]; intros f l H.
  - rewrite Nat.sub_0_r. reflexivity.
  - destruct f as [|f]; [lia|]. destruct l as [|x l].
    + cbn [skipn firstn]. apply firstn_nil.
    + cbn [skipn firstn Nat.sub]. apply IH. lia.
Qed.

(** Two frames that start [HOP_LENGTH] apart share all but [HOP_LENGTH]
    samples. *)
Lemma frames_overlap {A} (stream : list A) (n : nat) :
  firstn (Clean.FRAME_LENGTH - Clean.HOP_LENGTH)
    (firstn Clean.FRAME_LENGTH (skipn (n + Clean.HOP_LENGTH) stream))
  = skipn Clean.HOP_LENGTH (firstn Clean.FRAME_LENGTH (skipn n stream)).
Proof.
  rewrite firstn_firstn, Nat.min_l by lia.
  rewrite (Nat.add_comm n), <- skipn_skipn.
  apply firstn_skipn_shift, hop_le_frame.
Qed.

End CleanTrace.

(** C1, as the code has it.  In an iteration of the analysis loop that
    finds at least [FRAME_LENGTH] samples in the buffer, the window
    handed to [_analyze_audio_segment] is the [FRAME_LENGTH]
    (= 2 * CHUNK) oldest samples, and the iteration removes the
    [HOP_LENGTH] (= CHUNK) oldest samples, not the full frame, so that
    the buffer that is left starts with the last
    [FRAME_LENGTH - HOP_LENGTH] samples of the window.  Along a run of
    the loop against a producer that delivers blocks of any sizes at any
    iterations, as long as no push overflows the buffer, every window
    has [FRAME_LENGTH] samples, window number [k] starts
    [k * HOP_LENGTH] samples into the stream, and each window begins with
    the last [FRAME_LENGTH - HOP_LENGTH] samples of the one before. *)
Theorem audio_loop_window_and_hop
    (pyin : list Np.npfloat -> Py.result Gui.pyin_out) (np_sqrt : Q -> Q) :
  (forall s : Gui.state,
     (Clean.FRAME_LENGTH <= length (Gui.audio_buffer s))%nat ->
     let buf := Gui.audio_buffer s in
     let window := firstn Clean.FRAME_LENGTH buf in
     let s' := snd (Clean.audio_loop_body pyin s) in
     (Clean.window_of s = Some window
      /\ s' = Clean.record_history
                (snd (Clean._analyze_audio_segment pyin window (Clean.advance s)))
      /\ length window = Clean.FRAME_LENGTH
      /\ Clean.FRAME_LENGTH = (2 * Clean.CHUNK)%nat)
     /\ (Gui.audio_buffer s' = skipn Clean.HOP_LENGTH buf
         /\ length (Gui.audio_buffer s') = (length buf - Clean.HOP_LENGTH)%nat
         /\ Clean.HOP_LENGTH = Clean.CHUNK
         /\ length (Gui.audio_buffer s') <> (length buf - Clean.FRAME_LENGTH)%nat)
     /\ firstn (Clean.FRAME_LENGTH - Clean.HOP_LENGTH) (Gui.audio_buffer s')
        = skipn Clean.HOP_LENGTH window)
  /\ (forall (schedule : list (list (list Np.npfloat))) (s : Gui.state),
        Clean.loop_guard s = true ->
        Clean.no_eviction pyin np_sqrt schedule s = true ->
        let windows := fst (Clean._audio_loop pyin np_sqrt schedule s) in
        let stream := Gui.audio_buffer s ++ Clean.pushed (concat schedule) in
        forall k w,
          nth_error windows k = Some w ->
          length w = Clean.FRAME_LENGTH
          /\ w = firstn Clean.FRAME_LENGTH (skipn (k * Clean.HOP_LENGTH) stream)
          /\ (forall w', nth_error windows (S k) = Some w' ->
                firstn (Clean.FRAME_LENGTH - Clean.HOP_LENGTH) w'
                = skipn Clean.HOP_LENGTH w)).
Proof.
  split.
  - intros s H buf window s'.
    assert (Hw : length window = Clean.FRAME_LENGTH).
    { unfold window. rewrite length_firstn. apply Nat.min_l, H. }
    assert (Hb : Gui.audio_buffer s' = skipn Clean.HOP_LENGTH buf).
    { apply loop_body_buffer, H. }
    pose proof hop_le_frame as Hhop.
    split; [|split].
    + split; [apply window_of_some, H|]. split; [|split].
      * unfold s'. rewrite loop_body_window by exact H. reflexivity.
      * exact Hw.
      * reflexivity.
    + split; [exact Hb|]. split; [|split].
      * rewrite Hb. apply length_skipn.
      * reflexivity.
      * rewrite Hb, length_skipn. fold buf in H.
        unfold Clean.FRAME_LENGTH, Clean.HOP_LENGTH, Clean.CHUNK in *. lia.
    + rewrite Hb. unfold window.
      pose proof (frames_overlap buf 0) as Ho.
      change (0 + Clean.HOP_LENGTH)%nat with Clean.HOP_LENGTH in Ho.
      change (skipn 0 buf) with buf in Ho.
      rewrite <- Ho. rewrite firstn_firstn, Nat.min_l by lia. reflexivity.
  - intros schedule s Hg Hfit windows stream k w Hk.
    destruct (audio_loop_trace pyin np_sqrt schedule s Hg Hfit k w Hk)
      as [Hw Hl].
    split; [exact Hl|]. split; [exact Hw|].
    intros w' Hk'.
    destruct (audio_loop_trace pyin np_sqrt schedule s Hg Hfit (S k) w' Hk')
      as [Hw' _].
    rewrite Hw, Hw'. fold stream.
    replace (S k * Clean.HOP_LENGTH)%nat
      with (k * Clean.HOP_LENGTH + Clean.HOP_LENGTH)%nat by lia.
    apply frames_overlap.
Qed.

(** A running session with three blocks of numbered samples in the
    buffer, and a producer that delivers a block of 300 samples and
    later one of 1500 and one of 700: a witness for C1. *)
Lemma audio_loop_window_and_hop_witness :
  let nd := {| Notes.note_frequencies := Notes.default_table |} in
  let numbered (from n : nat) :=
    map (fun i => Np.Num (inject_Z (Z.of_nat i))) (seq from n) in
  let s := Gui.set_audio_buffer (numbered 0 (3 * Clean.CHUNK))%nat
             (Clean.start_analysis (Gui.init nd)) in
  let pyin := fun _ : list Np.npfloat =>
    Py.Ok ([Np.Num 440; Np.Num 440], [true; true], [Np.Num 0.9; Np.Num 0.9]) in
  let schedule :=
    [[]; [numbered 3072 300]; []; [numbered 3372 1500; numbered 4872 700]]%nat
  in
  Gui.audio_buffer (snd (Clean.audio_loop_body pyin s))
  = skipn Clean.HOP_LENGTH (Gui.audio_buffer s)
  /\ forall k w,
       nth_error (fst (Clean._audio_loop pyin (fun x => x) schedule s)) k
       = Some w ->
       length w = Clean.FRAME_LENGTH.
Proof.
  intros nd numbered s pyin schedule.
  destruct (audio_loop_window_and_hop pyin (fun x => x)) as [HA HB].
  split.
  - assert (H : (Clean.FRAME_LENGTH <= length (Gui.audio_buffer s))%nat).
    { apply Nat.leb_le. vm_compute. reflexivity. }
    destruct (HA s H) as (_ & (Hb & _) & _). exact Hb.
  - assert (Hg : Clean.loop_guard s = true) by reflexivity.
    assert (Hfit : Clean.no_eviction pyin (fun x => x) schedule s = true).
    { vm_compute. reflexivity. }
    intros k w Hk. destruct (HB schedule s Hg Hfit k w Hk) as [Hl _].
    exact Hl.
Defined.

(** C4.  [_analyze_audio_segment] returns normally for every window,
    whatever the pitch library does with it; when the library raises,
    the published result is the unvoiced one (f0 = 0, both note names
    N/A, confidence 0) and nothing else changes.  An iteration of the
    analysis loop returns normally as well and leaves [is_running] and
    the stop event as they were, so the loop goes on; an iteration whose
    window makes the library raise ends with the unvoiced result. *)
Theorem analysis_never_raises
    (pyin : list Np.npfloat -> Py.result Gui.pyin_out)
    (segment : list Np.npfloat) (s : Gui.state) :
  fst (Clean._analyze_audio_segment pyin segment s) = Py.Ok tt
  /\ (forall e, pyin segment = Py.Raise e ->
        let s' := snd (Clean._analyze_audio_segment pyin segment s) in
        s' = Gui.with_pitch 0 Notes.NA Notes.NA 0 s
        /\ Gui.current_f0 s' = 0
        /\ Gui.current_note s' = Notes.NA
        /\ Gui.current_japanese_note s' = Notes.NA
        /\ Gui.note_confidence s' = 0)
  /\ fst (Clean.audio_loop_body pyin s) = Py.Ok tt
  /\ Clean.loop_guard (snd (Clean.audio_loop_body pyin s)) = Clean.loop_guard s
  /\ (forall e,
        (Clean.FRAME_LENGTH <= length (Gui.audio_buffer s))%nat ->
        pyin (firstn Clean.FRAME_LENGTH (Gui.audio_buffer s)) = Py.Raise e ->
        let s' := snd (Clean.audio_loop_body pyin s) in
        Gui.current_f0 s' = 0
        /\ Gui.current_note s' = Notes.NA
        /\ Gui.current_japanese_note s' = Notes.NA
        /\ Gui.note_confidence s' = 0).
Proof.
  split; [|split; [|split; [|split]]].
  - destruct (analyze_frame pyin segment s) as (f & n & j & c & E).
    rewrite E. reflexivity.
  - intros e He. cbv zeta. rewrite (analyze_raise pyin segment s e He).
    repeat split.
  - apply loop_body_ok.
  - destruct (loop_body_frame pyin s) as (Hr & Hs & _).
    unfold Clean.loop_guard. rewrite Hr, Hs. reflexivity.
  - intros e Hlen He. cbv zeta.
    rewrite loop_body_window by exact Hlen.
    rewrite (analyze_raise pyin _ (Clean.advance s) e He).
    repeat split.
Qed.

(** A window of silence on which the library raises: a witness for C4. *)
Lemma analysis_never_raises_witness :
  let nd := {| Notes.note_frequencies := Notes.default_table |} in
  let silence := repeat (Np.Num 0) Clean.FRAME_LENGTH in
  let s := Gui.set_current_f0 440 (Gui.set_audio_buffer silence (Gui.init nd)) in
  let pyin := fun _ : list Np.npfloat =>
    @Py.Raise Gui.pyin_out Py.LibraryError in
  Gui.current_f0 (snd (Clean.audio_loop_body pyin s)) = 0.
Proof.
  intros nd silence s pyin.
  destruct (analysis_never_raises pyin silence s) as (_ & _ & _ & _ & H).
  assert (Hlen : (Clean.FRAME_LENGTH <= length (Gui.audio_buffer s))%nat).
  { apply Nat.leb_le. vm_compute. reflexivity. }
  destruct (H Py.LibraryError Hlen eq_refl) as (H0 & _).
  exact H0.
Defined.

(** C5.  When the pitch library returns and no estimate survives the
    voicing filter, that is, every estimate is [nan] or has a voicing
    probability that is [nan] or at most 1/2, or when the median of the
    estimates that survive ([Spec.surviving]: the numbers with a
    probability above 1/2) lies outside 75..1200 Hz, the analysis
    publishes the unvoiced result: f0 = 0.0, both note names N/A,
    confidence 0. *)
Theorem unvoiced_when_no_survivor_or_out_of_band
    (pyin : list Np.npfloat -> Py.result Gui.pyin_out)
    (segment : list Np.npfloat) (s : Gui.state)
    (f0 : list Np.npfloat) (fl : list bool) (probs : list Np.npfloat) :
  pyin segment = Py.Ok (f0, fl, probs) ->
  (forall i x p, nth_error f0 i = Some (Np.Num x) ->
                 nth_error probs i = Some (Np.Num p) -> p <= 1 # 2)
  \/ ~ (75 <= Np.median (Spec.surviving f0 probs) <= 1200) ->
  let s' := snd (Clean._analyze_audio_segment pyin segment s) in
  fst (Clean._analyze_audio_segment pyin segment s) = Py.Ok tt
  /\ Gui.current_f0 s' = 0
  /\ Gui.current_note s' = Notes.NA
  /\ Gui.current_japanese_note s' = Notes.NA
  /\ Gui.note_confidence s' = 0.
Proof.
  intros Hp Hs. cbv zeta.
  assert (E : Clean._analyze_audio_segment pyin segment s
              = (Py.Ok tt, Gui.with_pitch 0 Notes.NA Notes.NA 0 s)).
  { destruct (Nat.eq_dec (length f0) (length probs)) as [Hlen|Hlen].
    - apply (analyze_unvoiced pyin segment s f0 fl probs Hp).
      rewrite (survivors_surviving f0 probs Hlen).
      destruct Hs as [Hs|Hs]; [left; apply surviving_none; exact Hs|right].
      unfold Gui.in_band.
      destruct (Py.leb 75 _) eqn:E1; [|reflexivity].
      destruct (Py.leb _ 1200) eqn:E2; [|reflexivity].
      exfalso. apply Hs. split; apply leb_le; assumption.
    - exact (analyze_mismatch pyin segment s f0 fl probs Hp Hlen). }
  rewrite E. repeat split.
Qed.

(** Three estimates of which none survives (a probability of exactly
    1/2, a probability of 0.1, a [nan] with probability 0.9), and one
    confident estimate of 2000 Hz: a witness for C5. *)
Lemma unvoiced_when_no_survivor_or_out_of_band_witness :
  let nd := {| Notes.note_frequencies := Notes.default_table |} in
  let s := Gui.set_current_f0 440 (Gui.init nd) in
  let weak := fun _ : list Np.npfloat =>
    Py.Ok ([Np.Num 440; Np.Num 450; Np.NaN], [true; true; false],
           [Np.Num (1 # 2); Np.Num 0.1; Np.Num 0.9]) in
  let high := fun _ : list Np.npfloat =>
    Py.Ok ([Np.Num 2000], [true], [Np.Num 0.9]) in
  Gui.current_f0 (snd (Clean._analyze_audio_segment weak [] s)) = 0
  /\ Gui.current_f0 (snd (Clean._analyze_audio_segment high [] s)) = 0.
Proof.
  intros nd s weak high. split.
  - assert (Hs : (forall i x p,
                    nth_error [Np.Num 440; Np.Num 450; Np.NaN] i
                    = Some (Np.Num x) ->
                    nth_error [Np.Num (1 # 2); Np.Num 0.1; Np.Num 0.9] i
                    = Some (Np.Num p) -> p <= 1 # 2)
                 \/ ~ (75 <= Np.median
                               (Spec.surviving
                                  [Np.Num 440; Np.Num 450; Np.NaN]
                                  [Np.Num (1 # 2); Np.Num 0.1; Np.Num 0.9])
                       <= 1200)).
    { left. intros i x p Hx Hq.
      destruct i as [|[|[|i]]]; simpl in Hx, Hq.
      - injection Hq as Hq. subst p. discriminate.
      - injection Hq as Hq. subst p. discriminate.
      - discriminate Hx.
      - destruct i; discriminate Hx. }
    destruct (unvoiced_when_no_survivor_or_out_of_band weak [] s
                [Np.Num 440; Np.Num 450; Np.NaN] [true; true; false]
                [Np.Num (1 # 2); Np.Num 0.1; Np.Num 0.9] eq_refl Hs)
      as (_ & H & _).
    exact H.
  - assert (Hs : (forall i x p,
                    nth_error [Np.Num 2000] i = Some (Np.Num x) ->
                    nth_error [Np.Num 0.9] i = Some (Np.Num p) ->
                    p <= 1 # 2)
                 \/ ~ (75 <= Np.median
                               (Spec.surviving [Np.Num 2000] [Np.Num 0.9])
                       <= 1200)).
    { right. intros [_ H]. vm_compute in H. apply H. reflexivity. }
    destruct (unvoiced_when_no_survivor_or_out_of_band high [] s
                [Np.Num 2000] [true] [Np.Num 0.9] eq_refl Hs) as (_ & H & _).
    exact H.
Defined.

(** ** The median *)

Section Median.

Lemma insert_perm (x : Q) (l : list Q) : Permutation (Np.insert x l) (x :: l).
Proof.
  induction l as [|y t IH]; simpl.
  - apply Permutation_refl.
  - destruct (Py.leb x y).
    + apply Permutation_refl.
    + eapply perm_trans; [apply perm_skip, IH|apply perm_swap].
Qed.

Lemma sort_perm (l : list Q) : Permutation (Np.sort l) l.
Proof.
  induction l as [|x l IH]; simpl.
  - apply perm_nil.
  - eapply perm_trans; [apply insert_perm|apply perm_skip, IH].
Qed.

Lemma insert_sorted (x : Q) (l : list Q) :
  StronglySorted Qle l -> StronglySorted Qle (Np.insert x l).
Proof.
  induction 1 as [|y t Hs IH Hall]; simpl.
  - constructor; constructor.
  - destruct (Py.leb x y) eqn:E.
    + apply leb_le in E. constructor.
      * constructor; assumption.
      * constructor; [exact E|].
        eapply Forall_impl; [|exact Hall].
        intros z Hz. eapply Qle_trans; eassumption.
    + apply leb_gt in E. constructor; [exact IH|].
      apply (Permutation_Forall (Permutation_sym (insert_perm x t))).
      constructor; [apply Qlt_le_weak, E|exact Hall].
Qed.

Lemma sort_sorted (l : list Q) : StronglySorted Qle (Np.sort l).
Proof.
  induction l as [|x l IH]; simpl.
  - constructor.
  - apply insert_sorted, IH.
Qed.

(** In a sorted list the element at position [k] bounds what comes
    before it from above and what comes after it from below. *)
Lemma sorted_split (s : list Q) (k : nat) :
  StronglySorted Qle s -> (k < length s)%nat ->
  Forall (fun x => x <= nth k s 0) (firstn (S k) s)
  /\ Forall (fun x => nth k s 0 <= x) (skipn k s).
Proof.
  intro Hs. revert k. induction Hs as [|a s Hs IH Hall]; intros k Hk.
  - inversion Hk.
  - destruct k as [|k].
    + split.
      * simpl. constructor; [apply Qle_refl|constructor].
      * simpl. constructor; [apply Qle_refl|exact Hall].
    + simpl in Hk. apply Nat.succ_lt_mono in Hk.
      destruct (IH k Hk) as [H1 H2]. split.
      * change (Forall (fun x => x <= nth k s 0) (a :: firstn (S k) s)).
        constructor; [|exact H1].
        rewrite Forall_forall in Hall. apply Hall. apply nth_In, Hk.
      * exact H2.
Qed.

Lemma filter_count_perm (f : Q -> bool) (l l' : list Q) :
  Permutation l l' -> length (filter f l) = length (filter f l').
Proof.
  induction 1 as [|x l l' _ IH|x y l|l l' l'' _ IH1 _ IH2]; simpl.
  - reflexivity.
  - destruct (f x); simpl; congruence.
  - destruct (f x), (f y); reflexivity.
  - congruence.
Qed.

Lemma filter_count_all (f : Q -> bool) (l : list Q) :
  Forall (fun x => f x = true) l -> length (filter f l) = length l.
Proof.
  induction 1 as [|x l Hx _ IH]; simpl.
  - reflexivity.
  - rewrite Hx. simpl. congruence.
Qed.

(** A prefix, or a suffix, that passes the filter counts in full. *)
Lemma filter_count_prefix (f : Q -> bool) (l : list Q) (k : nat) :
  Forall (fun x => f x = true) (firstn k l) ->
  (Nat.min k (length l) <= length (filter f l))%nat.
Proof.
  intro H. rewrite <- (firstn_skipn k l) at 2.
  rewrite filter_app, length_app, (filter_count_all f _ H), length_firstn.
  lia.
Qed.

Lemma filter_count_suffix (f : Q -> bool) (l : list Q) (k : nat) :
  Forall (fun x => f x = true) (skipn k l) ->
  (length l - k <= length (filter f l))%nat.
Proof.
  intro H. rewrite <- (firstn_skipn k l) at 2.
  rewrite filter_app, length_app, (filter_count_all f _ H), length_skipn.
  lia.
Qed.

Lemma is_median_perm (m : Q) (l l' : list Q) :
  Permutation l l' -> Spec.is_median m l -> Spec.is_median m l'.
Proof.
  intros Hp [H1 H2]. unfold Spec.is_median.
  rewrite <- (Permutation_length Hp).
  rewrite <- (filter_count_perm _ _ _ Hp), <- (filter_count_perm _ _ _ Hp).
  split; assumption.
Qed.

(** In a sorted list, any value between the two middle elements (which
    coincide for an odd length) is a median. *)
Lemma sorted_middle_median (s : list Q) (m : Q) (lo hi : nat) :
  StronglySorted Qle s ->
  (hi < length s)%nat -> (lo <= hi)%nat ->
  (length s <= 2 * S lo)%nat -> (2 * hi <= length s)%nat ->
  nth lo s 0 <= m -> m <= nth hi s 0 ->
  Spec.is_median m s.
Proof.
  intros Hs Hhi Hlh Hn1 Hn2 Hlo Hup.
  destruct (sorted_split s lo Hs ltac:(lia)) as [Hbelow _].
  destruct (sorted_split s hi Hs Hhi) as [_ Habove].
  split.
  - pose proof (filter_count_prefix (fun x => Py.leb x m) s (S lo)) as Hc.
    assert (Hall : Forall (fun x => Py.leb x m = true) (firstn (S lo) s)).
    { eapply Forall_impl; [|exact Hbelow].
      intros x Hx. apply leb_le. exact (Qle_trans _ _ _ Hx Hlo). }
    specialize (Hc Hall). lia.
  - pose proof (filter_count_suffix (fun x => Py.leb m x) s hi) as Hc.
    assert (Hall : Forall (fun x => Py.leb m x = true) (skipn hi s)).
    { eapply Forall_impl; [|exact Habove].
      intros x Hx. apply leb_le. exact (Qle_trans _ _ _ Hup Hx). }
    specialize (Hc Hall). lia.
Qed.

Lemma sorted_nth_le (s : list Q) (i j : nat) :
  StronglySorted Qle s -> (i <= j)%nat -> (j < length s)%nat ->
  nth i s 0 <= nth j s 0.
Proof.
  intros Hs Hij Hj.
  destruct (sorted_split s j Hs Hj) as [Hbelow _].
  rewrite Forall_forall in Hbelow. apply Hbelow.
  assert (E : nth i (firstn (S j) s) 0 = nth i s 0).
  { rewrite nth_firstn.
    destruct (Nat.ltb_spec i (S j)); [reflexivity|lia]. }
  rewrite <- E. apply nth_In. rewrite length_firstn. lia.
Qed.

(** [np.median] computes a median. *)
Lemma median_is_median (l : list Q) :
  l <> [] -> Spec.is_median (Np.median l) l.
Proof.
  intro Hne.
  apply (is_median_perm _ (Np.sort l) l (sort_perm l)).
  pose proof (sort_sorted l) as Hs.
  pose proof (Permutation_length (sort_perm l)) as Hlen.
  assert (Hpos : (0 < length (Np.sort l))%nat).
  { rewrite Hlen. destruct l; [congruence|simpl; lia]. }
  unfold Np.median. cbv zeta.
  set (s := Np.sort l) in *. set (n := length s) in *.
  destruct (Nat.even n) eqn:Ev.
  - apply Nat.even_spec in Ev. destruct Ev as [h Eh].
    assert (Hh : (n / 2 = h)%nat).
    { rewrite Eh, Nat.mul_comm. apply Nat.div_mul. discriminate. }
    rewrite Hh.
    assert (Hle : nth (h - 1) s 0 <= nth h s 0).
    { apply sorted_nth_le; [exact Hs|lia|fold n; lia]. }
    apply (sorted_middle_median s _ (h - 1) h Hs); fold n; try lia.
    + apply Qle_shift_div_l; [reflexivity|]. lra.
    + apply Qle_shift_div_r; [reflexivity|]. lra.
  - assert (Od : Nat.odd n = true).
    { rewrite <- Nat.negb_even, Ev. reflexivity. }
    apply Nat.odd_spec in Od. destruct Od as [h Eh].
    assert (Hh : (n / 2 = h)%nat).
    { rewrite Eh. rewrite Nat.mul_comm, Nat.div_add_l by discriminate.
      simpl. apply Nat.add_0_r. }
    rewrite Hh.
    apply (sorted_middle_median s _ h h Hs); fold n; try lia;
      apply Qle_refl.
Qed.

End Median.

(** C2.  When the pitch library returns one estimate and one voicing
    probability per sub-frame and at least one estimate (a number, not
    [nan]) passes the voicing filter, the aggregate that the analysis
    works with is
    [np.median] of the survivors, which is a median of them (half of the
    survivors are not above it, half are not below it): inside the band
    75..1200 Hz it is published as [current_f0] and mapped to the note,
    outside the band 0.0 is published.  Where the mean of the survivors
    differs from the median, the published value is the median and not
    the mean. *)
Theorem aggregate_is_median
    (pyin : list Np.npfloat -> Py.result Gui.pyin_out)
    (segment : list Np.npfloat) (s : Gui.state)
    (f0 : list Np.npfloat) (fl : list bool) (probs : list Np.npfloat) :
  pyin segment = Py.Ok (f0, fl, probs) ->
  length f0 = length probs ->
  Gui.survivors f0 probs <> [] ->
  let m := Np.median (Gui.survivors f0 probs) in
  let s' := snd (Clean._analyze_audio_segment pyin segment s) in
  Spec.is_median m (Gui.survivors f0 probs)
  /\ (Gui.in_band m = true ->
      Gui.current_f0 s' = m
      /\ (Gui.current_note s', Gui.current_japanese_note s')
         = fst (Notes.frequency_to_note m (Gui.note_data s)))
  /\ (Gui.in_band m = false -> Gui.current_f0 s' = 0)
  /\ (Gui.in_band m = true -> ~ m == Np.mean (Gui.survivors f0 probs) ->
      ~ Gui.current_f0 s' == Np.mean (Gui.survivors f0 probs)).
Proof.
  intros Hp Hlen Hs m s'.
  assert (Hin : Gui.in_band m = true ->
                Gui.current_f0 s' = m
                /\ (Gui.current_note s', Gui.current_japanese_note s')
                   = fst (Notes.frequency_to_note m (Gui.note_data s))).
  { intro Hb. unfold s'.
    pose proof (analyze_voiced pyin segment s f0 fl probs Hp Hlen Hs Hb) as H.
    cbv zeta in H. fold m in H.
    destruct (Notes.frequency_to_note m (Gui.note_data s)) as [[w j] c].
    rewrite H. split; reflexivity. }
  split; [apply median_is_median, Hs|]. split; [exact Hin|]. split.
  - intro Hb. unfold s'.
    rewrite (analyze_unvoiced pyin segment s f0 fl probs Hp).
    + reflexivity.
    + right. exact Hb.
  - intros Hb Hne. destruct (Hin Hb) as [E _]. rewrite E. exact Hne.
Qed.

(** Survivors 100, 100 and 400 Hz, with median 100 and mean 200, next to
    an estimate of 900 Hz that the filter drops: a witness for C2. *)
Lemma aggregate_is_median_witness :
  let nd := {| Notes.note_frequencies := Notes.default_table |} in
  let f0 := [Np.Num 100; Np.Num 900; Np.Num 400; Np.Num 100] in
  let probs := [Np.Num 0.8; Np.Num 0.2; Np.Num 0.9; Np.Num 0.7] in
  let pyin := fun _ : list Np.npfloat =>
    Py.Ok (f0, [true; false; true; true], probs) in
  let s' := snd (Clean._analyze_audio_segment pyin [] (Gui.init nd)) in
  Gui.current_f0 s' = 100 /\ ~ Gui.current_f0 s' == Np.mean (Gui.survivors f0 probs).
Proof.
  intros nd f0 probs pyin s'.
  destruct (aggregate_is_median pyin [] (Gui.init nd) f0
              [true; false; true; true] probs eq_refl eq_refl
              ltac:(discriminate)) as (_ & H1 & _ & H2).
  split.
  - apply H1. reflexivity.
  - apply H2; [reflexivity|]. intro E. vm_compute in E. discriminate E.
Defined.

(** C7.  When the analysis publishes a detected f0 and the nearest table
    frequency [c] is positive, the published note confidence is
    [max(0, 100 - (|f0 - c| / c) * 100 * K)] clamped to [0, 100], with
    [K = 10]; it lies in [0, 100]; it is 100 when f0 equals [c]; a
    frequency at a larger distance from [c] gets no higher a
    confidence, and a strictly lower one as long as the nearer one is
    not clamped at 0. *)
Theorem note_confidence_formula
    (pyin : list Np.npfloat -> Py.result Gui.pyin_out)
    (segment : list Np.npfloat) (s : Gui.state)
    (f0 : list Np.npfloat) (fl : list bool) (probs : list Np.npfloat)
    (w j : string) (c : Q) :
  pyin segment = Py.Ok (f0, fl, probs) ->
  length f0 = length probs ->
  Gui.survivors f0 probs <> [] ->
  let d := Np.median (Gui.survivors f0 probs) in
  Gui.in_band d = true ->
  Notes.frequency_to_note d (Gui.note_data s) = (w, j, c) ->
  0 < c ->
  let s' := snd (Clean._analyze_audio_segment pyin segment s) in
  Gui.current_f0 s' = d
  /\ Gui.note_confidence s' == Spec.confidence 10 d c
  /\ 0 <= Gui.note_confidence s' <= 100
  /\ (d == c -> Gui.note_confidence s' == 100)
  /\ (forall d', Qabs (d - c) <= Qabs (d' - c) ->
        Spec.confidence 10 d' c <= Gui.note_confidence s')
  /\ (forall d', Qabs (d - c) < Qabs (d' - c) -> 0 < Gui.note_confidence s' ->
        Spec.confidence 10 d' c < Gui.note_confidence s').
Proof.
  intros Hp Hlen Hs d Hb Hf Hc s'.
  pose proof (analyze_voiced pyin segment s f0 fl probs Hp Hlen Hs Hb) as H.
  cbv zeta in H. fold d in H. rewrite Hf in H.
  apply ltb_lt in Hc. rewrite Hc in H. apply ltb_lt in Hc.
  assert (E : Gui.note_confidence s' == Spec.confidence 10 d c).
  { unfold s'. rewrite H. simpl. apply code_confidence_spec. }
  split; [unfold s'; rewrite H; reflexivity|].
  split; [exact E|]. split; [|split; [|split]].
  - rewrite E. apply spec_confidence_bounds.
  - intro Hd. rewrite E. apply spec_confidence_exact, Hd.
  - intros d' Hd. rewrite E.
    apply spec_confidence_monotone; [reflexivity|exact Hc|exact Hd].
  - intros d' Hd Hpos. rewrite E. rewrite E in Hpos.
    apply spec_confidence_strict; [reflexivity|exact Hc|exact Hd|exact Hpos].
Qed.

(** 440 Hz against the fallback table, where A4 is 440 Hz: a witness for
    C7, with confidence 100. *)
Lemma note_confidence_formula_witness :
  let nd := {| Notes.note_frequencies := Notes.default_table |} in
  let pyin := fun _ : list Np.npfloat =>
    Py.Ok ([Np.Num 440], [true], [Np.Num 0.9]) in
  let s' := snd (Clean._analyze_audio_segment pyin [] (Gui.init nd)) in
  Gui.note_confidence s' == 100.
Proof.
  intros nd pyin s'.
  destruct (note_confidence_formula pyin [] (Gui.init nd)
              [Np.Num 440] [true] [Np.Num 0.9] "A4" "ラ" 440.00
              eq_refl eq_refl ltac:(discriminate) eq_refl eq_refl eq_refl)
    as (_ & _ & _ & H & _).
  apply H. reflexivity.
Defined.

(** ** The volume *)

Section Volume.

Lemma floor_nonneg (x : Q) : 0 <= x -> (0 <= Qfloor x)%Z.
Proof. intro H. apply (Qfloor_resp_le 0 x H). Qed.

(** Truncation and clamp, in the order of the clean callback. *)
Lemma clamp_int (x : Q) :
  0 <= x ->
  let i := Py.int x in
  (if (i <? 100)%Z then i else 100%Z) = Z.min 100 (Qfloor x).
Proof.
  intro H. cbv zeta. rewrite (py_int_floor x H).
  destruct (Z.ltb_spec (Qfloor x) 100); lia.
Qed.

(** Clamp and truncation, in the order of the first version. *)
Lemma int_clamp (x : Q) :
  0 <= x -> Py.int (Py.min x 100) = Z.min 100 (Qfloor x).
Proof.
  intro H. unfold Py.min. destruct (Py.ltb 100 x) eqn:E.
  - apply ltb_lt in E.
    pose proof (Qfloor_resp_le 100 x (Qlt_le_weak _ _ E)) as Hf.
    change (Qfloor 100) with 100%Z in Hf.
    change (Py.int 100) with 100%Z. lia.
  - apply ltb_ge in E.
    pose proof (Qfloor_resp_le x 100 E) as Hf.
    change (Qfloor 100) with 100%Z in Hf.
    rewrite (py_int_floor x H). lia.
Qed.

Lemma percent_bounds (x : Q) :
  0 <= x -> (0 <= Z.min 100 (Qfloor x) <= 100)%Z.
Proof. intro H. pose proof (floor_nonneg x H). lia. Qed.

(** *** float32 products *)

Lemma nearest_even_nonneg (x : Q) : 0 <= x -> (0 <= Np.nearest_even x)%Z.
Proof.
  intro H. unfold Np.nearest_even. pose proof (floor_nonneg x H) as Hf.
  destruct (Qcompare _ _); [destruct (Z.even _)| |]; lia.
Qed.

Lemma float32_pos_nonneg (x y : Q) :
  0 <= x -> Np.float32_pos x = Some y -> 0 <= y.
Proof.
  intros Hx. unfold Np.float32_pos.
  set (e := Z.max (Np.ilog2 x - 23) (-149)).
  destruct (Qle_bool _ _); [discriminate|].
  intro E. injection E as E. subst y.
  assert (Hp : 0 < 2 ^ e) by (apply Qpower_0_lt; reflexivity).
  apply Qmult_le_0_compat; [|apply Qlt_le_weak; exact Hp].
  change 0 with (inject_Z 0). rewrite <- Zle_Qle.
  apply nearest_even_nonneg.
  apply Qle_shift_div_l; [exact Hp|]. rewrite Qmult_0_l. exact Hx.
Qed.

(** The rounded product of numbers that are not negative is not
    negative, and never [-inf]. *)
Lemma float32_nonneg (x : Q) :
  0 <= x ->
  match Np.float32 x with
  | Np.Finite p => 0 <= p
  | Np.Overflow b => b = true
  end.
Proof.
  intro Hx. unfold Np.float32.
  assert (Hr : 0 <= Qred x) by (rewrite Qred_correct; exact Hx).
  destruct (Qnum (Qred x)) as [|n|n] eqn:En.
  - apply Qle_refl.
  - destruct (Np.float32_pos (Qred x)) as [y|] eqn:Ey; [|reflexivity].
    rewrite Qred_correct. exact (float32_pos_nonneg _ _ Hr Ey).
  - exfalso. unfold Qle in Hr. rewrite En in Hr. simpl in Hr. lia.
Qed.


(** Known values: 0.1 and -1/3 as float32, halves to the even
    neighbour, overflow. *)
Example float32_values :
  Np.float32 (1 # 10) = Np.Finite (13421773 # 134217728)
  /\ Np.float32 (- (1 # 3)) = Np.Finite (- (11184811 # 33554432))
  /\ Np.float32 16777217 = Np.Finite 16777216
  /\ Np.float32 16777219 = Np.Finite 16777220
  /\ Np.float32 (2 ^ 128) = Np.Overflow true.
Proof. vm_compute. repeat split. Qed.

(** The float32 just below 0.09 as root mean square: the exact product
    with 100 is below 9, the float32 product is 9.0, and 9 is what the
    callback publishes. *)
Example rounded_product_before_int :
  Clean.int_percent (Np.Num (12079595 # 134217728)) = Py.Ok 9%Z
  /\ Qfloor ((12079595 # 134217728) * 100) = 8%Z.
Proof. vm_compute. split; reflexivity. Qed.

(** *** The mean square *)








Variable pyin : list Np.npfloat -> Py.result Gui.pyin_out.
Variable hz_to_note : Q -> string.
Variable np_sqrt : Q -> Q.

(** The clean callback publishes the truncated float32 product. *)
Lemma clean_volume (indata : list Np.npfloat) (s : Gui.state) (r p : Q) :
  Clean.rms np_sqrt (Np.scale Clean.GAIN_MULTIPLIER indata) = Np.Num r ->
  0 <= r ->
  Np.float32 (r * 100) = Np.Finite p ->
  Gui.current_volume (snd (Clean.audio_callback np_sqrt indata s))
  = Z.min 100 (Qfloor p)
  /\ 0 <= p.
Proof.
  intros Hr H0 Hp.
  assert (Hpos : 0 <= p).
  { pose proof (float32_nonneg (r * 100)) as H. rewrite Hp in H.
    apply H. apply Qmult_le_0_compat; [exact H0|discriminate]. }
  split; [|exact Hpos].
  unfold Clean.audio_callback, Py.try_except, Py.bind, Py.lift, Py.modify.
  rewrite Hr. unfold Clean.int_percent. rewrite Hp. cbv beta iota.
  cbn [snd Gui.current_volume Gui.set_current_volume].
  apply clamp_int. exact Hpos.
Qed.

(** A callback that fails on [nan] or [inf] keeps the volume it had. *)
Lemma clean_volume_kept (indata : list Np.npfloat) (s : Gui.state) :
  Clean.rms np_sqrt (Np.scale Clean.GAIN_MULTIPLIER indata) = Np.NaN
  \/ (exists r b,
        Clean.rms np_sqrt (Np.scale Clean.GAIN_MULTIPLIER indata) = Np.Num r
        /\ Np.float32 (r * 100) = Np.Overflow b) ->
  Gui.current_volume (snd (Clean.audio_callback np_sqrt indata s))
  = Gui.current_volume s.
Proof.
  intros [Hr|(r & b & Hr & Hp)];
    unfold Clean.audio_callback, Py.try_except, Py.bind, Py.lift, Py.modify;
    rewrite Hr; unfold Clean.int_percent; [|rewrite Hp]; reflexivity.
Qed.



(** The percentage of the first version for a root mean square that is
    not negative. *)
Lemma legacy_percent (r : Q) :
  0 <= r ->
  exists v, Legacy.volume_percent (Np.Num r) = Py.Ok v /\ (0 <= v <= 100)%Z.
Proof.
  intro H0. unfold Legacy.volume_percent.
  pose proof (float32_nonneg (r * 200)) as Hf.
  destruct (Np.float32 (r * 200)) as [p|b].
  - assert (Hp : 0 <= p)
      by (apply Hf; apply Qmult_le_0_compat; [exact H0|discriminate]).
    eexists. split; [reflexivity|].
    rewrite (int_clamp p Hp). apply percent_bounds. exact Hp.
  - rewrite Hf by (apply Qmult_le_0_compat; [exact H0|discriminate]).
    eexists. split; [reflexivity|]. lia.
Qed.

(** Whatever the block, the clean callback leaves a percentage. *)
Lemma clean_volume_range (indata : list Np.npfloat) (s : Gui.state) :
  (forall m, 0 <= np_sqrt m) ->
  (0 <= Gui.current_volume s <= 100)%Z ->
  (0 <= Gui.current_volume (snd (Clean.audio_callback np_sqrt indata s))
   <= 100)%Z.
Proof.
  intros Hsqrt Hs.
  destruct (Clean.rms np_sqrt (Np.scale Clean.GAIN_MULTIPLIER indata))
    as [r|] eqn:Er.
  - assert (H0 : 0 <= r).
    { unfold Clean.rms in Er.
      destruct (Np.mean_arr _) as [m|]; [|discriminate Er].
      inversion Er. apply Hsqrt. }
    destruct (Np.float32 (r * 100)) as [p|b] eqn:Ep.
    + destruct (clean_volume indata s r p Er H0 Ep) as [Hv Hp].
      rewrite Hv. apply percent_bounds. exact Hp.
    + rewrite (clean_volume_kept indata s); [exact Hs|].
      right. exists r, b. split; [exact Er|exact Ep].
  - rewrite (clean_volume_kept indata s); [exact Hs|]. left. exact Er.
Qed.


End Volume.

(** ** The backup variant *)

Section BackupAnalysis.

Import Notes Gui.

Variable pyin : list Np.npfloat -> Py.result pyin_out.

Lemma frequency_to_note_empty (f : Q) (nd : Notes.note_data) :
  note_frequencies nd = [] -> frequency_to_note f nd = (NA, NA, 0).
Proof.
  intro H. unfold frequency_to_note. rewrite H.
  destruct (Py.leb f 0); reflexivity.
Qed.

(** The aggregate leaves the state alone. *)
Lemma aggregate_state (f0 probs : list Np.npfloat) (valid : list Q)
    (s : state) :
  snd (Backup.aggregate f0 probs valid s) = s.
Proof.
  unfold Backup.aggregate, Py.bind, Py.lift, Py.ret.
  destruct (0 <? length probs)%nat; [|reflexivity].
  destruct (Np.index_mask f0 (Np.gt_half probs)) as [cf|e]; [|reflexivity].
  destruct (0 <? length cf)%nat; [|reflexivity].
  destruct (0 <? length (Np.valid cf))%nat; reflexivity.
Qed.

(** The backup analysis always returns, and touches the pitch fields
    only. *)
Lemma backup_analyze_frame (segment : list Np.npfloat) (s : state) :
  exists f n j c,
    Backup._analyze_audio_segment pyin segment s
    = (Py.Ok tt, with_pitch f n j c s).
Proof.
  unfold Backup._analyze_audio_segment, Backup.analyze_try, Py.try_except.
  unfold Py.bind at 1. unfold Py.lift at 1.
  destruct (pyin segment) as [[[f0 fl] probs]|e].
  2:{ do 4 eexists. reflexivity. }
  destruct (0 <? length (Np.valid f0))%nat.
  2:{ do 4 eexists. reflexivity. }
  unfold Py.bind at 1.
  pose proof (aggregate_state f0 probs (Np.valid f0) s) as Hs.
  destruct (Backup.aggregate f0 probs (Np.valid f0) s) as [[avg|e] s0];
    simpl in Hs; subst s0.
  2:{ do 4 eexists. reflexivity. }
  destruct (Py.leb 75 avg && Py.leb avg 1200).
  2:{ do 4 eexists. reflexivity. }
  unfold Py.bind, Py.modify, Py.gets, Py.lift. simpl.
  destruct (frequency_to_note avg (note_data s)) as [[w j] c].
  destruct (Py.ltb 0 c) eqn:Ec.
  - rewrite (div_guarded _ c Ec). do 4 eexists. reflexivity.
  - do 4 eexists. reflexivity.
Qed.

(** With an empty table no note is named and the confidence is 0,
    whether a pitch is published or not. *)
Lemma backup_analyze_empty_table (segment : list Np.npfloat) (s : state) :
  note_frequencies (note_data s) = [] ->
  exists f,
    Backup._analyze_audio_segment pyin segment s
    = (Py.Ok tt, with_pitch f NA NA 0 s).
Proof.
  intro Hnd.
  unfold Backup._analyze_audio_segment, Backup.analyze_try, Py.try_except.
  unfold Py.bind at 1. unfold Py.lift at 1.
  destruct (pyin segment) as [[[f0 fl] probs]|e].
  2:{ eexists. reflexivity. }
  destruct (0 <? length (Np.valid f0))%nat.
  2:{ eexists. reflexivity. }
  unfold Py.bind at 1.
  pose proof (aggregate_state f0 probs (Np.valid f0) s) as Hs.
  destruct (Backup.aggregate f0 probs (Np.valid f0) s) as [[avg|e] s0];
    simpl in Hs; subst s0.
  2:{ eexists. reflexivity. }
  destruct (Py.leb 75 avg && Py.leb avg 1200).
  2:{ eexists. reflexivity. }
  unfold Py.bind, Py.modify, Py.gets, Py.lift. simpl.
  rewrite (frequency_to_note_empty avg (note_data s) Hnd).
  exists avg. reflexivity.
Qed.

(** In the backup variant an in-band mean is published with the empty
    table: the pitch is shown, the note is not. *)
Lemma backup_analyze_empty_table_voiced (segment : list Np.npfloat)
    (s : state) (f0 : list Np.npfloat) (fl : list bool)
    (probs : list Np.npfloat) (avg : Q) :
  note_frequencies (note_data s) = [] ->
  pyin segment = Py.Ok (f0, fl, probs) ->
  Np.valid f0 <> [] ->
  fst (Backup.aggregate f0 probs (Np.valid f0) s) = Py.Ok avg ->
  in_band avg = true ->
  Backup._analyze_audio_segment pyin segment s
  = (Py.Ok tt, with_pitch avg NA NA 0 s).
Proof.
  intros Hnd Hp Hv Ha Hb.
  unfold Backup._analyze_audio_segment, Backup.analyze_try, Py.try_except.
  unfold Py.bind at 1. unfold Py.lift at 1. rewrite Hp.
  apply length_pos_nonempty in Hv. rewrite Hv.
  unfold Py.bind at 1.
  pose proof (aggregate_state f0 probs (Np.valid f0) s) as Hs.
  destruct (Backup.aggregate f0 probs (Np.valid f0) s) as [r s0].
  simpl in Hs, Ha. subst s0 r.
  unfold in_band in Hb. rewrite Hb.
  unfold Py.bind, Py.modify, Py.gets, Py.lift. simpl.
  rewrite (frequency_to_note_empty avg (note_data s) Hnd).
  reflexivity.
Qed.

End BackupAnalysis.




(** C9.  When reading the note table fails, [load_note_frequencies] of
    the clean variant returns the embedded table: it is not empty, it
    holds the seven natural notes C4, D4, E4, F4, G4, A4 and B4 of one
    octave, under these keys and western names, and every frequency in
    it is positive.  A table that was read is returned as it is. *)
Theorem fallback_table_default (e : Py.exn) :
  let nd := Clean.load_note_frequencies (Py.Raise e) in
  let t := Notes.note_frequencies nd in
  t = Notes.default_table
  /\ t <> []
  /\ map fst t = ["C4"; "D4"; "E4"; "F4"; "G4"; "A4"; "B4"]%string
  /\ map (fun kv => Notes.western (snd kv)) t
     = ["C4"; "D4"; "E4"; "F4"; "G4"; "A4"; "B4"]%string
  /\ Forall (fun kv => 0 < Notes.frequency (snd kv)) t
  /\ (forall d, Clean.load_note_frequencies (Py.Ok d) = d).
Proof.
  cbv zeta. split; [reflexivity|]. split; [discriminate|].
  split; [reflexivity|]. split; [reflexivity|]. split.
  - simpl. repeat constructor.
  - intro d. reflexivity.
Qed.

(** C10.  The table that the backup variant falls back to is empty.  In a
    state with this table [frequency_to_note] returns N/A, N/A and 0.0
    for every frequency [f > 0], and [_analyze_audio_segment] of the
    backup variant returns normally with both note names N/A and
    confidence 0: the division by [closest_freq], which would raise for
    0.0, is not reached behind the guard [closest_freq > 0], and a
    detected in-band pitch is still published. *)
Theorem empty_table_degrades
    (pyin : list Np.npfloat -> Py.result Gui.pyin_out)
    (segment : list Np.npfloat) (s : Gui.state) (e : Py.exn) :
  Gui.note_data s = Backup.load_note_frequencies (Py.Raise e) ->
  Notes.note_frequencies (Gui.note_data s) = []
  /\ (forall f, 0 < f ->
        Notes.frequency_to_note f (Gui.note_data s) = (Notes.NA, Notes.NA, 0))
  /\ (let r := Backup._analyze_audio_segment pyin segment s in
      fst r = Py.Ok tt
      /\ Gui.current_note (snd r) = Notes.NA
      /\ Gui.current_japanese_note (snd r) = Notes.NA
      /\ Gui.note_confidence (snd r) = 0)
  /\ (forall f0 fl probs avg,
        pyin segment = Py.Ok (f0, fl, probs) ->
        Np.valid f0 <> [] ->
        fst (Backup.aggregate f0 probs (Np.valid f0) s) = Py.Ok avg ->
        Gui.in_band avg = true ->
        Gui.current_f0 (snd (Backup._analyze_audio_segment pyin segment s)) = avg)
  /\ (forall freq_diff, Py.div freq_diff 0 = Py.Raise Py.ZeroDivisionError).
Proof.
  intro Hnd.
  assert (Ht : Notes.note_frequencies (Gui.note_data s) = []).
  { rewrite Hnd. reflexivity. }
  split; [exact Ht|]. split; [|split; [|split]].
  - intros f _. apply frequency_to_note_empty, Ht.
  - cbv zeta.
    destruct (backup_analyze_empty_table pyin segment s Ht) as [f E].
    rewrite E. repeat split.
  - intros f0 fl probs avg Hp Hv Ha Hb.
    rewrite (backup_analyze_empty_table_voiced pyin segment s f0 fl probs avg
               Ht Hp Hv Ha Hb).
    reflexivity.
  - intro freq_diff. reflexivity.
Qed.

(** A confident estimate of 440 Hz against the empty table: a witness
    for C10. *)
Lemma empty_table_degrades_witness :
  let nd := Backup.load_note_frequencies (Py.Raise Py.LibraryError) in
  let pyin := fun _ : list Np.npfloat =>
    Py.Ok ([Np.Num 440], [true], [Np.Num 0.9]) in
  let r := Backup._analyze_audio_segment pyin [] (Gui.init nd) in
  Gui.current_f0 (snd r) = Np.mean [440]
  /\ Gui.current_note (snd r) = Notes.NA
  /\ Gui.note_confidence (snd r) = 0.
Proof.
  intros nd pyin r.
  destruct (empty_table_degrades pyin [] (Gui.init nd) Py.LibraryError eq_refl)
    as (_ & _ & (_ & Hn & _ & Hc) & Hf & _).
  split; [|split; [exact Hn|exact Hc]].
  apply (Hf [Np.Num 440] [true] [Np.Num 0.9] (Np.mean [440]) eq_refl
           ltac:(discriminate) eq_refl eq_refl).
Defined.

(** ** Where the other variants differ *)

Section Variants.

Import Gui.

Variable pyin : list Np.npfloat -> Py.result pyin_out.

(** The loop of the backup variant removes the whole frame: its windows
    do not overlap. *)
Remark backup_loop_discards_frame (s : state) :
  (Backup.FRAME_LENGTH <= length (audio_buffer s))%nat ->
  audio_buffer (snd (Backup.audio_loop_body pyin s))
  = skipn Backup.FRAME_LENGTH (audio_buffer s).
Proof.
  intro H.
  unfold Backup.audio_loop_body, Py.try_except, Py.bind, Py.gets.
  change (Backup.CHUNK * 2)%nat with Backup.FRAME_LENGTH.
  apply Nat.leb_le in H. rewrite H. apply Nat.leb_le in H.
  unfold Py.modify at 1.
  assert (Hl : (0 <? length (firstn Backup.FRAME_LENGTH (audio_buffer s)))%nat
               = true).
  { apply Nat.ltb_lt. rewrite length_firstn.
    unfold Backup.FRAME_LENGTH, Backup.CHUNK in *. lia. }
  rewrite Hl.
  destruct (backup_analyze_frame pyin
              (firstn Backup.FRAME_LENGTH (audio_buffer s))
              (set_audio_buffer
                 (Deque.popleft_n Backup.FRAME_LENGTH (audio_buffer s)) s))
    as (f & n & j & c & E).
  rewrite E. cbn [snd]. unfold with_pitch.
  cbn [audio_buffer set_note_confidence set_current_japanese_note
       set_current_note set_current_f0 set_audio_buffer].
  apply popleft_n_skipn.
Qed.

(** The backup variant returns normally as well. *)
Remark backup_analysis_never_raises (segment : list Np.npfloat) (s : state) :
  fst (Backup._analyze_audio_segment pyin segment s) = Py.Ok tt.
Proof.
  destruct (backup_analyze_frame pyin segment s) as (f & n & j & c & E).
  rewrite E. reflexivity.
Qed.

End Variants.

(** The backup variant publishes the mean of the confident estimates:
    200 Hz for 100, 100 and 400 Hz. *)
Example backup_aggregates_mean :
  let nd := {| Notes.note_frequencies := Notes.default_table |} in
  let pyin := fun _ : list Np.npfloat =>
    Py.Ok ([Np.Num 100; Np.Num 900; Np.Num 400; Np.Num 100],
           [true; false; true; true],
           [Np.Num 0.8; Np.Num 0.2; Np.Num 0.9; Np.Num 0.7]) in
  Gui.current_f0 (snd (Backup._analyze_audio_segment pyin [] (Gui.init nd)))
  == 200.
Proof. vm_compute. reflexivity. Qed.

(** The first version stops the analysis when a pass fails. *)
Example legacy_stops_on_error :
  let s := {| Legacy.is_running := true; Legacy.stream_open := false;
              Legacy.current_f0 := 440; Legacy.current_note := "A4";
              Legacy.current_volume := 37%Z |} in
  let pyin := fun _ : list Np.npfloat =>
    @Py.Raise Gui.pyin_out Py.LibraryError in
  Legacy.audio_loop_body pyin (fun _ => "A4"%string) (fun x => x)
    (Py.Ok [32767%Z]) s
  = (Py.Ok tt,
     {| Legacy.is_running := false; Legacy.stream_open := false;
        Legacy.current_f0 := 0; Legacy.current_note := "N/A";
        Legacy.current_volume := 0%Z |}).
Proof. reflexivity. Qed.

(** C1 as stated fails when the producer overflows the buffer between
    two iterations: the oldest samples are lost before they are framed.
    With a full buffer of numbered samples and two blocks of [CHUNK]
    samples arriving after an iteration, the run takes two windows; the
    second starts [2 * HOP_LENGTH] samples after the first and not
    [HOP_LENGTH], and the two do not overlap. *)
Lemma consecutive_windows_apart_after_overflow :
  let nd := {| Notes.note_frequencies := Notes.default_table |} in
  let numbered (from n : nat) :=
    map (fun i => Np.Num (inject_Z (Z.of_nat i))) (seq from n) in
  let pyin := fun _ : list Np.npfloat =>
    @Py.Raise Gui.pyin_out Py.LibraryError in
  let s := Gui.set_audio_buffer (numbered 0%nat Clean.BUFFER_MAXLEN)
             (Clean.start_analysis (Gui.init nd)) in
  let schedule :=
    [[]; [numbered (10 * Clean.CHUNK) Clean.CHUNK;
          numbered (11 * Clean.CHUNK) Clean.CHUNK]]%nat in
  let stream := Gui.audio_buffer s ++ Clean.pushed (concat schedule) in
  exists w1 w2,
    fst (Clean._audio_loop pyin (fun x => x) schedule s) = [w1; w2]
    /\ w1 = firstn Clean.FRAME_LENGTH stream
    /\ w2 = firstn Clean.FRAME_LENGTH (skipn (2 * Clean.HOP_LENGTH) stream)
    /\ w2 <> firstn Clean.FRAME_LENGTH (skipn Clean.HOP_LENGTH stream)
    /\ firstn (Clean.FRAME_LENGTH - Clean.HOP_LENGTH) w2
       <> skipn Clean.HOP_LENGTH w1
    /\ hd Np.NaN w1 = Np.Num 0
    /\ hd Np.NaN w2 = Np.Num 2048.
Proof.
  cbv zeta. eexists. eexists.
  split; [vm_compute; reflexivity|].
  split; [vm_compute; reflexivity|].
  split; [vm_compute; reflexivity|].
  split; [|split; [|split]].
  - intro E. apply (f_equal (hd Np.NaN)) in E. vm_compute in E.
    discriminate E.
  - intro E. apply (f_equal (hd Np.NaN)) in E. vm_compute in E.
    discriminate E.
  - vm_compute. reflexivity.
  - vm_compute. reflexivity.
Qed.

(** * Further properties of the code *)

(** ** Invariants of a clean session *)

Section SessionInvariants.

Import Notes Gui.

Variable pyin : list Np.npfloat -> Py.result pyin_out.
Variable np_sqrt : Q -> Q.

(** What the analysis can publish. *)
Lemma analyze_outcome (segment : list Np.npfloat) (s : state) :
  let s' := snd (Clean._analyze_audio_segment pyin segment s) in
  s' = with_pitch 0 NA NA 0 s
  \/ exists d w j c conf,
       in_band d = true
       /\ frequency_to_note d (note_data s) = (w, j, c)
       /\ 0 <= conf <= 100
       /\ s' = with_pitch d w j conf s.
Proof.
  cbv zeta.
  unfold Clean._analyze_audio_segment, Clean.analyze_try, Py.try_except,
    Py.bind, Py.lift, Py.modify, Py.gets, Py.ret.
  destruct (pyin segment) as [[[f0 fl] probs]|e]; [|left; reflexivity].
  destruct (0 <? length (Np.valid f0))%nat; [|left; reflexivity].
  destruct (Np.index_mask f0 (Np.gt_half probs)) as [cf|e];
    [|left; reflexivity].
  destruct (0 <? length (Np.valid cf))%nat; [|left; reflexivity].
  set (d := Np.median (Np.valid cf)).
  destruct (Py.leb 75 d && Py.leb d 1200) eqn:Eb; [|left; reflexivity].
  right. cbn [fst snd unvoiced].
  destruct (frequency_to_note d _) as [[w j] c] eqn:Ef.
  cbn [note_data set_current_f0] in Ef.
  destruct (Py.ltb 0 c) eqn:Ec.
  - rewrite (div_guarded _ c Ec).
    exists d, w, j, c.
    exists (Py.min 100 (Py.max 0 (100 - (Qabs (d - c) / c * 100 * 10)))).
    split; [exact Eb|]. split; [exact Ef|]. split; [|reflexivity].
    rewrite code_confidence_spec. apply spec_confidence_bounds.
  - exists d, w, j, c, 0.
    split; [exact Eb|]. split; [exact Ef|]. split; [|reflexivity].
    split; discriminate.
Qed.

Lemma analyze_published_ok (segment : list Np.npfloat) (s : state) :
  Inv.published_ok (snd (Clean._analyze_audio_segment pyin segment s)).
Proof.
  destruct (analyze_outcome segment s)
    as [E|(d & w & j & c & conf & Hb & Hf & Hc & E)];
    cbv zeta in E; rewrite E.
  - left. repeat split.
  - right. split; [exact Hb|]. split; [|exact Hc].
    exists c. exact Hf.
Qed.

(** The pitch fields and the table decide [published_ok]. *)
Lemma published_ok_same (s s' : state) :
  current_f0 s' = current_f0 s ->
  current_note s' = current_note s ->
  current_japanese_note s' = current_japanese_note s ->
  note_confidence s' = note_confidence s ->
  note_data s' = note_data s ->
  Inv.published_ok s -> Inv.published_ok s'.
Proof.
  intros E1 E2 E3 E4 E5. unfold Inv.published_ok.
  rewrite E1, E2, E3, E4, E5. exact (fun H => H).
Qed.

(** What the callback can change: the buffer, and the volume unless the
    block makes [int] fail. *)
Lemma callback_shape (indata : list Np.npfloat) (s : state) :
  let b := Deque.extend Clean.BUFFER_MAXLEN (audio_buffer s)
             (Np.scale Clean.GAIN_MULTIPLIER indata) in
  let s' := snd (Clean.audio_callback np_sqrt indata s) in
  s' = set_audio_buffer b s
  \/ exists v, s' = set_current_volume v (set_audio_buffer b s).
Proof.
  cbv zeta.
  unfold Clean.audio_callback, Py.try_except, Py.bind, Py.lift, Py.modify.
  destruct (Clean.int_percent _) as [i|e].
  - right. eexists. reflexivity.
  - left. reflexivity.
Qed.

Lemma append_length {A} (m : nat) (d : list A) (x : A) :
  (length d <= m)%nat ->
  length (Deque.append m d x) = Nat.min m (S (length d)).
Proof.
  intro H. rewrite append_lastn by exact H.
  rewrite lastn_length, length_app. simpl. lia.
Qed.

Lemma append_Forall {A} (P : A -> Prop) (m : nat) (d : list A) (x : A) :
  Forall P d -> P x -> Forall P (Deque.append m d x).
Proof.
  intros Hd Hx. unfold Deque.append. cbv zeta.
  assert (H : Forall P (d ++ [x])).
  { apply Forall_app. split; [exact Hd|]. constructor; [exact Hx|constructor]. }
  destruct (m <? length (d ++ [x]))%nat; [|exact H].
  destruct (d ++ [x]) as [|y t]; [constructor|].
  simpl. inversion H. assumption.
Qed.

(** The point that [record_history] adds for a consistent state. *)
Lemma history_point_ok (s : state) :
  Inv.published_ok s ->
  Inv.frequency_point_ok
    (if Py.ltb 0 (current_f0 s) then Np.Num (current_f0 s) else Np.NaN).
Proof.
  intros [(E & _)|(Hb & _)].
  - rewrite E. exact I.
  - destruct (Py.ltb 0 (current_f0 s)); [exact Hb|exact I].
Qed.

Lemma record_history_ok (s : state) :
  Inv.published_ok s -> Inv.history_ok s ->
  Inv.history_ok (Clean.record_history s).
Proof.
  intros Hp (Hl & Hb & Hf). unfold Inv.history_ok, Clean.record_history.
  cbn [volume_data frequency_data set_volume_data set_frequency_data
       current_f0 current_volume].
  rewrite !append_length by lia.
  split; [|split].
  - rewrite Hl. reflexivity.
  - lia.
  - apply append_Forall; [exact Hf|]. apply history_point_ok, Hp.
Qed.

Lemma record_history_volume_ok (s : state) :
  Inv.volume_ok s -> Inv.volume_ok (Clean.record_history s).
Proof.
  intros (Hv & Hd). unfold Inv.volume_ok, Clean.record_history.
  cbn [volume_data frequency_data set_volume_data set_frequency_data
       current_f0 current_volume].
  split; [exact Hv|]. apply append_Forall; assumption.
Qed.

(** The state after an iteration that analyses a window. *)
Lemma loop_body_shape (s : state) :
  (Clean.FRAME_LENGTH <= length (audio_buffer s))%nat ->
  exists f n j c,
    let a := with_pitch f n j c (Clean.advance s) in
    Inv.published_ok a
    /\ snd (Clean.audio_loop_body pyin s) = Clean.record_history a.
Proof.
  intro H. rewrite loop_body_window by exact H.
  pose proof (analyze_published_ok
                (firstn Clean.FRAME_LENGTH (audio_buffer s)) (Clean.advance s))
    as Hp.
  destruct (analyze_frame pyin (firstn Clean.FRAME_LENGTH (audio_buffer s))
              (Clean.advance s)) as (f & n & j & c & E).
  rewrite E in Hp |- *. exists f, n, j, c. split; [exact Hp|reflexivity].
Qed.

(** In every state of a session the published pitch is consistent, the
    graph histories run in step, and the table is the one loaded. *)
Lemma reachable_consistent (nd : Notes.note_data) (s : state) :
  Clean.reachable pyin np_sqrt nd s ->
  note_data s = nd /\ Inv.published_ok s /\ Inv.history_ok s.
Proof.
  induction 1 as [|s _ IH|s _ IH|s indata _ IH|s _ IH Hg].
  - split; [reflexivity|]. split.
    + left. repeat split.
    + repeat split; [apply Nat.le_0_l|constructor].
  - destruct IH as (Hn & Hp & Hh). unfold Clean.start_analysis.
    destruct (is_running s).
    + auto.
    + split; [exact Hn|]. split.
      * revert Hp. apply published_ok_same; reflexivity.
      * repeat split; [apply Nat.le_0_l|constructor].
  - destruct IH as (Hn & Hp & Hh). unfold Clean.stop_analysis.
    destruct (negb (is_running s)).
    + auto.
    + split; [exact Hn|]. split.
      * revert Hp. apply published_ok_same; reflexivity.
      * exact Hh.
  - destruct IH as (Hn & Hp & Hh).
    destruct (callback_shape indata s) as [E|[v E]]; cbv zeta in E; rewrite E.
    + split; [exact Hn|]. split.
      * revert Hp. apply published_ok_same; reflexivity.
      * exact Hh.
    + split; [exact Hn|]. split.
      * revert Hp. apply published_ok_same; reflexivity.
      * exact Hh.
  - destruct IH as (Hn & Hp & Hh).
    destruct (Nat.lt_ge_cases (length (audio_buffer s)) Clean.FRAME_LENGTH)
      as [Hlt|Hge].
    + rewrite loop_body_idle by exact Hlt. auto.
    + destruct (loop_body_shape s Hge) as (f & n & j & c & Ha & E).
      cbv zeta in Ha, E. rewrite E.
      split; [exact Hn|]. split.
      * revert Ha. apply published_ok_same; reflexivity.
      * apply record_history_ok; [exact Ha|exact Hh].
Qed.

Lemma reachable_volume_ok (nd : Notes.note_data) (s : state) :
  (forall m, 0 <= np_sqrt m) ->
  Clean.reachable pyin np_sqrt nd s -> Inv.volume_ok s.
Proof.
  intro Hsqrt.
  induction 1 as [|s _ IH|s _ IH|s indata _ IH|s _ IH Hg].
  - split; [simpl; lia|constructor].
  - unfold Clean.start_analysis. destruct (is_running s); [exact IH|].
    destruct IH as [Hv _]. split; [exact Hv|constructor].
  - unfold Clean.stop_analysis. destruct (negb (is_running s)); exact IH.
  - destruct IH as [Hv Hd]. split.
    + apply clean_volume_range; assumption.
    + destruct (callback_shape indata s) as [E|[v E]]; cbv zeta in E;
        rewrite E; exact Hd.
  - destruct (Nat.lt_ge_cases (length (audio_buffer s)) Clean.FRAME_LENGTH)
      as [Hlt|Hge].
    + rewrite loop_body_idle by exact Hlt. exact IH.
    + destruct (loop_body_shape s Hge) as (f & n & j & c & _ & E).
      cbv zeta in E. rewrite E.
      apply record_history_volume_ok. exact IH.
Qed.

End SessionInvariants.

(** ** What a session keeps true *)

(** X1.  In every state of a session the published pitch is all of a piece:
    either nothing is detected (0 Hz, ["N/A"] twice, confidence 0), or
    the frequency lies in the band, the two names are the ones
    [frequency_to_note] gives for that very frequency in the loaded
    table, and the confidence is a percentage. *)
Theorem session_pitch_consistent
    (pyin : list Np.npfloat -> Py.result Gui.pyin_out) (np_sqrt : Q -> Q)
    (nd : Notes.note_data) (s : Gui.state) :
  Clean.reachable pyin np_sqrt nd s ->
  Gui.note_data s = nd
  /\ ((Gui.current_f0 s = 0 /\ Gui.current_note s = Notes.NA
       /\ Gui.current_japanese_note s = Notes.NA
       /\ Gui.note_confidence s = 0)
      \/ (Gui.in_band (Gui.current_f0 s) = true
          /\ (exists c,
                Notes.frequency_to_note (Gui.current_f0 s) nd
                = (Gui.current_note s, Gui.current_japanese_note s, c))
          /\ 0 <= Gui.note_confidence s <= 100)).
Proof.
  intro H.
  destruct (reachable_consistent pyin np_sqrt nd s H) as (Hn & Hp & _).
  split; [exact Hn|]. rewrite <- Hn. exact Hp.
Qed.

(** X2.  The two graph histories of a session have the same length, at most
    [GRAPH_MAXLEN] points, and every frequency point is [nan] or a
    frequency of the band. *)
Theorem session_histories_in_step
    (pyin : list Np.npfloat -> Py.result Gui.pyin_out) (np_sqrt : Q -> Q)
    (nd : Notes.note_data) (s : Gui.state) :
  Clean.reachable pyin np_sqrt nd s ->
  length (Gui.volume_data s) = length (Gui.frequency_data s)
  /\ (length (Gui.volume_data s) <= Clean.GRAPH_MAXLEN)%nat
  /\ Forall Inv.frequency_point_ok (Gui.frequency_data s).
Proof.
  intro H.
  destruct (reachable_consistent pyin np_sqrt nd s H) as (_ & _ & Hh).
  exact Hh.
Qed.

(** X3.  With a square root that is never negative, the published volume and
    every point of the volume history are percentages, and the volume
    bar stays inside its canvas. *)
Theorem session_volume_in_range
    (pyin : list Np.npfloat -> Py.result Gui.pyin_out) (np_sqrt : Q -> Q)
    (nd : Notes.note_data) (s : Gui.state) :
  (forall m, 0 <= np_sqrt m) ->
  Clean.reachable pyin np_sqrt nd s ->
  (0 <= Gui.current_volume s <= 100)%Z
  /\ Forall (fun v => (0 <= v <= 100)%Z) (Gui.volume_data s)
  /\ forall winfo_width : Z,
       (0 <= winfo_width)%Z ->
       0 <= View.bar_width winfo_width (Gui.current_volume s)
       <= inject_Z winfo_width.
Proof.
  intros Hsqrt H.
  destruct (reachable_volume_ok pyin np_sqrt nd s Hsqrt H) as [Hv Hd].
  split; [exact Hv|]. split; [exact Hd|].
  intros w Hw. unfold View.bar_width.
  assert (H0 : 0 <= inject_Z (Gui.current_volume s)).
  { change 0 with (inject_Z 0). rewrite <- Zle_Qle. lia. }
  assert (H1 : inject_Z (Gui.current_volume s) <= 100).
  { change 100 with (inject_Z 100). rewrite <- Zle_Qle. lia. }
  assert (Hw' : 0 <= inject_Z w).
  { change 0 with (inject_Z 0). rewrite <- Zle_Qle. exact Hw. }
  split.
  - apply Qmult_le_0_compat; [exact Hw'|].
    apply Qle_shift_div_l; [reflexivity|]. lra.
  - rewrite <- (Qmult_1_r (inject_Z w)) at 2.
    rewrite !(Qmult_comm (inject_Z w)).
    apply Qmult_le_compat_r; [|exact Hw'].
    apply Qle_shift_div_r; [reflexivity|]. lra.
Qed.

Lemma session_pitch_consistent_witness :
  let nd := {| Notes.note_frequencies := Notes.default_table |} in
  let pyin := fun _ : list Np.npfloat =>
    Py.Ok ([Np.Num 440; Np.Num 440], [true; true],
           [Np.Num 0.9; Np.Num 0.9]) in
  let np_sqrt := fun _ : Q => 1 # 2 in
  let s :=
    snd (Clean.audio_loop_body pyin
           (snd (Clean.audio_callback np_sqrt
                   (repeat (Np.Num 1) Clean.FRAME_LENGTH)
                   (Clean.start_analysis (Gui.init nd))))) in
  Clean.reachable pyin np_sqrt nd s
  /\ Gui.note_data s = nd
  /\ ((Gui.current_f0 s = 0 /\ Gui.current_note s = Notes.NA
       /\ Gui.current_japanese_note s = Notes.NA
       /\ Gui.note_confidence s = 0)
      \/ (Gui.in_band (Gui.current_f0 s) = true
          /\ (exists c,
                Notes.frequency_to_note (Gui.current_f0 s) nd
                = (Gui.current_note s, Gui.current_japanese_note s, c))
          /\ 0 <= Gui.note_confidence s <= 100)).
Proof.
  cbv zeta.
  assert (Hr : Clean.reachable
                 (fun _ : list Np.npfloat =>
                    Py.Ok ([Np.Num 440; Np.Num 440], [true; true],
                           [Np.Num 0.9; Np.Num 0.9]))
                 (fun _ : Q => 1 # 2)
                 {| Notes.note_frequencies := Notes.default_table |}
                 (snd (Clean.audio_loop_body
                         (fun _ : list Np.npfloat =>
                            Py.Ok ([Np.Num 440; Np.Num 440], [true; true],
                                   [Np.Num 0.9; Np.Num 0.9]))
                         (snd (Clean.audio_callback (fun _ : Q => 1 # 2)
                                 (repeat (Np.Num 1) Clean.FRAME_LENGTH)
                                 (Clean.start_analysis
                                    (Gui.init
                                       {| Notes.note_frequencies :=
                                            Notes.default_table |}))))))).
  { apply Clean.reach_loop.
    - apply Clean.reach_callback, Clean.reach_start, Clean.reach_init.
    - vm_compute. reflexivity. }
  split; [exact Hr|].
  exact (session_pitch_consistent _ _ _ _ Hr).
Defined.

Lemma session_histories_in_step_witness :
  let nd := {| Notes.note_frequencies := Notes.default_table |} in
  let pyin := fun _ : list Np.npfloat =>
    Py.Ok ([Np.Num 440; Np.Num 440], [true; true],
           [Np.Num 0.9; Np.Num 0.9]) in
  let np_sqrt := fun _ : Q => 1 # 2 in
  let s :=
    snd (Clean.audio_loop_body pyin
           (snd (Clean.audio_callback np_sqrt
                   (repeat (Np.Num 1) Clean.FRAME_LENGTH)
                   (Clean.start_analysis (Gui.init nd))))) in
  Clean.reachable pyin np_sqrt nd s
  /\ length (Gui.volume_data s) = length (Gui.frequency_data s)
  /\ (length (Gui.volume_data s) <= Clean.GRAPH_MAXLEN)%nat
  /\ Forall Inv.frequency_point_ok (Gui.frequency_data s).
Proof.
  cbv zeta.
  assert (Hr : Clean.reachable
                 (fun _ : list Np.npfloat =>
                    Py.Ok ([Np.Num 440; Np.Num 440], [true; true],
                           [Np.Num 0.9; Np.Num 0.9]))
                 (fun _ : Q => 1 # 2)
                 {| Notes.note_frequencies := Notes.default_table |}
                 (snd (Clean.audio_loop_body
                         (fun _ : list Np.npfloat =>
                            Py.Ok ([Np.Num 440; Np.Num 440], [true; true],
                                   [Np.Num 0.9; Np.Num 0.9]))
                         (snd (Clean.audio_callback (fun _ : Q => 1 # 2)
                                 (repeat (Np.Num 1) Clean.FRAME_LENGTH)
                                 (Clean.start_analysis
                                    (Gui.init
                                       {| Notes.note_frequencies :=
                                            Notes.default_table |}))))))).
  { apply Clean.reach_loop.
    - apply Clean.reach_callback, Clean.reach_start, Clean.reach_init.
    - vm_compute. reflexivity. }
  split; [exact Hr|].
  exact (session_histories_in_step _ _ _ _ Hr).
Defined.

Lemma session_volume_in_range_witness :
  let nd := {| Notes.note_frequencies := Notes.default_table |} in
  let pyin := fun _ : list Np.npfloat =>
    @Py.Raise Gui.pyin_out Py.LibraryError in
  let np_sqrt := fun _ : Q => 1 # 2 in
  let s :=
    snd (Clean.audio_callback np_sqrt (repeat (Np.Num 1) Clean.CHUNK)
           (Clean.start_analysis (Gui.init nd))) in
  (forall m : Q, 0 <= np_sqrt m)
  /\ Clean.reachable pyin np_sqrt nd s
  /\ (0 <= Gui.current_volume s <= 100)%Z
  /\ Forall (fun v => (0 <= v <= 100)%Z) (Gui.volume_data s)
  /\ forall winfo_width : Z,
       (0 <= winfo_width)%Z ->
       0 <= View.bar_width winfo_width (Gui.current_volume s)
       <= inject_Z winfo_width.
Proof.
  cbv zeta.
  assert (Hs : forall m : Q, 0 <= (fun _ : Q => 1 # 2) m)
    by (intro m; discriminate).
  assert (Hr : Clean.reachable
                 (fun _ : list Np.npfloat =>
                    @Py.Raise Gui.pyin_out Py.LibraryError)
                 (fun _ : Q => 1 # 2)
                 {| Notes.note_frequencies := Notes.default_table |}
                 (snd (Clean.audio_callback (fun _ : Q => 1 # 2)
                         (repeat (Np.Num 1) Clean.CHUNK)
                         (Clean.start_analysis
                            (Gui.init
                               {| Notes.note_frequencies :=
                                    Notes.default_table |}))))).
  { apply Clean.reach_callback, Clean.reach_start, Clean.reach_init. }
  split; [exact Hs|]. split; [exact Hr|].
  exact (session_volume_in_range _ _ _ _ Hs Hr).
Defined.

(** ** Draining a backlog *)

Section Draining.

Import Gui.

Variable pyin : list Np.npfloat -> Py.result pyin_out.
Variable np_sqrt : Q -> Q.

Lemma hop_pos : (0 < Clean.HOP_LENGTH)%nat.
Proof. unfold Clean.HOP_LENGTH, Clean.CHUNK. lia. Qed.

Lemma windows_left_none (n : nat) :
  (n < Clean.FRAME_LENGTH)%nat -> Drain.windows_left n = 0%nat.
Proof.
  intro H. unfold Drain.windows_left. apply Nat.ltb_lt in H. rewrite H.
  reflexivity.
Qed.

Lemma windows_left_step (n : nat) :
  (Clean.FRAME_LENGTH <= n)%nat ->
  Drain.windows_left n = S (Drain.windows_left (n - Clean.HOP_LENGTH)).
Proof.
  intro H. pose proof hop_pos as Hh. pose proof hop_le_frame as Hf.
  unfold Drain.windows_left.
  destruct (Nat.ltb_spec n Clean.FRAME_LENGTH) as [Hlt|_]; [lia|].
  destruct (Nat.ltb_spec (n - Clean.HOP_LENGTH) Clean.FRAME_LENGTH)
    as [Hlt|Hge].
  - rewrite Nat.div_small by lia. reflexivity.
  - replace (n - Clean.FRAME_LENGTH)%nat
      with (n - Clean.HOP_LENGTH - Clean.FRAME_LENGTH + 1 * Clean.HOP_LENGTH)%nat
      by lia.
    rewrite Nat.div_add by lia. lia.
Qed.

(** After the last window fewer than a frame is left, but more than a
    frame less a hop. *)
Lemma windows_left_rest (n : nat) :
  (Clean.FRAME_LENGTH <= n)%nat ->
  (Clean.FRAME_LENGTH - Clean.HOP_LENGTH
   <= n - Drain.windows_left n * Clean.HOP_LENGTH < Clean.FRAME_LENGTH)%nat
  /\ (Drain.windows_left n * Clean.HOP_LENGTH <= n)%nat.
Proof.
  intro H. pose proof hop_pos as Hh. pose proof hop_le_frame as Hf.
  unfold Drain.windows_left.
  destruct (Nat.ltb_spec n Clean.FRAME_LENGTH) as [Hlt|_]; [lia|].
  pose proof (Nat.div_mod_eq (n - Clean.FRAME_LENGTH) Clean.HOP_LENGTH) as E.
  pose proof (Nat.mod_upper_bound (n - Clean.FRAME_LENGTH) Clean.HOP_LENGTH
                ltac:(lia)) as Hm.
  set (q := ((n - Clean.FRAME_LENGTH) / Clean.HOP_LENGTH)%nat) in *.
  set (r := ((n - Clean.FRAME_LENGTH) mod Clean.HOP_LENGTH)%nat) in *.
  nia.
Qed.

Lemma produce_nothing (s : state) : Clean.produce np_sqrt [] s = s.
Proof. reflexivity. Qed.

(** X4.  A backlog is worked off one hop per iteration: with nothing pushed
    meanwhile, [m] iterations of a running loop analyse
    [min m (windows_left n)] windows, [n] being the number of buffered
    samples, and each window shortens the buffer by [HOP_LENGTH]. *)
Theorem backlog_drains_hop_by_hop (m : nat) :
  forall s : state,
    Clean.loop_guard s = true ->
    let n := length (audio_buffer s) in
    let k := Nat.min m (Drain.windows_left n) in
    let r := Clean._audio_loop pyin np_sqrt (repeat [] m) s in
    length (fst r) = k
    /\ length (audio_buffer (snd r)) = (n - k * Clean.HOP_LENGTH)%nat.
Proof.
  induction m as [|m IH]; intros s Hg n k r.
  - subst r k. cbn [repeat Clean._audio_loop fst snd]. simpl. split; lia.
  - subst r. cbn [repeat Clean._audio_loop]. rewrite produce_nothing, Hg.
    set (s2 := snd (Clean.audio_loop_body pyin s)).
    assert (Hg2 : Clean.loop_guard s2 = true).
    { destruct (loop_body_frame pyin s) as (H1 & H2 & _).
      fold s2 in H1, H2. unfold Clean.loop_guard. rewrite H1, H2. exact Hg. }
    specialize (IH s2 Hg2). cbv zeta in IH.
    destruct (Clean._audio_loop pyin np_sqrt (repeat [] m) s2) as [ws s3].
    cbn [fst snd] in IH |- *. destruct IH as [IHw IHb].
    destruct (Nat.lt_ge_cases n Clean.FRAME_LENGTH) as [Hlt|Hge].
    + rewrite (window_of_none s Hlt).
      assert (E : s2 = s).
      { unfold s2. rewrite loop_body_idle by exact Hlt. reflexivity. }
      rewrite E in IHw, IHb. fold n in IHw, IHb.
      subst k. rewrite (windows_left_none n Hlt) in *.
      rewrite Nat.min_0_r in *. split; [exact IHw|exact IHb].
    + rewrite (window_of_some s Hge).
      assert (E : length (audio_buffer s2) = (n - Clean.HOP_LENGTH)%nat).
      { unfold s2. rewrite loop_body_buffer by exact Hge.
        apply length_skipn. }
      rewrite E in IHw, IHb.
      subst k. rewrite (windows_left_step n Hge).
      rewrite <- Nat.succ_min_distr. cbn [length].
      split; [rewrite IHw; reflexivity|].
      rewrite IHb. pose proof hop_le_frame. lia.
Qed.

End Draining.

Lemma backlog_drains_hop_by_hop_witness :
  let nd := {| Notes.note_frequencies := Notes.default_table |} in
  let pyin := fun _ : list Np.npfloat =>
    @Py.Raise Gui.pyin_out Py.LibraryError in
  let s := Gui.set_audio_buffer (repeat (Np.Num 0) (3 * Clean.CHUNK))
             (Clean.start_analysis (Gui.init nd)) in
  Clean.loop_guard s = true
  /\ length (fst (Clean._audio_loop pyin (fun x => x) (repeat [] 5) s))
     = Nat.min 5 (Drain.windows_left (length (Gui.audio_buffer s)))
  /\ length (Gui.audio_buffer
               (snd (Clean._audio_loop pyin (fun x => x) (repeat [] 5) s)))
     = (length (Gui.audio_buffer s)
        - Nat.min 5 (Drain.windows_left (length (Gui.audio_buffer s)))
          * Clean.HOP_LENGTH)%nat.
Proof.
  cbv zeta. split; [reflexivity|].
  exact (backlog_drains_hop_by_hop
           (fun _ : list Np.npfloat => @Py.Raise Gui.pyin_out Py.LibraryError)
           (fun x => x) 5
           (Gui.set_audio_buffer (repeat (Np.Num 0) (3 * Clean.CHUNK))
              (Clean.start_analysis
                 (Gui.init
                    {| Notes.note_frequencies := Notes.default_table |})))
           eq_refl).
Defined.


(** ** The confidence label *)

Section ConfidenceLabel.

Local Open Scope string_scope.

Lemma confidence_color_green (c : Q) :
  View.confidence_color c = "green" <-> 70 < c.
Proof.
  unfold View.confidence_color. destruct (Py.ltb 70 c) eqn:E.
  - apply ltb_lt in E. split; [intros _; exact E|reflexivity].
  - apply ltb_ge in E. split.
    + destruct (Py.ltb 40 c); discriminate.
    + intro H. exfalso. apply (Qlt_not_le _ _ H E).
Qed.

Lemma confidence_color_red (c : Q) :
  View.confidence_color c = "red" <-> c <= 40.
Proof.
  unfold View.confidence_color. destruct (Py.ltb 70 c) eqn:E.
  - apply ltb_lt in E. split; [discriminate|].
    intro H. exfalso. apply (Qlt_not_le _ _ E). lra.
  - destruct (Py.ltb 40 c) eqn:E2.
    + apply ltb_lt in E2. split; [discriminate|].
      intro H. exfalso. apply (Qlt_not_le _ _ E2 H).
    + apply ltb_ge in E2. split; [intros _; exact E2|reflexivity].
Qed.

Lemma confidence_color_orange (c : Q) :
  View.confidence_color c = "orange" <-> 40 < c <= 70.
Proof.
  unfold View.confidence_color. destruct (Py.ltb 70 c) eqn:E.
  - apply ltb_lt in E. split; [discriminate|].
    intros [_ H]. exfalso. apply (Qlt_not_le _ _ E H).
  - apply ltb_ge in E. destruct (Py.ltb 40 c) eqn:E2.
    + apply ltb_lt in E2. split; [intros _; split; assumption|reflexivity].
    + apply ltb_ge in E2. split; [discriminate|].
      intros [H _]. exfalso. apply (Qlt_not_le _ _ H E2).
Qed.

(** The deviation term against a threshold, without the division. *)
Lemma penalty_below (K c x t : Q) :
  0 < K -> 0 < c -> (x / c * 100 * K < t <-> x * (100 * K) < t * c).
Proof.
  intros HK Hc.
  assert (E : x / c * 100 * K * c == x * (100 * K)).
  { field. intro H. rewrite H in Hc. discriminate Hc. }
  rewrite <- E. symmetry. apply Qmult_lt_r. exact Hc.
Qed.

(** When the spec formula exceeds a level below 100. *)
Lemma spec_confidence_above (K f0 c l : Q) :
  0 < K -> 0 < c -> 0 <= l -> l < 100 ->
  (l < Spec.confidence K f0 c
   <-> Qabs (f0 - c) * (100 * K) < (100 - l) * c).
Proof.
  intros HK Hc Hl0 Hl.
  rewrite <- (penalty_below K c (Qabs (f0 - c)) (100 - l) HK Hc).
  unfold Spec.confidence.
  set (p := Qabs (f0 - c) / c * 100 * K).
  destruct (Q.max_spec 0 (100 - p)) as [[H1 E1]|[H1 E1]];
    destruct (Q.min_spec 100 (Qmax 0 (100 - p))) as [[H2 E2]|[H2 E2]];
    rewrite E2; try rewrite E1; rewrite E1 in H2; split; intro H; lra.
Qed.

End ConfidenceLabel.

(** ** The confidence label of a published pitch *)

Lemma clean_confidence_value
    (pyin : list Np.npfloat -> Py.result Gui.pyin_out)
    (segment : list Np.npfloat) (s : Gui.state)
    (f0 : list Np.npfloat) (fl : list bool) (probs : list Np.npfloat)
    (w j : string) (c : Q) :
  pyin segment = Py.Ok (f0, fl, probs) ->
  length f0 = length probs ->
  Gui.survivors f0 probs <> [] ->
  Gui.in_band (Np.median (Gui.survivors f0 probs)) = true ->
  Notes.frequency_to_note (Np.median (Gui.survivors f0 probs)) (Gui.note_data s)
  = (w, j, c) ->
  0 < c ->
  Gui.note_confidence (snd (Clean._analyze_audio_segment pyin segment s))
  == Spec.confidence 10 (Np.median (Gui.survivors f0 probs)) c.
Proof.
  intros Hp Hlen Hs Hb Hf Hc.
  pose proof (analyze_voiced pyin segment s f0 fl probs Hp Hlen Hs Hb) as H.
  cbv zeta in H. rewrite Hf in H.
  apply ltb_lt in Hc. rewrite Hc in H.
  rewrite H. simpl. apply code_confidence_spec.
Qed.

(** X5.  The colour of the confidence label after a detection, away
    from the edges of the bands: green when the detected frequency is
    at most 2.9 % of the note's frequency away from it, orange from
    3.1 % to 5.9 %, red from 6.1 % on.  (At 3 % and at 6 %, where the
    confidence is 70 and 40, the colour hangs on the last bit of the
    computed confidence.) *)
Theorem confidence_label_bands
    (pyin : list Np.npfloat -> Py.result Gui.pyin_out)
    (segment : list Np.npfloat) (s : Gui.state)
    (f0 : list Np.npfloat) (fl : list bool) (probs : list Np.npfloat)
    (w j : string) (c : Q) :
  pyin segment = Py.Ok (f0, fl, probs) ->
  length f0 = length probs ->
  Gui.survivors f0 probs <> [] ->
  let d := Np.median (Gui.survivors f0 probs) in
  Gui.in_band d = true ->
  Notes.frequency_to_note d (Gui.note_data s) = (w, j, c) ->
  0 < c ->
  let shown :=
    View.confidence_color
      (Gui.note_confidence
         (snd (Clean._analyze_audio_segment pyin segment s))) in
  (Qabs (d - c) * 1000 <= 29 * c -> shown = "green"%string)
  /\ (31 * c <= Qabs (d - c) * 1000 /\ Qabs (d - c) * 1000 <= 59 * c ->
      shown = "orange"%string)
  /\ (61 * c <= Qabs (d - c) * 1000 -> shown = "red"%string).
Proof.
  intros Hp Hlen Hs d Hb Hf Hc shown.
  pose proof (clean_confidence_value pyin segment s f0 fl probs w j c
                Hp Hlen Hs Hb Hf Hc) as E.
  fold d in E.
  assert (H70 : 70 < Spec.confidence 10 d c <-> Qabs (d - c) * 100 < 3 * c).
  { rewrite (spec_confidence_above 10 d c 70)
      by (reflexivity || discriminate || exact Hc).
    split; intro H; lra. }
  assert (H40 : 40 < Spec.confidence 10 d c <-> Qabs (d - c) * 100 < 6 * c).
  { rewrite (spec_confidence_above 10 d c 40)
      by (reflexivity || discriminate || exact Hc).
    split; intro H; lra. }
  unfold shown. split; [|split].
  - intro H. apply confidence_color_green. rewrite E. apply H70. lra.
  - intros [H1 H2]. apply confidence_color_orange. rewrite E. split.
    + apply H40. lra.
    + apply Qnot_lt_le. intro H. apply H70 in H. lra.
  - intro H. apply confidence_color_red. rewrite E.
    apply Qnot_lt_le. intro H'. apply H40 in H'. lra.
Qed.

Lemma confidence_label_bands_witness :
  let nd := {| Notes.note_frequencies := Notes.default_table |} in
  let pyin := fun _ : list Np.npfloat =>
    Py.Ok ([Np.Num 450], [true], [Np.Num 0.9]) in
  View.confidence_color
    (Gui.note_confidence
       (snd (Clean._analyze_audio_segment pyin [] (Gui.init nd))))
  = "green"%string.
Proof.
  intros nd pyin.
  destruct (confidence_label_bands pyin [] (Gui.init nd)
              [Np.Num 450] [true] [Np.Num 0.9] "A4" "ラ" 440.00
              eq_refl eq_refl ltac:(discriminate) eq_refl eq_refl eq_refl)
    as (H & _).
  apply H. discriminate.
Defined.

(** ** Which note a frequency gets *)

Section NoteLookup.

Import Notes.

(** An entry that is the first nearest one is the answer. *)
Lemma first_nearest_answer (f : Q) (nd : note_data) (i : nat)
    (e : note_info) :
  0 < f -> first_nearest f (note_frequencies nd) i e ->
  frequency_to_note f nd = answer e.
Proof.
  intros Hf Hfn. unfold frequency_to_note.
  assert (E : Py.leb f 0 = false) by (apply leb_gt; exact Hf).
  rewrite E.
  pose proof (scan_invariant f (note_frequencies nd)) as Inv.
  destruct (fold_left _ _ _) as [[|m] t].
  - destruct Inv as [Hnil _]. destruct Hfn as [[key Hk] _].
    rewrite Hnil in Hk. destruct i; discriminate Hk.
  - destruct Inv as (i' & e' & Hfn' & _ & ->).
    destruct (first_nearest_unique f _ _ _ _ _ Hfn Hfn') as [_ Ee].
    rewrite Ee. reflexivity.
Qed.

Lemma dist_nonneg (f : Q) (e : note_info) : 0 <= dist f e.
Proof. apply Qabs_nonneg. Qed.

Lemma dist_above (f : Q) (e : note_info) :
  f <= frequency e -> dist f e == frequency e - f.
Proof. intro H. unfold dist. apply Qabs_pos. lra. Qed.

Lemma dist_below (f : Q) (e : note_info) :
  frequency e <= f -> dist f e == f - frequency e.
Proof.
  intro H. unfold dist. rewrite Qabs_neg by lra. ring.
Qed.

(** A table in rising order, read by index. *)
Lemma rising_nth (t : note_table) :
  StronglySorted (fun x y => frequency (snd x) < frequency (snd y)) t ->
  forall a b ka ea kb eb,
    (a < b)%nat -> nth_error t a = Some (ka, ea) ->
    nth_error t b = Some (kb, eb) -> frequency ea < frequency eb.
Proof.
  induction 1 as [|x t Hs IH Hall]; intros a b ka ea kb eb Hab Ha Hb.
  - destruct a; discriminate Ha.
  - destruct b as [|b]; [lia|]. simpl in Hb.
    destruct a as [|a]; simpl in Ha.
    + injection Ha as Ha. subst x.
      rewrite Forall_forall in Hall.
      apply (Hall (kb, eb)). eapply nth_error_In. exact Hb.
    + apply (IH a b ka ea kb eb); [lia|exact Ha|exact Hb].
Qed.

End NoteLookup.

(** X6.  A frequency of the table gets the note of its entry, the first one
    with that frequency. *)
Theorem table_frequency_gets_its_note (nd : Notes.note_data) (i : nat)
    (key : string) (e : Notes.note_info) :
  nth_error (Notes.note_frequencies nd) i = Some (key, e) ->
  0 < Notes.frequency e ->
  (forall j key' e', (j < i)%nat ->
     nth_error (Notes.note_frequencies nd) j = Some (key', e') ->
     ~ Notes.frequency e' == Notes.frequency e) ->
  Notes.frequency_to_note (Notes.frequency e) nd
  = (Notes.western e, Notes.japanese e, Notes.frequency e).
Proof.
  intros Hi Hpos Hfirst.
  apply (first_nearest_answer _ nd i e Hpos).
  assert (H0 : Notes.dist (Notes.frequency e) e == 0).
  { rewrite dist_above by apply Qle_refl. ring. }
  split; [exists key; exact Hi|]. split.
  - intros key' e' _. rewrite H0. apply dist_nonneg.
  - intros j key' e' Hj Hn. rewrite H0.
    destruct (Qlt_le_dec 0 (Notes.dist (Notes.frequency e) e')) as [H|H];
      [exact H|].
    exfalso. apply (Hfirst j key' e' Hj Hn).
    assert (Hz : Notes.dist (Notes.frequency e) e' == 0).
    { apply Qle_antisym; [exact H|apply dist_nonneg]. }
    unfold Notes.dist in Hz.
    destruct (Qlt_le_dec (Notes.frequency e') (Notes.frequency e))
      as [Hlt|Hge].
    + rewrite Qabs_neg in Hz by lra. lra.
    + rewrite Qabs_pos in Hz by lra. lra.
Qed.

Lemma table_frequency_gets_its_note_witness :
  Notes.frequency_to_note 392.00
    {| Notes.note_frequencies := Notes.default_table |}
  = ("G4"%string, "ソ"%string, 392.00).
Proof.
  refine (table_frequency_gets_its_note
            {| Notes.note_frequencies := Notes.default_table |} 4 "G4"
            {| Notes.frequency := 392.00; Notes.western := "G4";
               Notes.japanese := "ソ" |} eq_refl eq_refl _).
  intros j key' e' Hj Hn E.
  destruct j as [|[|[|[|j]]]]; [| | | |lia];
    simpl in Hn; injection Hn as _ He; subst e'; discriminate E.
Defined.

(** X7.  In a table of rising frequencies, a frequency between two
    neighbours gets the nearer one; the lower one wins up to and
    including the arithmetic midpoint. *)
Theorem note_switches_at_midpoint (nd : Notes.note_data) (f : Q) (i : nat)
    (k1 k2 : string) (e1 e2 : Notes.note_info) :
  StronglySorted
    (fun x y => Notes.frequency (snd x) < Notes.frequency (snd y))
    (Notes.note_frequencies nd) ->
  nth_error (Notes.note_frequencies nd) i = Some (k1, e1) ->
  nth_error (Notes.note_frequencies nd) (S i) = Some (k2, e2) ->
  0 < f ->
  Notes.frequency e1 <= f <= Notes.frequency e2 ->
  (f - Notes.frequency e1 <= Notes.frequency e2 - f ->
   Notes.frequency_to_note f nd = Notes.answer e1)
  /\ (Notes.frequency e2 - f < f - Notes.frequency e1 ->
      Notes.frequency_to_note f nd = Notes.answer e2).
Proof.
  intros Hs H1 H2 Hf [Hlo Hhi].
  pose proof (rising_nth _ Hs) as Hr.
  assert (Hbelow : forall j k e, (j < i)%nat ->
            nth_error (Notes.note_frequencies nd) j = Some (k, e) ->
            Notes.frequency e < Notes.frequency e1).
  { intros j k e Hj Hn. exact (Hr j i k e k1 e1 Hj Hn H1). }
  assert (Habove : forall j k e, (S i < j)%nat ->
            nth_error (Notes.note_frequencies nd) j = Some (k, e) ->
            Notes.frequency e2 < Notes.frequency e).
  { intros j k e Hj Hn. exact (Hr (S i) j k2 e2 k e Hj H2 Hn). }
  assert (Hd1 : Notes.dist f e1 == f - Notes.frequency e1)
    by (apply dist_below; exact Hlo).
  assert (Hd2 : Notes.dist f e2 == Notes.frequency e2 - f)
    by (apply dist_above; exact Hhi).
  assert (Hall : forall j k e,
            nth_error (Notes.note_frequencies nd) j = Some (k, e) ->
            ((j < i)%nat /\ Notes.dist f e1 < Notes.dist f e)
            \/ (j = i /\ e = e1)
            \/ (j = S i /\ e = e2)
            \/ ((S i < j)%nat /\ Notes.dist f e2 < Notes.dist f e)).
  { intros j k e Hn.
    destruct (Nat.lt_trichotomy j i) as [Hj|[Hj|Hj]].
    - left. split; [exact Hj|].
      pose proof (Hbelow j k e Hj Hn) as Hlt.
      rewrite Hd1, (dist_below f e) by lra. lra.
    - right. left. split; [exact Hj|]. subst j. congruence.
    - right. right.
      destruct (Nat.eq_dec j (S i)) as [E|E].
      + left. split; [exact E|]. subst j. congruence.
      + right. split; [lia|].
        pose proof (Habove j k e ltac:(lia) Hn) as Hlt.
        rewrite Hd2, (dist_above f e) by lra. lra. }
  split; intro Hmid.
  - apply (first_nearest_answer f nd i e1 Hf).
    split; [exists k1; exact H1|]. split.
    + intros k e Hin. apply In_nth_error in Hin. destruct Hin as [j Hn].
      destruct (Hall j k e Hn) as [[_ H]|[[_ H]|[[_ H]|[_ H]]]].
      * apply Qlt_le_weak. exact H.
      * subst e. apply Qle_refl.
      * subst e. rewrite Hd1, Hd2. exact Hmid.
      * apply Qlt_le_weak. rewrite Hd1. rewrite Hd2 in H. lra.
    + intros j k e Hj Hn.
      destruct (Hall j k e Hn) as [[_ H]|[[H _]|[[H _]|[H _]]]];
        [exact H|lia|lia|lia].
  - apply (first_nearest_answer f nd (S i) e2 Hf).
    split; [exists k2; exact H2|]. split.
    + intros k e Hin. apply In_nth_error in Hin. destruct Hin as [j Hn].
      destruct (Hall j k e Hn) as [[_ H]|[[_ H]|[[_ H]|[_ H]]]].
      * apply Qlt_le_weak. rewrite Hd2. rewrite Hd1 in H. lra.
      * subst e. rewrite Hd1, Hd2. apply Qlt_le_weak. exact Hmid.
      * subst e. apply Qle_refl.
      * apply Qlt_le_weak. exact H.
    + intros j k e Hj Hn.
      destruct (Hall j k e Hn) as [[_ H]|[[_ H]|[[H _]|[H _]]]];
        [|subst e|lia|lia].
      * rewrite Hd2. rewrite Hd1 in H. lra.
      * rewrite Hd1, Hd2. exact Hmid.
Qed.

Lemma note_switches_at_midpoint_witness :
  Notes.frequency_to_note 416
    {| Notes.note_frequencies := Notes.default_table |}
  = ("G4"%string, "ソ"%string, 392.00).
Proof.
  assert (Hs : StronglySorted
                 (fun x y => Notes.frequency (snd x) < Notes.frequency (snd y))
                 (Notes.note_frequencies
                    {| Notes.note_frequencies := Notes.default_table |})).
  { repeat (constructor; [|repeat (constructor; [reflexivity|]);
                           constructor]).
    constructor. }
  refine (proj1 (note_switches_at_midpoint
                   {| Notes.note_frequencies := Notes.default_table |}
                   416 4 "G4" "A4"
                   {| Notes.frequency := 392.00; Notes.western := "G4";
                      Notes.japanese := "ソ" |}
                   {| Notes.frequency := 440.00; Notes.western := "A4";
                      Notes.japanese := "ラ" |}
                   Hs eq_refl eq_refl eq_refl _) _).
  - split; discriminate.
  - discriminate.
Defined.

(** X8.  In a table of rising frequencies, a frequency at or below the
    first entry gets the first note and a frequency at or above the
    last entry gets the last note, as long as it is within a factor of
    two of every frequency of the table (so that every distance is a
    difference of two numbers of which neither is more than twice the
    other). *)
Theorem note_saturates_outside_table (nd : Notes.note_data) (f : Q)
    (k : string) (e : Notes.note_info) :
  StronglySorted
    (fun x y => Notes.frequency (snd x) < Notes.frequency (snd y))
    (Notes.note_frequencies nd) ->
  0 < f ->
  (forall k' e', In (k', e') (Notes.note_frequencies nd) ->
                 f <= 2 * Notes.frequency e'
                 /\ Notes.frequency e' <= 2 * f) ->
  (nth_error (Notes.note_frequencies nd) 0 = Some (k, e)
   /\ f <= Notes.frequency e)
  \/ (nth_error (Notes.note_frequencies nd)
        (length (Notes.note_frequencies nd) - 1) = Some (k, e)
      /\ Notes.frequency e <= f) ->
  Notes.frequency_to_note f nd = Notes.answer e.
Proof.
  intros Hs Hf _ Hcase.
  pose proof (rising_nth _ Hs) as Hr.
  destruct Hcase as [[Hn Hle]|[Hn Hle]].
  - apply (first_nearest_answer f nd 0 e Hf).
    split; [exists k; exact Hn|]. split.
    + intros k' e' Hin. apply In_nth_error in Hin. destruct Hin as [j Hj].
      destruct j as [|j].
      * assert (E : e' = e) by congruence. subst e'. apply Qle_refl.
      * pose proof (Hr 0%nat (S j) k e k' e' ltac:(lia) Hn Hj) as Hlt.
        rewrite (dist_above f e), (dist_above f e') by lra. lra.
    + intros j k' e' Hj. lia.
  - set (n := (length (Notes.note_frequencies nd) - 1)%nat) in *.
    apply (first_nearest_answer f nd n e Hf).
    assert (Hlast : forall j k' e',
              nth_error (Notes.note_frequencies nd) j = Some (k', e') ->
              (j < n)%nat \/ (j = n /\ e' = e)).
    { intros j k' e' Hj.
      assert (Hlen : (j < length (Notes.note_frequencies nd))%nat).
      { apply nth_error_Some. rewrite Hj. discriminate. }
      destruct (Nat.eq_dec j n) as [E|E].
      - right. split; [exact E|]. subst j. congruence.
      - left. unfold n. lia. }
    split; [exists k; exact Hn|]. split.
    + intros k' e' Hin. apply In_nth_error in Hin. destruct Hin as [j Hj].
      destruct (Hlast j k' e' Hj) as [Hlt|[_ E]].
      * pose proof (Hr j n k' e' k e Hlt Hj Hn) as H.
        rewrite (dist_below f e), (dist_below f e') by lra. lra.
      * subst e'. apply Qle_refl.
    + intros j k' e' Hlt Hj.
      pose proof (Hr j n k' e' k e Hlt Hj Hn) as H.
      rewrite (dist_below f e), (dist_below f e') by lra. lra.
Qed.

Lemma note_saturates_outside_table_witness :
  Notes.frequency_to_note 500
    {| Notes.note_frequencies := Notes.default_table |}
  = ("B4"%string, "シ"%string, 493.88).
Proof.
  assert (Hs : StronglySorted
                 (fun x y => Notes.frequency (snd x) < Notes.frequency (snd y))
                 (Notes.note_frequencies
                    {| Notes.note_frequencies := Notes.default_table |})).
  { repeat (constructor; [|repeat (constructor; [reflexivity|]);
                           constructor]).
    constructor. }
  assert (Hnear : forall k' e',
            In (k', e')
               (Notes.note_frequencies
                  {| Notes.note_frequencies := Notes.default_table |}) ->
            500 <= 2 * Notes.frequency e' /\ Notes.frequency e' <= 2 * 500).
  { intros k' e' Hin. simpl in Hin.
    repeat (destruct Hin as [Hin|Hin];
            [injection Hin as _ He; subst e'; split; discriminate|]).
    contradiction. }
  refine (note_saturates_outside_table
            {| Notes.note_frequencies := Notes.default_table |}
            500 "B4"
            {| Notes.frequency := 493.88; Notes.western := "B4";
               Notes.japanese := "シ" |}
            Hs eq_refl Hnear (or_intror (conj eq_refl _))).
  discriminate.
Defined.

(** ** A pass of the first version *)

Section LegacyPass.

Variable pyin : list Np.npfloat -> Py.result Gui.pyin_out.
Variable hz_to_note : Q -> string.
Variable np_sqrt : Q -> Q.

Lemma square_numbers (l : list Z) :
  existsb Np.isnan
    (Np.square (map (fun z => Np.Num (inject_Z z / Legacy.INT16_MAX)) l))
  = false.
Proof. induction l as [|z l IH]; [reflexivity|exact IH]. Qed.

(** A read that is not empty has a root mean square. *)
Lemma legacy_rms_number (in_data : list Z) :
  in_data <> [] ->
  exists m,
    Legacy.rms np_sqrt
      (map (fun z => Np.Num (inject_Z z / Legacy.INT16_MAX)) in_data)
    = Np.Num (np_sqrt m).
Proof.
  intro H. unfold Legacy.rms, Np.mean_arr.
  destruct in_data as [|z l]; [contradiction|].
  change (Np.square
            (map (fun z => Np.Num (inject_Z z / Legacy.INT16_MAX)) (z :: l)))
    with (Np.Num (inject_Z z / Legacy.INT16_MAX
                  * (inject_Z z / Legacy.INT16_MAX))
          :: Np.square
               (map (fun z => Np.Num (inject_Z z / Legacy.INT16_MAX)) l)).
  cbn [existsb Np.isnan orb]. rewrite square_numbers.
  eexists. reflexivity.
Qed.

(** A pass that fails ends in the handler. *)
Lemma legacy_pass_fails (read : Py.result (list Z)) (s : Legacy.state) :
  (exists e, read = Py.Raise e)
  \/ (exists in_data,
        read = Py.Ok in_data
        /\ (in_data = []
            \/ exists e,
                 pyin (map (fun z => Np.Num (inject_Z z / Legacy.INT16_MAX))
                         in_data)
                 = Py.Raise e)) ->
  Legacy.audio_loop_body pyin hz_to_note np_sqrt read s
  = (Py.Ok tt, Legacy.on_error s).
Proof.
  intros [[e E]|(in_data & E & [Hd|[e Hp]])]; subst read.
  - reflexivity.
  - subst in_data. reflexivity.
  - unfold Legacy.audio_loop_body, Py.try_except, Py.bind, Py.lift, Py.modify.
    destruct (Legacy.volume_percent _) as [v|e']; [|reflexivity].
    cbv beta iota. rewrite Hp. reflexivity.
Qed.

(** A pass that succeeds keeps running and publishes volume and pitch. *)
Lemma legacy_pass_succeeds (in_data : list Z) (s : Legacy.state)
    (f0 : list Np.npfloat) (fl : list bool) (probs : list Np.npfloat)
    (v : Z) :
  Legacy.volume_percent
    (Legacy.rms np_sqrt
       (map (fun z => Np.Num (inject_Z z / Legacy.INT16_MAX)) in_data))
  = Py.Ok v ->
  pyin (map (fun z => Np.Num (inject_Z z / Legacy.INT16_MAX)) in_data)
  = Py.Ok (f0, fl, probs) ->
  Legacy.audio_loop_body pyin hz_to_note np_sqrt (Py.Ok in_data) s
  = (Py.Ok tt,
     {| Legacy.is_running := Legacy.is_running s;
        Legacy.stream_open := true;
        Legacy.current_f0 :=
          match Np.valid f0 with [] => 0 | _ => Np.mean (Np.valid f0) end;
        Legacy.current_note :=
          match Np.valid f0 with
          | [] => "N/A"%string
          | _ => hz_to_note (Np.mean (Np.valid f0))
          end;
        Legacy.current_volume := v |}).
Proof.
  intros Hv Hp.
  unfold Legacy.audio_loop_body, Py.try_except, Py.bind, Py.lift, Py.modify.
  rewrite Hv. cbv beta iota. rewrite Hp. cbv beta iota.
  destruct (Np.valid f0); reflexivity.
Qed.

End LegacyPass.

(** X9.  A pass of the first version ends in one of two ways.  If the read
    raises or is empty, or the pitch estimation raises, the handler
    resets the display and stops the analysis.  Otherwise the analysis
    keeps running with the stream open, the volume is a percentage, and
    the pitch is 0 Hz with ["N/A"] when no frame is voiced, the mean of
    the voiced frames with its note name when some are. *)
Theorem legacy_pass_outcome
    (pyin : list Np.npfloat -> Py.result Gui.pyin_out)
    (hz_to_note : Q -> string) (np_sqrt : Q -> Q)
    (read : Py.result (list Z)) (s : Legacy.state) :
  (forall m, 0 <= np_sqrt m) ->
  let audio_of (in_data : list Z) :=
    map (fun z => Np.Num (inject_Z z / Legacy.INT16_MAX)) in_data in
  let r := Legacy.audio_loop_body pyin hz_to_note np_sqrt read s in
  fst r = Py.Ok tt
  /\ ((((exists e, read = Py.Raise e)
        \/ (exists in_data,
              read = Py.Ok in_data
              /\ (in_data = []
                  \/ exists e, pyin (audio_of in_data) = Py.Raise e)))
       /\ snd r = Legacy.on_error s)
      \/ (exists in_data f0 fl probs,
            read = Py.Ok in_data /\ in_data <> []
            /\ pyin (audio_of in_data) = Py.Ok (f0, fl, probs)
            /\ Legacy.is_running (snd r) = Legacy.is_running s
            /\ Legacy.stream_open (snd r) = true
            /\ (0 <= Legacy.current_volume (snd r) <= 100)%Z
            /\ ((Np.valid f0 = [] /\ Legacy.current_f0 (snd r) = 0
                 /\ Legacy.current_note (snd r) = "N/A"%string)
                \/ (Np.valid f0 <> []
                    /\ Legacy.current_f0 (snd r) = Np.mean (Np.valid f0)
                    /\ Legacy.current_note (snd r)
                       = hz_to_note (Np.mean (Np.valid f0)))))).
Proof.
  intros Hsqrt audio_of r.
  assert (Hfail :
    (exists e, read = Py.Raise e)
    \/ (exists in_data,
          read = Py.Ok in_data
          /\ (in_data = []
              \/ exists e, pyin (audio_of in_data) = Py.Raise e)) ->
    fst r = Py.Ok tt
    /\ ((((exists e, read = Py.Raise e)
          \/ (exists in_data,
                read = Py.Ok in_data
                /\ (in_data = []
                    \/ exists e, pyin (audio_of in_data) = Py.Raise e)))
         /\ snd r = Legacy.on_error s)
        \/ (exists in_data f0 fl probs,
              read = Py.Ok in_data /\ in_data <> []
              /\ pyin (audio_of in_data) = Py.Ok (f0, fl, probs)
              /\ Legacy.is_running (snd r) = Legacy.is_running s
              /\ Legacy.stream_open (snd r) = true
              /\ (0 <= Legacy.current_volume (snd r) <= 100)%Z
              /\ ((Np.valid f0 = [] /\ Legacy.current_f0 (snd r) = 0
                   /\ Legacy.current_note (snd r) = "N/A"%string)
                  \/ (Np.valid f0 <> []
                      /\ Legacy.current_f0 (snd r) = Np.mean (Np.valid f0)
                      /\ Legacy.current_note (snd r)
                         = hz_to_note (Np.mean (Np.valid f0))))))).
  { intro H. unfold r.
    rewrite (legacy_pass_fails pyin hz_to_note np_sqrt read s H).
    split; [reflexivity|]. left. split; [exact H|reflexivity]. }
  destruct read as [in_data|e]; [|apply Hfail; left; exists e; reflexivity].
  assert (Hcase : in_data = [] \/ in_data <> [])
    by (destruct in_data; [left; reflexivity|right; discriminate]).
  destruct Hcase as [Hnil|Hne];
    [apply Hfail; right; exists in_data; split;
     [reflexivity|left; exact Hnil]|].
  destruct (pyin (audio_of in_data)) as [[[f0 fl] probs]|e] eqn:Hp;
    [|apply Hfail; right; exists in_data; split;
      [reflexivity|right; exists e; exact Hp]].
  clear Hfail.
  destruct (legacy_rms_number np_sqrt in_data Hne) as [m Hr].
  destruct (legacy_percent (np_sqrt m) (Hsqrt m)) as (v & Hv & Hrange).
  rewrite <- Hr in Hv.
  unfold r.
  rewrite (legacy_pass_succeeds pyin hz_to_note np_sqrt in_data s f0 fl probs
             v Hv Hp).
  split; [reflexivity|]. right.
  exists in_data, f0, fl, probs. cbn [snd Legacy.is_running Legacy.stream_open
    Legacy.current_volume Legacy.current_f0 Legacy.current_note].
  repeat (split; [assumption || reflexivity|]).
  destruct (Np.valid f0) as [|x l].
  - left. repeat split.
  - right. repeat split. discriminate.
Qed.

Lemma legacy_pass_outcome_witness :
  let pyin := fun _ : list Np.npfloat =>
    Py.Ok ([Np.Num 440; Np.NaN; Np.Num 444], [true; false; true],
           [Np.Num 0.9; Np.Num 0.1; Np.Num 0.8]) in
  let s := {| Legacy.is_running := true; Legacy.stream_open := false;
              Legacy.current_f0 := 0; Legacy.current_note := "N/A";
              Legacy.current_volume := 0%Z |} in
  (forall m : Q, 0 <= (fun _ : Q => 1 # 4) m)
  /\ fst (Legacy.audio_loop_body pyin (fun _ => "A4"%string)
            (fun _ : Q => 1 # 4) (Py.Ok [32767%Z; 0%Z]) s)
     = Py.Ok tt.
Proof.
  cbv zeta.
  assert (Hs : forall m : Q, 0 <= (fun _ : Q => 1 # 4) m)
    by (intro m; discriminate).
  split; [exact Hs|].
  exact (proj1 (legacy_pass_outcome
                  (fun _ : list Np.npfloat =>
                     Py.Ok ([Np.Num 440; Np.NaN; Np.Num 444],
                            [true; false; true],
                            [Np.Num 0.9; Np.Num 0.1; Np.Num 0.8]))
                  (fun _ => "A4"%string) (fun _ : Q => 1 # 4)
                  (Py.Ok [32767%Z; 0%Z])
                  {| Legacy.is_running := true; Legacy.stream_open := false;
                     Legacy.current_f0 := 0; Legacy.current_note := "N/A";
                     Legacy.current_volume := 0%Z |} Hs)).
Defined.

(** ** Strings *)

Section TextFacts.

Local Open Scope string_scope.

Lemma string_app_assoc (a b c : string) : (a ++ b) ++ c = a ++ (b ++ c).
Proof.
  induction a as [|x a IH]; simpl; [reflexivity|].
  rewrite IH. reflexivity.
Qed.

Lemma occurs_app (c : ascii) (a b : string) :
  Text.occurs c (a ++ b) = Text.occurs c a || Text.occurs c b.
Proof.
  induction a as [|x a IH]; simpl; [reflexivity|].
  destruct (Ascii.eqb x c); [reflexivity|exact IH].
Qed.

(** Decimal digits hold no space. *)
Lemma digits_no_space (d : Decimal.uint) :
  Text.occurs " " (NilEmpty.string_of_uint d) = false.
Proof. induction d; simpl; assumption || reflexivity. Qed.

(** A string splits in one way at the last occurrence of a character. *)
Lemma split_at_last (c : ascii) (p1 p2 t1 t2 : string) :
  Text.occurs c t1 = false -> Text.occurs c t2 = false ->
  p1 ++ String c t1 = p2 ++ String c t2 ->
  p1 = p2 /\ t1 = t2.
Proof.
  intros H1 H2. revert p2.
  induction p1 as [|x p1 IH]; intros [|y p2] E; simpl in E.
  - injection E as Et. split; [reflexivity|exact Et].
  - injection E as Ex Et. exfalso.
    rewrite Et, occurs_app in H1. cbn [Text.occurs] in H1.
    rewrite Ascii.eqb_refl, orb_true_r in H1. discriminate H1.
  - injection E as Ex Et. exfalso.
    rewrite <- Et, occurs_app in H2. cbn [Text.occurs] in H2.
    rewrite Ascii.eqb_refl, orb_true_r in H2. discriminate H2.
  - injection E as Ex Et. destruct (IH p2 Et) as [Ep Etl].
    split; congruence.
Qed.

Lemma str_inj (i j : nat) : Text.str i = Text.str j -> i = j.
Proof.
  unfold Text.str. intro E.
  apply DecimalNat.Unsigned.to_uint_inj.
  pose proof (NilEmpty.usu (Nat.to_uint i)) as Hi.
  pose proof (NilEmpty.usu (Nat.to_uint j)) as Hj.
  rewrite E in Hi. congruence.
Qed.

(** The display name tells the index, whatever the device names are. *)
Lemma display_name_index (n1 n2 : string) (i j : nat) :
  Devices.display_name n1 i = Devices.display_name n2 j -> i = j.
Proof.
  unfold Devices.display_name. intro E.
  change (" (Index: " ++ Text.str i ++ ")")
    with (" (Index:" ++ String " " (Text.str i ++ ")")) in E.
  change (" (Index: " ++ Text.str j ++ ")")
    with (" (Index:" ++ String " " (Text.str j ++ ")")) in E.
  rewrite <- !string_app_assoc in E.
  apply (split_at_last " ") in E.
  - destruct E as [_ Ei].
    apply (split_at_last ")" _ _ "" "") in Ei; try reflexivity.
    apply str_inj. apply Ei.
  - rewrite occurs_app. unfold Text.str. rewrite digits_no_space. reflexivity.
  - rewrite occurs_app. unfold Text.str. rewrite digits_no_space. reflexivity.
Qed.

End TextFacts.

(** ** Dicts *)

Section DictFacts.

Context {V : Type}.

Lemma dict_get_app (a b : Dict.dict V) (k : string) :
  Dict.get (a ++ b) k
  = match Dict.get a k with Some v => Some v | None => Dict.get b k end.
Proof.
  induction a as [|[k' v'] a IH]; simpl; [reflexivity|].
  destruct (String.eqb k' k); [reflexivity|exact IH].
Qed.

Lemma dict_set_fresh (d : Dict.dict V) (k : string) (v : V) :
  Dict.get d k = None -> Dict.set d k v = d ++ [(k, v)].
Proof.
  induction d as [|[k' v'] d IH]; simpl; [reflexivity|].
  destruct (String.eqb k' k); [discriminate|].
  intro H. rewrite (IH H). reflexivity.
Qed.

Lemma dict_get_in (d : Dict.dict V) (k : string) (v : V) :
  Dict.get d k = Some v -> In (k, v) d.
Proof.
  induction d as [|[k' v'] d IH]; simpl; [discriminate|].
  destruct (String.eqb_spec k' k) as [E|E].
  - intro H. injection H as H. left. congruence.
  - intro H. right. exact (IH H).
Qed.

Lemma dict_get_none (d : Dict.dict V) (k : string) :
  ~ In k (map fst d) -> Dict.get d k = None.
Proof.
  induction d as [|[k' v'] d IH]; simpl; [reflexivity|].
  intro H. destruct (String.eqb_spec k' k) as [E|E].
  - exfalso. apply H. left. exact E.
  - apply IH. intro Hin. apply H. right. exact Hin.
Qed.

Lemma dict_in_get (d : Dict.dict V) (k : string) (v : V) :
  NoDup (map fst d) -> In (k, v) d -> Dict.get d k = Some v.
Proof.
  induction d as [|[k' v'] d IH]; simpl; [contradiction|].
  intros Hnd [H|H].
  - injection H as Hk Hv. subst. rewrite String.eqb_refl. reflexivity.
  - inversion Hnd as [|? ? Hnot Hnd']; subst.
    destruct (String.eqb_spec k' k) as [E|E].
    + exfalso. apply Hnot. subst k'.
      change k with (fst (k, v)). apply in_map. exact H.
    + apply IH; assumption.
Qed.

End DictFacts.

(** ** The device list *)

Section DeviceFacts.

Import Devices.

Lemma enum_in {A} (l : list A) (k i : nat) (d : A) :
  In (i, d) (combine (seq k (length l)) l)
  <-> (k <= i)%nat /\ nth_error l (i - k) = Some d.
Proof.
  revert k. induction l as [|x l IH]; intro k; simpl.
  - split; [contradiction|]. intros [_ H].
    destruct (i - k)%nat; discriminate H.
  - split.
    + intros [H|H].
      * injection H as Hi Hd. subst. split; [lia|].
        rewrite Nat.sub_diag. reflexivity.
      * apply IH in H. destruct H as [Hk H]. split; [lia|].
        replace (i - k)%nat with (S (i - S k)) by lia. exact H.
    + intros [Hk H]. destruct (Nat.eq_dec i k) as [E|E].
      * left. subst. rewrite Nat.sub_diag in H. simpl in H. congruence.
      * right. apply IH. split; [lia|].
        replace (i - k)%nat with (S (i - S k)) in H by lia. exact H.
Qed.

Lemma enumerate_in {A} (l : list A) (i : nat) (d : A) :
  In (i, d) (enumerate l) <-> nth_error l i = Some d.
Proof.
  unfold enumerate. rewrite enum_in, Nat.sub_0_r.
  split; [intros [_ H]; exact H|intro H; split; [lia|exact H]].
Qed.

Lemma enum_fst {A} (l : list A) (k : nat) :
  map fst (combine (seq k (length l)) l) = seq k (length l).
Proof.
  revert k. induction l as [|x l IH]; intro k; simpl; [reflexivity|].
  rewrite IH. reflexivity.
Qed.

Lemma enumerate_nodup {A} (l : list A) : NoDup (map fst (enumerate l)).
Proof. unfold enumerate. rewrite enum_fst. apply seq_NoDup. Qed.

Lemma filter_fst_nodup {A} (f : nat * A -> bool) (l : list (nat * A)) :
  NoDup (map fst l) -> NoDup (map fst (filter f l)).
Proof.
  induction l as [|x l IH]; simpl; intro H; [constructor|].
  inversion H as [|? ? Hnot Hnd]; subst.
  destruct (f x); simpl; [constructor|]; auto.
  intro Hin. apply Hnot. apply in_map_iff in Hin.
  destruct Hin as [y [Hy Hin]]. apply filter_In in Hin.
  apply in_map_iff. exists y. tauto.
Qed.

Lemma entries_nodup (items : list (nat * device_info)) :
  NoDup (map fst items) -> NoDup (map fst (Listing.entries items)).
Proof.
  induction items as [|[i d] items IH]; simpl; intro H; [constructor|].
  inversion H as [|? ? Hnot Hnd]; subst. constructor; [|auto].
  intro Hin. apply in_map_iff in Hin. destruct Hin as [[k v] [Hk Hin]].
  apply in_map_iff in Hin. destruct Hin as [[i' d'] [He Hin]].
  cbn [fst snd] in Hk, He. injection He as Hk' Hv.
  rewrite <- Hk' in Hk. apply display_name_index in Hk.
  apply Hnot. rewrite <- Hk. change i' with (fst (i', d')).
  apply in_map. exact Hin.
Qed.

Lemma scan_fold (l : list (nat * device_info)) (devs : list string)
    (dm : Dict.dict nat) :
  NoDup (map fst l) ->
  (forall i d, In (i, d) l -> Dict.get dm (display_name (name d) i) = None) ->
  fold_left scan_step l (devs, dm)
  = (devs ++ map fst (Listing.entries (filter Listing.is_input l)),
     dm ++ Listing.entries (filter Listing.is_input l)).
Proof.
  revert devs dm. induction l as [|[i d] l IH]; intros devs dm Hnd Hfresh.
  - simpl. rewrite !app_nil_r. reflexivity.
  - inversion Hnd as [|? ? Hnot Hnd']; subst.
    assert (Ef : filter Listing.is_input ((i, d) :: l)
                 = if (0 <? max_input_channels d)%Z
                   then (i, d) :: filter Listing.is_input l
                   else filter Listing.is_input l) by reflexivity.
    rewrite Ef. cbn [fold_left scan_step].
    destruct (0 <? max_input_channels d)%Z eqn:Hin.
    + cbv zeta. rewrite dict_set_fresh by (apply Hfresh; left; reflexivity).
      rewrite IH; [|exact Hnd'|].
      * change (Listing.entries ((i, d) :: filter Listing.is_input l))
          with ((display_name (name d) i, i)
                  :: Listing.entries (filter Listing.is_input l)).
        cbn [map fst]. rewrite <- !app_assoc. reflexivity.
      * intros i' d' Hin'. rewrite dict_get_app.
        rewrite (Hfresh i' d') by (right; exact Hin').
        cbn [Dict.get]. destruct (String.eqb_spec (display_name (name d) i)
                                    (display_name (name d') i')) as [E|E];
          [|reflexivity].
        exfalso. apply display_name_index in E. subst i'.
        apply Hnot. change i with (fst (i, d')). apply in_map. exact Hin'.
    + apply IH; [exact Hnd'|].
      intros i' d' Hin'. apply Hfresh. right. exact Hin'.
Qed.

(** The scan lists the input devices in the order of their indices. *)
Lemma scan_inputs (infos : list device_info) :
  scan infos
  = (map fst (Listing.entries (Listing.inputs infos)),
     Listing.entries (Listing.inputs infos)).
Proof.
  unfold scan. rewrite scan_fold; [reflexivity|apply enumerate_nodup|].
  intros. reflexivity.
Qed.

Lemma inputs_in (infos : list device_info) (i : nat) (d : device_info) :
  In (i, d) (Listing.inputs infos)
  <-> nth_error infos i = Some d /\ (0 < max_input_channels d)%Z.
Proof.
  unfold Listing.inputs. rewrite filter_In, enumerate_in.
  unfold Listing.is_input. simpl. rewrite Z.ltb_lt. reflexivity.
Qed.

Lemma inputs_nodup (infos : list device_info) :
  NoDup (map fst (Listing.inputs infos)).
Proof. apply filter_fst_nodup, enumerate_nodup. Qed.

Lemma entries_in (items : list (nat * device_info)) (k : string) (v : nat) :
  In (k, v) (Listing.entries items)
  <-> exists d, In (v, d) items /\ k = display_name (name d) v.
Proof.
  unfold Listing.entries. rewrite in_map_iff. split.
  - intros [[i d] [E H]]. simpl in E. injection E as Ek Ev. subst.
    exists d. split; [exact H|reflexivity].
  - intros [d [H E]]. exists (v, d). subst. split; [reflexivity|exact H].
Qed.

(** Looking an entry up gives the index of a device that is listed. *)
Lemma entries_get (infos : list device_info) (k : string) (v : nat) :
  Dict.get (Listing.entries (Listing.inputs infos)) k = Some v
  <-> exists d, nth_error infos v = Some d /\ (0 < max_input_channels d)%Z
                /\ k = display_name (name d) v.
Proof.
  split.
  - intro H. apply dict_get_in, entries_in in H.
    destruct H as [d [H E]]. apply inputs_in in H.
    exists d. tauto.
  - intros [d [H1 [H2 E]]]. apply dict_in_get.
    + apply entries_nodup, inputs_nodup.
    + apply entries_in. exists d. split; [|exact E].
      apply inputs_in. tauto.
Qed.

(** The search by index finds the device at that index, if it is an
    input device. *)
Lemma find_last_found (infos : list device_info) (last : nat)
    (d : device_info) :
  nth_error infos last = Some d -> (0 < max_input_channels d)%Z ->
  find_last (Listing.entries (Listing.inputs infos)) last
  = Some (display_name (name d) last).
Proof.
  intros Hn Hc. unfold find_last.
  destruct (find _ _) as [[k v]|] eqn:F; simpl.
  - apply find_some in F. destruct F as [Hin Hv]. simpl in Hv.
    apply Nat.eqb_eq in Hv. subst v.
    apply entries_in in Hin. destruct Hin as [d' [Hin E]].
    apply inputs_in in Hin. destruct Hin as [Hn' _].
    congruence.
  - exfalso.
    assert (Hin : In (display_name (name d) last, last)
                    (Listing.entries (Listing.inputs infos))).
    { apply entries_in. exists d. split; [|reflexivity].
      apply inputs_in. tauto. }
    apply (find_none _ _ F) in Hin. simpl in Hin.
    rewrite Nat.eqb_refl in Hin. discriminate Hin.
Qed.

Lemma find_last_missing (infos : list device_info) (last : nat) :
  (forall d, nth_error infos last = Some d -> (max_input_channels d <= 0)%Z) ->
  find_last (Listing.entries (Listing.inputs infos)) last = None.
Proof.
  intro H. unfold find_last.
  destruct (find _ _) as [[k v]|] eqn:F; simpl; [|reflexivity].
  exfalso. apply find_some in F. destruct F as [Hin Hv]. simpl in Hv.
  apply Nat.eqb_eq in Hv. subst v.
  apply entries_in in Hin. destruct Hin as [d' [Hin E]].
  apply inputs_in in Hin. destruct Hin as [Hn Hc].
  specialize (H d' Hn). lia.
Qed.

(** The head of the list is the input device of least index. *)
Lemma enum_filter_head (l : list device_info) (k i : nat) (d : device_info)
    (rest : list (nat * device_info)) :
  filter Listing.is_input (combine (seq k (length l)) l) = (i, d) :: rest ->
  forall j d', (k <= j < i)%nat -> nth_error l (j - k) = Some d' ->
               (max_input_channels d' <= 0)%Z.
Proof.
  revert k. induction l as [|x l IH]; intro k; simpl; [discriminate|].
  unfold Listing.is_input at 1. simpl.
  destruct (0 <? max_input_channels x)%Z eqn:Hx.
  - intro E. injection E as Ei Ed Er. subst. intros. lia.
  - intros E j d' Hj Hn. destruct (Nat.eq_dec j k) as [Ej|Ej].
    + subst. rewrite Nat.sub_diag in Hn. simpl in Hn.
      injection Hn as Hn. subst. apply Z.ltb_ge in Hx. exact Hx.
    + apply (IH (S k) E j d'); [lia|].
      replace (j - k)%nat with (S (j - S k)) in Hn by lia. exact Hn.
Qed.

Lemma inputs_head (infos : list device_info) (i : nat) (d : device_info) :
  nth_error infos i = Some d -> (0 < max_input_channels d)%Z ->
  (forall j d', (j < i)%nat -> nth_error infos j = Some d' ->
                (max_input_channels d' <= 0)%Z) ->
  exists rest, Listing.inputs infos = (i, d) :: rest.
Proof.
  intros Hn Hc Hmin.
  destruct (Listing.inputs infos) as [|[i1 d1] rest] eqn:E.
  - exfalso. assert (H : In (i, d) (Listing.inputs infos))
      by (apply inputs_in; tauto).
    rewrite E in H. exact H.
  - exists rest.
    assert (H1 : In (i1, d1) (Listing.inputs infos))
      by (rewrite E; left; reflexivity).
    apply inputs_in in H1. destruct H1 as [Hn1 Hc1].
    assert (Ei : i1 = i).
    { destruct (Nat.lt_trichotomy i1 i) as [Hlt|[Heq|Hgt]]; [|exact Heq|].
      - specialize (Hmin i1 d1 Hlt Hn1). lia.
      - unfold Listing.inputs, enumerate in E.
        pose proof (enum_filter_head infos 0 i1 d1 rest E i d) as H.
        rewrite Nat.sub_0_r in H. specialize (H ltac:(lia) Hn). lia. }
    subst i1. congruence.
Qed.

End DeviceFacts.

Section DeviceSelection.

Import Devices.

Lemma populate_lists (infos : list device_info) (s : state) :
  combobox_values (_populate_devices (Py.Ok infos) s)
  = map fst (Listing.entries (Listing.inputs infos))
  /\ device_map (_populate_devices (Py.Ok infos) s)
     = Listing.entries (Listing.inputs infos).
Proof.
  unfold _populate_devices. rewrite scan_inputs.
  destruct (map fst (Listing.entries (Listing.inputs infos))) as [|first rest];
    [split; reflexivity|].
  destruct (Dict.get _ _); split; reflexivity.
Qed.

Lemma entries_listed (infos : list device_info) (entry : string) :
  In entry (map fst (Listing.entries (Listing.inputs infos)))
  <-> exists i, Dict.get (Listing.entries (Listing.inputs infos)) entry
                = Some i.
Proof.
  split.
  - intro H. apply in_map_iff in H. destruct H as [[k v] [Hk H]].
    simpl in Hk. subst k. exists v. apply dict_in_get; [|exact H].
    apply entries_nodup, inputs_nodup.
  - intros [i H]. apply dict_get_in in H.
    change entry with (fst (entry, i)). apply in_map. exact H.
Qed.

(** Choosing the device: the one at the remembered index, else the
    first of the list. *)
Lemma populate_choice (infos : list device_info) (s : state)
    (i : nat) (d : device_info) (rest : list (nat * device_info))
    (sel : string) (idx : nat) :
  Listing.inputs infos = (i, d) :: rest ->
  sel = match last_used_device_index (device_config_of s) with
        | Some last =>
            match find_last (Listing.entries (Listing.inputs infos)) last with
            | Some display_name => display_name
            | None => display_name (name d) i
            end
        | None => display_name (name d) i
        end ->
  Dict.get (Listing.entries (Listing.inputs infos)) sel = Some idx ->
  device_index (_populate_devices (Py.Ok infos) s) = Some idx
  /\ device_var (_populate_devices (Py.Ok infos) s) = sel
  /\ connection_label (_populate_devices (Py.Ok infos) s)
     = connection_label s.
Proof.
  intros E Hsel Hget. unfold _populate_devices. rewrite scan_inputs.
  rewrite E in *.
  change (map fst (Listing.entries ((i, d) :: rest)))
    with (display_name (name d) i :: map fst (Listing.entries rest)).
  cbv beta iota zeta. rewrite <- Hsel, Hget. split; [|split]; reflexivity.
Qed.

End DeviceSelection.

Section DeviceProperties.

Import Devices.

Lemma selected_listed (infos : list device_info) (last : option nat)
    (i : nat) (d : device_info) (rest : list (nat * device_info)) :
  Listing.inputs infos = (i, d) :: rest ->
  exists idx,
    Dict.get (Listing.entries (Listing.inputs infos))
      (match last with
       | Some last =>
           match find_last (Listing.entries (Listing.inputs infos)) last with
           | Some display_name => display_name
           | None => display_name (name d) i
           end
       | None => display_name (name d) i
       end) = Some idx.
Proof.
  intro E.
  assert (Hfirst : Dict.get (Listing.entries (Listing.inputs infos))
                     (display_name (name d) i) = Some i).
  { apply entries_get. exists d.
    assert (H : In (i, d) (Listing.inputs infos))
      by (rewrite E; left; reflexivity).
    apply inputs_in in H. tauto. }
  destruct last as [last|]; [|exists i; exact Hfirst].
  unfold find_last.
  destruct (find _ _) as [[k v]|] eqn:F; simpl; [|exists i; exact Hfirst].
  apply find_some in F. destruct F as [Hin _].
  exists v. apply dict_in_get; [|exact Hin].
  apply entries_nodup, inputs_nodup.
Qed.

(** X10.  The combobox and the device map after a scan: one entry for each
    input device of the query, no entry twice, and every entry maps
    back to the index of its device. *)
Theorem device_list_round_trip (infos : list device_info) (s : state) :
  let s' := _populate_devices (Py.Ok infos) s in
  NoDup (combobox_values s')
  /\ (forall entry,
        In entry (combobox_values s')
        <-> exists i, Dict.get (device_map s') entry = Some i)
  /\ (forall entry i,
        Dict.get (device_map s') entry = Some i
        <-> exists d, nth_error infos i = Some d
                      /\ (0 < max_input_channels d)%Z
                      /\ entry = display_name (name d) i).
Proof.
  cbv zeta. destruct (populate_lists infos s) as [Ec Em].
  rewrite Ec, Em. split; [|split].
  - apply entries_nodup, inputs_nodup.
  - apply entries_listed.
  - apply entries_get.
Qed.

Lemma populate_selected (infos : list device_info) (s : state)
    (i : nat) (d : device_info) :
  nth_error infos i = Some d -> (0 < max_input_channels d)%Z ->
  last_used_device_index (device_config_of s) = Some i
  \/ ((forall l d', last_used_device_index (device_config_of s) = Some l ->
                    nth_error infos l = Some d' ->
                    (max_input_channels d' <= 0)%Z)
      /\ (forall j d', (j < i)%nat -> nth_error infos j = Some d' ->
                       (max_input_channels d' <= 0)%Z)) ->
  device_index (_populate_devices (Py.Ok infos) s) = Some i
  /\ device_var (_populate_devices (Py.Ok infos) s) = display_name (name d) i
  /\ connection_label (_populate_devices (Py.Ok infos) s)
     = connection_label s.
Proof.
  intros Hn Hc Hcase.
  assert (Hget : Dict.get (Listing.entries (Listing.inputs infos))
                   (display_name (name d) i) = Some i).
  { apply entries_get. exists d. tauto. }
  destruct (Listing.inputs infos) as [|[i0 d0] rest] eqn:E.
  { discriminate Hget. }
  rewrite <- E in Hget.
  assert (Hsel : display_name (name d) i
                 = match last_used_device_index (device_config_of s) with
                   | Some last =>
                       match find_last
                               (Listing.entries (Listing.inputs infos)) last
                       with
                       | Some display_name => display_name
                       | None => display_name (name d0) i0
                       end
                   | None => display_name (name d0) i0
                   end).
  { destruct Hcase as [Hlast|[Hlast Hmin]].
    - rewrite Hlast, (find_last_found infos i d Hn Hc). reflexivity.
    - destruct (inputs_head infos i d Hn Hc Hmin) as [rest' E'].
      assert (E0 : (i0, d0) = (i, d)) by congruence.
      injection E0 as Ei Ed. subst i0 d0.
      destruct (last_used_device_index (device_config_of s)) as [l|];
        [|reflexivity].
      rewrite find_last_missing; [reflexivity|].
      intros d' Hd'. exact (Hlast l d' eq_refl Hd'). }
  exact (populate_choice infos s i0 d0 rest _ i E Hsel Hget).
Qed.

(** X11.  The scan selects the device at the remembered index when that is
    still an input device, and the input device of least index
    otherwise; the entry shown is one of the list, and the status label
    is left as it was. *)
Theorem populate_selects_remembered_or_first (infos : list device_info)
    (s : state) (i : nat) (d : device_info) :
  nth_error infos i = Some d -> (0 < max_input_channels d)%Z ->
  last_used_device_index (device_config_of s) = Some i
  \/ ((forall l d', last_used_device_index (device_config_of s) = Some l ->
                    nth_error infos l = Some d' ->
                    (max_input_channels d' <= 0)%Z)
      /\ (forall j d', (j < i)%nat -> nth_error infos j = Some d' ->
                       (max_input_channels d' <= 0)%Z)) ->
  let s' := _populate_devices (Py.Ok infos) s in
  device_index s' = Some i
  /\ device_var s' = display_name (name d) i
  /\ In (device_var s') (combobox_values s')
  /\ connection_label s' = connection_label s.
Proof.
  intros Hn Hc Hcase. cbv zeta.
  destruct (populate_selected infos s i d Hn Hc Hcase) as [Hi [Hv Hl]].
  rewrite Hv. repeat split; try assumption.
  destruct (populate_lists infos s) as [Ec _]. rewrite Ec.
  apply entries_listed. exists i. apply entries_get. exists d. tauto.
Qed.

Lemma populate_selects_remembered_or_first_witness :
  let infos := [ {| name := "Speakers"; max_input_channels := 0 |};
                 {| name := "Microphone"; max_input_channels := 2 |};
                 {| name := "Line In"; max_input_channels := 1 |} ] in
  let remembered :=
    init None (Some {| last_used_device_index := Some 2%nat;
                       last_used_device_name := "Line In (Index: 2)";
                       auto_select_last_device := true |}) in
  (device_index (_populate_devices (Py.Ok infos) remembered) = Some 2%nat
   /\ device_var (_populate_devices (Py.Ok infos) remembered)
      = "Line In (Index: 2)"%string)
  /\ (device_index (_populate_devices (Py.Ok infos) (init None None))
      = Some 1%nat
      /\ device_var (_populate_devices (Py.Ok infos) (init None None))
         = "Microphone (Index: 1)"%string).
Proof.
  cbv zeta. split.
  - pose proof (populate_selects_remembered_or_first
                  [ {| name := "Speakers"; max_input_channels := 0 |};
                    {| name := "Microphone"; max_input_channels := 2 |};
                    {| name := "Line In"; max_input_channels := 1 |} ]
                  (init None
                     (Some {| last_used_device_index := Some 2%nat;
                              last_used_device_name := "Line In (Index: 2)";
                              auto_select_last_device := true |}))
                  2%nat {| name := "Line In"; max_input_channels := 1 |}
                  eq_refl eq_refl (or_introl eq_refl)) as H.
    cbv zeta in H. destruct H as [H1 [H2 _]]. split; [exact H1|exact H2].
  - assert (Hcase :
      (forall l d', last_used_device_index
                      (device_config_of (init None None)) = Some l ->
                    nth_error
                      [ {| name := "Speakers"; max_input_channels := 0 |};
                        {| name := "Microphone"; max_input_channels := 2 |};
                        {| name := "Line In"; max_input_channels := 1 |} ] l
                    = Some d' -> (max_input_channels d' <= 0)%Z)
      /\ (forall j d', (j < 1)%nat ->
                       nth_error
                         [ {| name := "Speakers"; max_input_channels := 0 |};
                           {| name := "Microphone"; max_input_channels := 2 |};
                           {| name := "Line In"; max_input_channels := 1 |} ] j
                       = Some d' -> (max_input_channels d' <= 0)%Z)).
    { split.
      - intros l d' Hl. discriminate Hl.
      - intros j d' Hj Hd'. destruct j as [|j]; [|lia].
        simpl in Hd'. injection Hd' as Hd'. subst d'. simpl. lia. }
    pose proof (populate_selects_remembered_or_first
                  [ {| name := "Speakers"; max_input_channels := 0 |};
                    {| name := "Microphone"; max_input_channels := 2 |};
                    {| name := "Line In"; max_input_channels := 1 |} ]
                  (init None None)
                  1%nat {| name := "Microphone"; max_input_channels := 2 |}
                  eq_refl eq_refl (or_intror Hcase)) as H.
    cbv zeta in H. destruct H as [H1 [H2 _]]. split; [exact H1|exact H2].
Defined.

Lemma populate_outcome (infos : list device_info)
    (s : state) :
  let s' := _populate_devices (Py.Ok infos) s in
  ((forall d, In d infos -> (max_input_channels d <= 0)%Z)
   /\ combobox_values s' = []
   /\ device_index s' = device_index s
   /\ connection_label s' = ("No input devices found", "red")%string)
  \/ (exists i d,
        nth_error infos i = Some d /\ (0 < max_input_channels d)%Z
        /\ device_index s' = Some i
        /\ device_var s' = display_name (name d) i
        /\ connection_label s' = connection_label s).
Proof.
  cbv zeta. destruct (Listing.inputs infos) as [|[i0 d0] rest] eqn:E.
  - left. split; [|split; [|split]].
    + intros d Hin. apply In_nth_error in Hin. destruct Hin as [n Hn].
      destruct (Z_lt_le_dec 0 (max_input_channels d)) as [Hc|Hc];
        [|exact Hc].
      exfalso. assert (H : In (n, d) (Listing.inputs infos))
        by (apply inputs_in; tauto).
      rewrite E in H. exact H.
    + destruct (populate_lists infos s) as [Ec _]. rewrite Ec, E.
      reflexivity.
    + unfold _populate_devices. rewrite scan_inputs, E. reflexivity.
    + unfold _populate_devices. rewrite scan_inputs, E. reflexivity.
  - right.
    destruct (selected_listed infos
                (last_used_device_index (device_config_of s)) i0 d0 rest E)
      as [idx Hget].
    destruct (populate_choice infos s i0 d0 rest _ idx E eq_refl Hget)
      as [Hi [Hv Hl]].
    apply entries_get in Hget. destruct Hget as [d [Hn [Hc Hk]]].
    exists idx, d. rewrite Hv. repeat split; assumption.
Qed.

(** X12.  Whatever the query returns, the scan either finds no input device
    and keeps the device in use, or selects a listed input device of
    the query: the lookup of the chosen entry never fails. *)
Theorem populate_never_selects_output (infos : list device_info)
    (s : state) :
  let s' := _populate_devices (Py.Ok infos) s in
  ((forall d, In d infos -> (max_input_channels d <= 0)%Z)
   /\ combobox_values s' = []
   /\ device_index s' = device_index s
   /\ connection_label s' = ("No input devices found", "red")%string)
  \/ (exists i d,
        nth_error infos i = Some d /\ (0 < max_input_channels d)%Z
        /\ device_index s' = Some i
        /\ device_var s' = display_name (name d) i
        /\ connection_label s' = connection_label s).
Proof. exact (populate_outcome infos s). Qed.

(** X13.  A device picked in the combobox becomes the device in use and is
    written to the configuration file; a later session that reads the
    file selects the device at that index again, if the query still
    has an input device there. *)
Theorem selection_is_remembered (infos : list device_info) (s : state)
    (entry : string) (file : config_file) :
  In entry (combobox_values (_populate_devices (Py.Ok infos) s)) ->
  let picked :=
    _on_device_selected Written
      (choose entry (_populate_devices (Py.Ok infos) s)) file in
  exists i d,
    nth_error infos i = Some d /\ (0 < max_input_channels d)%Z
    /\ entry = display_name (name d) i
    /\ device_index (fst picked) = Some i
    /\ connection_label (fst picked) = ("Ready", "blue")%string
    /\ last_used_device_index (load_device_config (snd picked)) = Some i
    /\ last_used_device_name (load_device_config (snd picked)) = entry
    /\ forall infos' d' dev,
         nth_error infos' i = Some d' -> (0 < max_input_channels d')%Z ->
         device_index
           (_populate_devices (Py.Ok infos') (init dev (snd picked)))
         = Some i.
Proof.
  intro Hin. cbv zeta.
  destruct (populate_lists infos s) as [Ec Em].
  rewrite Ec in Hin. apply entries_listed in Hin. destruct Hin as [i Hget].
  unfold _on_device_selected, choose.
  cbn [device_var device_map]. rewrite Em, Hget.
  apply entries_get in Hget. destruct Hget as [d [Hn [Hc Hk]]].
  exists i, d. cbn [fst snd save_device_config load_device_config
                    device_index connection_label last_used_device_index
                    last_used_device_name].
  repeat split; try assumption.
  intros infos' d' dev Hn' Hc'.
  apply (populate_selected infos' _ i d' Hn' Hc'). left. reflexivity.
Qed.

Lemma selection_is_remembered_witness :
  In "Line In (Index: 2)"%string
     (combobox_values
        (_populate_devices
           (Py.Ok [ {| name := "Speakers"; max_input_channels := 0 |};
                    {| name := "Microphone"; max_input_channels := 2 |};
                    {| name := "Line In"; max_input_channels := 1 |} ])
           (init None None)))
  /\ exists i,
       device_index
         (fst (_on_device_selected Written
                 (choose "Line In (Index: 2)"
                    (_populate_devices
                       (Py.Ok [ {| name := "Speakers";
                                   max_input_channels := 0 |};
                                {| name := "Microphone";
                                   max_input_channels := 2 |};
                                {| name := "Line In";
                                   max_input_channels := 1 |} ])
                       (init None None)))
                 None))
       = Some i.
Proof.
  assert (Hin : In "Line In (Index: 2)"%string
                  (combobox_values
                     (_populate_devices
                        (Py.Ok [ {| name := "Speakers";
                                    max_input_channels := 0 |};
                                 {| name := "Microphone";
                                    max_input_channels := 2 |};
                                 {| name := "Line In";
                                    max_input_channels := 1 |} ])
                        (init None None)))).
  { right. left. reflexivity. }
  split; [exact Hin|].
  destruct (selection_is_remembered _ _ _ None Hin)
    as (i & d & _ & _ & _ & Hi & _).
  exists i. exact Hi.
Defined.

(** X14.  Closing the window writes the index of the device in use to the
    configuration file, also when the scan chose it and nobody picked
    it; the name in the file stays the one of the last pick.  A later
    session selects the device at that index again, if the query still
    has an input device there. *)
Theorem closing_remembers_device_in_use (s : state) (file : config_file)
    (i : nat) :
  device_index s = Some i ->
  let closed := _on_closing Written s file in
  last_used_device_index (load_device_config (snd closed)) = Some i
  /\ last_used_device_name (load_device_config (snd closed))
     = last_used_device_name (device_config_of s)
  /\ forall infos' d' dev,
       nth_error infos' i = Some d' -> (0 < max_input_channels d')%Z ->
       device_index
         (_populate_devices (Py.Ok infos') (init dev (snd closed)))
       = Some i
       /\ device_var
            (_populate_devices (Py.Ok infos') (init dev (snd closed)))
          = display_name (name d') i.
Proof.
  intro Hi. cbv zeta. unfold _on_closing. rewrite Hi.
  cbn [fst snd save_device_config load_device_config
       last_used_device_index last_used_device_name].
  split; [reflexivity|]. split; [reflexivity|].
  intros infos' d' dev Hn' Hc'.
  destruct (populate_selected infos'
              (init dev
                 (Some {| last_used_device_index := Some i;
                          last_used_device_name :=
                            last_used_device_name (device_config_of s);
                          auto_select_last_device :=
                            auto_select_last_device (device_config_of s) |}))
              i d' Hn' Hc' (or_introl eq_refl)) as [H1 [H2 _]].
  split; [exact H1|exact H2].
Qed.

Lemma closing_remembers_device_in_use_witness :
  last_used_device_index
    (load_device_config
       (snd (_on_closing Written
               (_populate_devices
                  (Py.Ok [ {| name := "Speakers"; max_input_channels := 0 |};
                           {| name := "Microphone";
                              max_input_channels := 2 |} ])
                  (init None None))
               None)))
  = Some 1%nat
  /\ last_used_device_name
       (load_device_config
          (snd (_on_closing Written
                  (_populate_devices
                     (Py.Ok [ {| name := "Speakers";
                                 max_input_channels := 0 |};
                              {| name := "Microphone";
                                 max_input_channels := 2 |} ])
                     (init None None))
                  None)))
     = ""%string.
Proof.
  destruct (closing_remembers_device_in_use
              (_populate_devices
                 (Py.Ok [ {| name := "Speakers"; max_input_channels := 0 |};
                          {| name := "Microphone";
                             max_input_channels := 2 |} ])
                 (init None None))
              None 1%nat eq_refl) as [H1 [H2 _]].
  split; [exact H1|exact H2].
Defined.

Lemma session_lists (query : Py.result (list device_info))
    (file : config_file) (s : state) :
  session query file s ->
  match query with
  | Py.Raise _ => combobox_values s = [] /\ device_index s = None
  | Py.Ok infos =>
      combobox_values s = map fst (Listing.entries (Listing.inputs infos))
      /\ device_map s = Listing.entries (Listing.inputs infos)
      /\ forall i, device_index s = Some i ->
           exists d, nth_error infos i = Some d
                     /\ (0 < max_input_channels d)%Z
  end.
Proof.
  induction 1 as [|s entry io f Hs IH Hin].
  - destruct query as [infos|e]; [|split; reflexivity].
    destruct (populate_lists infos (init None file)) as [Ec Em].
    split; [exact Ec|]. split; [exact Em|].
    intros i Hi.
    destruct (populate_outcome infos (init None file))
      as [(_ & _ & Hk & _)|(i' & d & Hn & Hc & Hi' & _)].
    + rewrite Hk in Hi. discriminate Hi.
    + exists d. assert (E : i = i') by congruence. subst i'. tauto.
  - destruct query as [infos|e].
    + destruct IH as (Ec & Em & _).
      unfold _on_device_selected, choose. cbn [device_var device_map].
      rewrite Ec in Hin. apply entries_listed in Hin.
      destruct Hin as [i Hget]. rewrite Em, Hget.
      cbn [fst combobox_values device_map device_index].
      split; [exact Ec|]. split; [reflexivity|].
      intros i' Hi'. injection Hi' as Hi'. subst i'.
      apply entries_get in Hget. destruct Hget as [d [Hn [Hc _]]].
      exists d. split; assumption.
    + destruct IH as [Ec _]. rewrite Ec in Hin. contradiction.
Qed.

(** X15.  The device in use is always an input device of the scan: in a run
    started with no device given, whatever is picked in the combobox,
    [device_index] is [None] or the index of a device of the query
    that has input channels; when the query failed it stays [None]. *)
Theorem device_in_use_is_an_input (query : Py.result (list device_info))
    (file : config_file) (s : state) (i : nat) :
  session query file s ->
  device_index s = Some i ->
  exists infos d,
    query = Py.Ok infos /\ nth_error infos i = Some d
    /\ (0 < max_input_channels d)%Z.
Proof.
  intros Hs Hi. pose proof (session_lists query file s Hs) as H.
  destruct query as [infos|e].
  - destruct H as (_ & _ & H). destruct (H i Hi) as [d [Hn Hc]].
    exists infos, d. repeat split; assumption.
  - destruct H as [_ H]. rewrite H in Hi. discriminate Hi.
Qed.

Lemma device_in_use_is_an_input_witness :
  exists infos d,
    Py.Ok [ {| name := "Speakers"; max_input_channels := 0 |};
            {| name := "Microphone"; max_input_channels := 2 |} ]
    = Py.Ok infos
    /\ nth_error infos 1 = Some d /\ (0 < max_input_channels d)%Z.
Proof.
  exact (device_in_use_is_an_input
           (Py.Ok [ {| name := "Speakers"; max_input_channels := 0 |};
                    {| name := "Microphone"; max_input_channels := 2 |} ])
           None _ 1%nat (session_scan _ None) eq_refl).
Defined.

End DeviceProperties.
